(** * ncdex-scheduler-utility: the incremental synchronisation pipeline

    A shallow embedding of the parts of the repository that carry the
    pipeline's invariants, one module per source file:

    - [utils/fieldTransformer.js]                      ([Transformer])
    - [utils/syncTracker.js]                           ([SyncTracker])
    - [utils/sugarCRM.js]                              ([SugarCRM])
    - [utils/database.js], [utils/integrationLogger.js] ([IntegrationLogger])
    - [utils/portalAPI.js]                             ([PortalAPI])
    - the four sync tasks of [tasks/]                  ([Tasks])
    - [tasks/manageSync.js]                            ([ManageSync])
    - [utils/portalAuth.js]                            ([PortalAuth])
    - [utils/logger.js]                                ([Logger])

    JavaScript objects used as dictionaries are finite maps from strings
    to JavaScript values ([Js]); exceptions are an explicit outcome; the
    clock, the checkpoint file, the ledger and the calls made to the two
    remote systems are threaded through a state ([Runtime]).  The calls
    the other modules make to the file logger only print and append to
    a log file, and are left out of them.

    The modules whose names end in [Spec] hold the properties. *)

From Stdlib Require Import ZArith Ascii String List Lia Bool.
From stdpp Require Import gmap strings list fin_maps pretty.

Local Open Scope string_scope.
Local Open Scope Z_scope.

(* ===================================================================== *)
(** * JavaScript values                                                   *)
(* ===================================================================== *)

Module Js.

(** The values that travel through the pipeline are JSON values plus
    [undefined].  Numbers are the integers (the payloads of the two
    remote systems carry identifiers, counters and flags).  Strings are
    sequences of 8-bit characters, and case mapping and white space are
    those of ASCII. *)
#[warnings="-register-all"]
Inductive value : Type :=
| VUndef
| VNull
| VBool (b : bool)
| VNum (n : Z)
| VStr (s : string)
| VArr (items : list value)
| VObj (fields : list (string * value)).

(** An object literal or a parsed JSON object seen as a dictionary. *)
Abbreviation obj := (gmap string value).

(** [o[k]]: a missing property reads as [undefined]. *)
Definition get (o : obj) (k : string) : value := default VUndef (o !! k).

(** [ToBoolean]. *)
Definition truthy (v : value) : bool :=
  match v with
  | VUndef | VNull => false
  | VBool b => b
  | VNum n => negb (n =? 0)
  | VStr s => negb (String.eqb s EmptyString)
  | VArr _ | VObj _ => true
  end.

Definition falsy (v : value) : bool := negb (truthy v).

Definition is_undef (v : value) : bool :=
  match v with VUndef => true | _ => false end.

(** [a || b]. *)
Definition or_else (a b : value) : value := if truthy a then a else b.

(** [v === s] for a string [s]. *)
Definition is_str (v : value) (s : string) : bool :=
  match v with VStr t => String.eqb t s | _ => false end.

(** [v !== null && v !== undefined && v !== ''] *)
Definition has_value (v : value) : bool :=
  match v with
  | VUndef | VNull => false
  | VStr s => negb (String.eqb s EmptyString)
  | _ => true
  end.

(** [String(v)]: what a template literal, [v.toString()] on a truthy
    [v] and [RegExp.prototype.test] make of a value.  An array prints
    its items separated by commas, [null] and [undefined] items as
    nothing; a plain object prints as ["[object Object]"]. *)
Fixpoint toString (v : value) : string :=
  match v with
  | VUndef => "undefined"
  | VNull => "null"
  | VBool true => "true"
  | VBool false => "false"
  | VNum n => pretty n
  | VStr s => s
  | VArr l =>
      let item (w : value) : string :=
        match w with
        | VUndef | VNull => EmptyString
        | _ => toString w
        end in
      let fix join (first : bool) (l : list value) : string :=
        match l with
        | [] => EmptyString
        | w :: r => (if first then EmptyString else ",") ++ item w ++ join false r
        end in
      join true l
  | VObj _ => "[object Object]"
  end.

(** ** Strings *)

Definition code (c : ascii) : nat := nat_of_ascii c.

Definition is_upper (c : ascii) : bool := (65 <=? code c)%nat && (code c <=? 90)%nat.
Definition is_lower (c : ascii) : bool := (97 <=? code c)%nat && (code c <=? 122)%nat.
Definition is_digit (c : ascii) : bool := (48 <=? code c)%nat && (code c <=? 57)%nat.

(** [\s] restricted to ASCII: TAB, LF, VT, FF, CR and SPACE. *)
Definition is_space (c : ascii) : bool :=
  ((9 <=? code c)%nat && (code c <=? 13)%nat) || (code c =? 32)%nat.

Definition up (c : ascii) : ascii :=
  if is_lower c then ascii_of_nat (code c - 32) else c.
Definition low (c : ascii) : ascii :=
  if is_upper c then ascii_of_nat (code c + 32) else c.

Fixpoint map_chars (f : ascii -> ascii) (s : string) : string :=
  match s with
  | EmptyString => EmptyString
  | String c r => String (f c) (map_chars f r)
  end.

Definition toUpperCase : string -> string := map_chars up.
Definition toLowerCase : string -> string := map_chars low.

Fixpoint trimStart (s : string) : string :=
  match s with
  | String c r => if is_space c then trimStart r else s
  | EmptyString => EmptyString
  end.

Fixpoint all_chars (p : ascii -> bool) (s : string) : bool :=
  match s with
  | EmptyString => true
  | String c r => p c && all_chars p r
  end.

(** Drops the trailing white space: a character is kept when it or
    something after it is not white space. *)
Fixpoint trimEnd (s : string) : string :=
  match s with
  | EmptyString => EmptyString
  | String c r => if all_chars is_space s then EmptyString else String c (trimEnd r)
  end.

Definition trim (s : string) : string := trimEnd (trimStart s).

Fixpoint filter_chars (p : ascii -> bool) (s : string) : string :=
  match s with
  | EmptyString => EmptyString
  | String c r => if p c then String c (filter_chars p r) else filter_chars p r
  end.

(** [s.split(sep)[0]] for a one-character separator. *)
Fixpoint before (sep : ascii) (s : string) : string :=
  match s with
  | EmptyString => EmptyString
  | String c r => if Ascii.eqb c sep then EmptyString else String c (before sep r)
  end.

(** ** The three regular expressions of the sources *)

(** [[^\s@]] *)
Definition plain (c : ascii) : bool := negb (is_space c) && negb (Ascii.eqb c "@").

(** [^[^\s@]+\.[^\s@]+$]: plain characters only, with a dot that is
    neither the first nor the last character. *)
Fixpoint dot_inside (seen : bool) (s : string) : bool :=
  match s with
  | EmptyString => false
  | String c r =>
      plain c &&
      ((seen && Ascii.eqb c "." && negb (String.eqb r EmptyString) && all_chars plain r)
       || dot_inside true r)
  end.

(** [/^[^\s@]+@[^\s@]+\.[^\s@]+$/.test(s)]: the local part is plain and
    not empty, so the separator is the first [@] of [s]. *)
Fixpoint emailRegex_from (seen : bool) (s : string) : bool :=
  match s with
  | EmptyString => false
  | String c r =>
      if Ascii.eqb c "@" then seen && dot_inside false r
      else negb (is_space c) && emailRegex_from true r
  end.

Definition emailRegex (s : string) : bool := emailRegex_from false s.

(** [/^[\+]?[1-9][\d]{0,15}$/.test(s)] *)
Definition phoneRegex (s : string) : bool :=
  let body := match s with
              | String "+" r => r
              | _ => s
              end in
  match body with
  | String c r =>
      (49 <=? code c)%nat && (code c <=? 57)%nat
      && all_chars is_digit r && (String.length r <=? 15)%nat
  | EmptyString => false
  end.

(** [[\s\-\(\)]], the characters removed before the phone test. *)
Definition phone_noise (c : ascii) : bool :=
  is_space c || Ascii.eqb c "-" || Ascii.eqb c "(" || Ascii.eqb c ")".

Definition is_hex (c : ascii) : bool :=
  is_digit c
  || ((65 <=? code c)%nat && (code c <=? 70)%nat)
  || ((97 <=? code c)%nat && (code c <=? 102)%nat).

(** [n] hexadecimal digits, then the rest. *)
Fixpoint hex_run (n : nat) (s : string) : option string :=
  match n with
  | O => Some s
  | S k => match s with
           | String c r => if is_hex c then hex_run k r else None
           | EmptyString => None
           end
  end.

(** A dash, then [n] hexadecimal digits, then the rest. *)
Definition dash_hex_run (n : nat) (s : string) : option string :=
  match s with
  | String "-" r => hex_run n r
  | _ => None
  end.

Definition and_then (o : option string) (f : string -> option string) : option string :=
  match o with
  | Some s => f s
  | None => None
  end.

(** [/^[0-9a-f]{8}-[0-9a-f]{4}-[0-9a-f]{4}-[0-9a-f]{4}-[0-9a-f]{12}$/i.test(s)] *)
Definition uuidRegex (s : string) : bool :=
  match
    and_then (and_then (and_then (and_then (hex_run 8 s) (dash_hex_run 4))
      (dash_hex_run 4)) (dash_hex_run 4)) (dash_hex_run 12)
  with
  | Some EmptyString => true
  | _ => false
  end.

(** ** Properties and comparisons *)

(** [v === null || v === undefined] *)
Definition nullish (v : value) : bool :=
  match v with
  | VUndef | VNull => true
  | _ => false
  end.

(** The message of the [TypeError] raised by [v.k] for a [v] that is
    [null] or [undefined]. *)
Definition cannot_read (v : value) (k : string) : string :=
  "Cannot read properties of " ++ toString v ++ " (reading '" ++ k ++ "')".

(** The longest run of decimal digits that [s] starts with, and what
    follows it. *)
Fixpoint take_digits (s : string) : string * string :=
  match s with
  | String c r =>
      if is_digit c then let '(d, rest) := take_digits r in (String c d, rest)
      else (EmptyString, s)
  | EmptyString => (EmptyString, EmptyString)
  end.

(** The number that decimal digits spell; no digits spell zero. *)
Fixpoint number_from (acc : Z) (digits : string) : Z :=
  match digits with
  | String c r => number_from (10 * acc + Z.of_nat (code c - 48)) r
  | EmptyString => acc
  end.

(** The exponent part of a decimal literal, [None] when what follows
    the mantissa is no exponent part. *)
Definition exponent_of (s : string) : option Z :=
  match s with
  | EmptyString => Some 0
  | String c r =>
      if Ascii.eqb c "e" || Ascii.eqb c "E" then
        let '(negative, r) :=
          match r with
          | String "+" r' => (false, r')
          | String "-" r' => (true, r')
          | _ => (false, r)
          end in
        match take_digits r with
        | (String d ds, EmptyString) =>
            Some (if negative : bool then - number_from 0 (String d ds)
                  else number_from 0 (String d ds))
        | _ => None
        end
      else None
  end.

(** Whether an unsigned decimal literal is a number above zero:
    [Infinity], or digits with an optional fraction and an optional
    exponent whose value [m * 10^(e - f)] does not round to zero, that
    is exceeds half the smallest number above zero, [2^-1075]. *)
Definition decimal_positive (s : string) : bool :=
  if String.eqb s "Infinity" then true
  else
    let '(whole, r) := take_digits s in
    let '(fraction, r) :=
      match r with
      | String "." r' => take_digits r'
      | _ => (EmptyString, r)
      end in
    match exponent_of r with
    | Some e =>
        negb (String.eqb (whole ++ fraction) EmptyString)
        && (let m := number_from 0 (whole ++ fraction) in
            let f := Z.of_nat (String.length fraction) in
            if f <=? e then 0 <? m else 10 ^ (f - e) <? m * 2 ^ 1075)
    | None => false
    end.

(** Whether the digits after [0x], [0o] or [0b] are a number above
    zero. *)
Definition radix_positive (digit : ascii -> bool) (s : string) : bool :=
  negb (String.eqb s EmptyString) && all_chars digit s
  && negb (all_chars (λ c, Ascii.eqb c "0") s).

Definition is_octal (c : ascii) : bool := (48 <=? code c)%nat && (code c <=? 55)%nat.
Definition is_binary (c : ascii) : bool := (48 <=? code c)%nat && (code c <=? 49)%nat.

(** [Number(s) > 0]: the string is trimmed; the empty string is zero, a
    literal with a minus sign is not above zero, and a string that is
    no numeric literal is [NaN], which compares false. *)
Definition string_gt_zero (s : string) : bool :=
  match trim s with
  | String "0" (String x r) =>
      if Ascii.eqb x "x" || Ascii.eqb x "X" then radix_positive is_hex r
      else if Ascii.eqb x "o" || Ascii.eqb x "O" then radix_positive is_octal r
      else if Ascii.eqb x "b" || Ascii.eqb x "B" then radix_positive is_binary r
      else decimal_positive (trim s)
  | String "+" r => decimal_positive r
  | String "-" _ => false
  | t => decimal_positive t
  end.

(** [v > 0]: [v] is converted to a number, an array and an object
    through the string they print as. *)
Definition gt_zero (v : value) : bool :=
  match v with
  | VUndef | VNull => false
  | VBool b => b
  | VNum n => 0 <? n
  | VStr s => string_gt_zero s
  | VArr _ | VObj _ => string_gt_zero (toString v)
  end.

(** [v.k] for a [v] that is neither [null] nor [undefined] and a name
    [k] that no prototype defines: the property of an object, and
    [undefined] on anything else. *)
Definition properties (v : value) : obj :=
  match v with
  | VObj fs => list_to_map fs
  | _ => ∅
  end.

(** [v.length] for a [v] that is neither [null] nor [undefined]. *)
Definition length_of (v : value) : value :=
  match v with
  | VStr s => VNum (Z.of_nat (String.length s))
  | VArr l => VNum (Z.of_nat (length l))
  | VObj _ => get (properties v) "length"
  | _ => VUndef
  end.

(** ** JSON

    [JSON.stringify] without indentation.  A property whose value is
    [undefined] is left out; the top-level call is only made on objects
    in the sources. *)

Definition hex_digit (n : nat) : ascii :=
  if (n <? 10)%nat then ascii_of_nat (48 + n) else ascii_of_nat (87 + n).

Definition dquote : ascii := ascii_of_nat 34.
Definition backslash : ascii := ascii_of_nat 92.
Definition esc (s : string) : string := String backslash s.

Definition quote_char (c : ascii) : string :=
  if Ascii.eqb c dquote then esc (String dquote EmptyString)
  else if Ascii.eqb c backslash then esc (String backslash EmptyString)
  else if (code c =? 8)%nat then esc "b"
  else if (code c =? 9)%nat then esc "t"
  else if (code c =? 10)%nat then esc "n"
  else if (code c =? 12)%nat then esc "f"
  else if (code c =? 13)%nat then esc "r"
  else if (code c <? 32)%nat
       then esc ("u00" ++ String (hex_digit (code c / 16))
                            (String (hex_digit (code c mod 16)) EmptyString))
       else String c EmptyString.

Fixpoint quote_chars (s : string) : string :=
  match s with
  | EmptyString => EmptyString
  | String c r => quote_char c ++ quote_chars r
  end.

Definition quote (s : string) : string :=
  String dquote (quote_chars s ++ String dquote EmptyString).

Fixpoint stringify (v : value) : string :=
  match v with
  | VUndef => "undefined"
  | VNull => "null"
  | VBool true => "true"
  | VBool false => "false"
  | VNum n => pretty n
  | VStr s => quote s
  | VObj fs =>
      let fix members (first : bool) (l : list (string * value)) : string :=
        match l with
        | [] => EmptyString
        | (_, VUndef) :: r => members first r
        | (k, w) :: r =>
            (if first then EmptyString else ",") ++ quote k ++ ":" ++ stringify w
            ++ members false r
        end in
      "{" ++ members true fs ++ "}"
  | VArr l =>
      let item (w : value) : string :=
        match w with
        | VUndef => "null"
        | _ => stringify w
        end in
      let fix items (first : bool) (l : list value) : string :=
        match l with
        | [] => EmptyString
        | w :: r => (if first then EmptyString else ",") ++ item w ++ items false r
        end in
      "[" ++ items true l ++ "]"
  end.

(** What [JSON.parse (JSON.stringify v)] gives back: the same value
    without the properties that hold [undefined], and with [null] for
    the array items that do. *)
Fixpoint jsonify (v : value) : value :=
  match v with
  | VObj fs =>
      let fix members (l : list (string * value)) : list (string * value) :=
        match l with
        | [] => []
        | (_, VUndef) :: r => members r
        | (k, w) :: r => (k, jsonify w) :: members r
        end in
      VObj (members fs)
  | VArr l =>
      let item (w : value) : value :=
        match w with
        | VUndef => VNull
        | _ => jsonify w
        end in
      VArr (map item l)
  | _ => v
  end.

(** [a.push(x)] *)
Definition push {A : Type} (a : list A) (x : A) : list A := (a ++ [x])%list.

(** ** Results and outcomes

    A function returns or throws an [Error] with a message. *)
Inductive result (A : Type) : Type :=
| Returns (a : A)
| Throws (message : string).
Arguments Returns {A} a.
Arguments Throws {A} message.

(** A call that goes through the pagination loop returns, throws or, as
    the remote system can keep that loop alive for ever, uses up the
    iterations it was given. *)
Inductive outcome (A : Type) : Type :=
| Ok (a : A)
| Throw (message : string)
| OutOfFuel.
Arguments Ok {A} a.
Arguments Throw {A} message.
Arguments OutOfFuel {A}.

End Js.

(* ===================================================================== *)
(** * utils/fieldTransformer.js                                           *)
(* ===================================================================== *)

Module Transformer.
Import Js.

(** One entry of [field_mappings]. *)
Record MappingConfig : Type := {
  portal_field : string;
  required : bool;
  transform : string
}.

(** One entry of [computed_fields]. *)
Record ComputedConfig : Type := {
  computed_portal_field : string;
  computed_transform : string
}.

Record ValidationRules : Type := {
  required_fields : option (list string);
  email_validation : bool;
  phone_validation : bool
}.

(** One mapping type of [config/fieldMappings.json].  The three optional
    blocks are absent ([None]) or objects; the entries of an object are
    listed in the order [Object.entries] visits them. *)
Record FieldMapping : Type := {
  field_mappings : list (string * MappingConfig);
  default_values : option (list (string * value));
  computed_fields : option (list (string * ComputedConfig));
  validation_rules : option ValidationRules
}.

Record TransformationResult : Type := {
  data : obj;
  isValid : bool;
  validationErrors : list string;
  mapping : FieldMapping
}.

(** The configuration file as [readFile] and [JSON.parse] deliver it, or
    the error they raise. *)
Abbreviation config_file := (result (gmap string FieldMapping)).

Definition loadFieldMappings (config : config_file) (mappingType : string)
  : result FieldMapping :=
  match config with
  | Returns c =>
      match c !! mappingType with
      | Some m => Returns m
      | None =>
          Throws ("Failed to load field mappings: "
                  ++ "Field mapping configuration not found for type: " ++ mappingType)
      end
  | Throws e => Throws ("Failed to load field mappings: " ++ e)
  end.

(** The [switch] on [mappingConfig.transform]. *)
Definition applyTransform (kind : string) (v : value) : value :=
  if String.eqb kind "uppercase" then
    if truthy v then VStr (toUpperCase (toString v)) else v
  else if String.eqb kind "lowercase" then
    if truthy v then VStr (toLowerCase (toString v)) else v
  else if String.eqb kind "trim" then
    if truthy v then VStr (trim (toString v)) else v
  else v.

Definition missing_required (field : string) : string :=
  "Missing required field: " ++ field.

(** [!value || value === ''] *)
Definition missing (v : value) : bool := falsy v || is_str v "".

(** One iteration of the loop over [mapping.field_mappings]; the state is
    the record under construction and the errors so far. *)
Definition mapField (sugarcrmRecord : obj) (st : obj * list string)
    (entry : string * MappingConfig) : obj * list string :=
  let '(transformedRecord, validationErrors) := st in
  let '(sugarcrmField, mappingConfig) := entry in
  let v := get sugarcrmRecord sugarcrmField in
  if required mappingConfig && missing v then
    (transformedRecord, push validationErrors (missing_required sugarcrmField))
  else
    let transformedValue := applyTransform (transform mappingConfig) v in
    if has_value transformedValue then
      (<[portal_field mappingConfig := transformedValue]> transformedRecord,
       validationErrors)
    else (transformedRecord, validationErrors).

Definition applyFieldMappings (sugarcrmRecord : obj)
    (fms : list (string * MappingConfig)) : obj * list string :=
  fold_left (mapField sugarcrmRecord) fms (∅, []).

(** One iteration of the loop over [mapping.default_values]. *)
Definition applyDefault (transformedRecord : obj) (entry : string * value) : obj :=
  if falsy (get transformedRecord entry.1)
  then <[entry.1 := entry.2]> transformedRecord
  else transformedRecord.

Definition applyDefaults (defaults : option (list (string * value)))
    (transformedRecord : obj) : obj :=
  match defaults with
  | Some l => fold_left applyDefault l transformedRecord
  | None => transformedRecord
  end.

(** One iteration of the loop over [mapping.computed_fields].  [clock t]
    is what the [t]-th [new Date().toISOString()] of the run returns.
    A [copy_from_name] of a record without [name] stores [undefined]:
    only [null] is skipped. *)
Definition applyComputed (clock : nat -> string) (st : obj * nat)
    (entry : string * ComputedConfig) : obj * nat :=
  let '(transformedRecord, t) := st in
  let config := entry.2 in
  let kind := computed_transform config in
  if String.eqb kind "timestamp" then
    (<[computed_portal_field config := VStr (clock t)]> transformedRecord, S t)
  else if String.eqb kind "copy_from_name" then
    match get transformedRecord "name" with
    | VNull => (transformedRecord, t)
    | computedValue =>
        (<[computed_portal_field config := computedValue]> transformedRecord, t)
    end
  else if String.eqb kind "current_date" then
    (<[computed_portal_field config := VStr (before "T" (clock t))]> transformedRecord,
     S t)
  else (transformedRecord, t).

Definition applyComputedFields (clock : nat -> string)
    (computed : option (list (string * ComputedConfig))) (st : obj * nat)
  : obj * nat :=
  match computed with
  | Some l => fold_left (applyComputed clock) l st
  | None => st
  end.

(** One iteration of the loop over [validationRules.required_fields]. *)
Definition checkRequired (record : obj) (st : bool * list string) (field : string)
  : bool * list string :=
  if missing (get record field)
  then (false, push st.2 (missing_required field))
  else st.

Definition checkEmail (rules : ValidationRules) (record : obj)
    (st : bool * list string) : bool * list string :=
  if email_validation rules && truthy (get record "email") then
    let emailString :=
      match get record "email" with
      | VObj _ | VArr _ => stringify (get record "email")
      | v => toString v
      end in
    if emailRegex emailString then st
    else (false, push st.2 ("Invalid email format: " ++ emailString))
  else st.

(** [record.phone.replace] exists on strings only: any other truthy
    value makes the call raise a [TypeError]. *)
Definition checkPhone (rules : ValidationRules) (record : obj)
    (st : bool * list string) : result (bool * list string) :=
  if phone_validation rules && truthy (get record "phone") then
    match get record "phone" with
    | VStr phone =>
        if phoneRegex (filter_chars (λ c, negb (phone_noise c)) phone) then Returns st
        else Returns (false, push st.2 ("Invalid phone format: " ++ phone))
    | _ => Throws "record.phone.replace is not a function"
    end
  else Returns st.

(** Returns the flag together with the error list it has pushed to. *)
Definition validateTransformedRecord (record : obj) (validationRules : ValidationRules)
    (existingErrors : list string) : result (bool * list string) :=
  let st0 := (true, existingErrors) in
  let st1 :=
    match required_fields validationRules with
    | Some l => fold_left (checkRequired record) l st0
    | None => st0
    end in
  checkPhone validationRules record (checkEmail validationRules record st1).

(** The body of [transformSugarcrmToPortal] once the mapping is loaded;
    the second component is the clock position after the call. *)
Definition transformWith (clock : nat -> string) (t : nat) (m : FieldMapping)
    (sugarcrmRecord : obj) : result TransformationResult * nat :=
  let '(mapped, errors1) := applyFieldMappings sugarcrmRecord (field_mappings m) in
  let defaulted := applyDefaults (default_values m) mapped in
  let '(transformedRecord, t') :=
    applyComputedFields clock (computed_fields m) (defaulted, t) in
  match validation_rules m with
  | Some rules =>
      match validateTransformedRecord transformedRecord rules errors1 with
      | Returns (valid, errors) =>
          (Returns {| data := transformedRecord; isValid := valid;
                      validationErrors := errors; mapping := m |}, t')
      | Throws e => (Throws e, t')
      end
  | None =>
      (Returns {| data := transformedRecord; isValid := true;
                  validationErrors := errors1; mapping := m |}, t')
  end.

Definition transformSugarcrmToPortal (config : config_file) (clock : nat -> string)
    (t : nat) (sugarcrmRecord : obj) (mappingType : string)
  : result TransformationResult * nat :=
  match loadFieldMappings config mappingType with
  | Returns m => transformWith clock t m sugarcrmRecord
  | Throws e => (Throws e, t)
  end.

(** [Object.keys(mapping.field_mappings)] *)
Definition getSugarcrmFields (config : config_file) (mappingType : string)
  : result (list string) :=
  match loadFieldMappings config mappingType with
  | Returns m => Returns (map fst (field_mappings m))
  | Throws e => Throws e
  end.


(** [getRequiredFields]: the source fields whose entry is marked
    required, in the order of [field_mappings]. *)
Definition getRequiredFields (config : config_file) (mappingType : string)
  : result (list string) :=
  match loadFieldMappings config mappingType with
  | Returns m =>
      Returns (fst <$> List.filter (λ entry, required entry.2) (field_mappings m))
  | Throws e => Throws e
  end.

(** [getFieldMapping] *)
Definition getFieldMapping (config : config_file) (mappingType : string)
  : result FieldMapping :=
  loadFieldMappings config mappingType.

End Transformer.

(* ===================================================================== *)
(** * The world a task runs in                                            *)
(* ===================================================================== *)

Module Runtime.
Import Js.

(** The document kept in [data/integration_last_sync.json]. *)
Record SyncData : Type := {
  sync_records : list obj;
  metadata : value
}.

(** One page of the Source as [response.json()] delivers it. *)
Record Page : Type := {
  records : list obj;
  has_more : bool;
  next_offset : Z;
  total_count : value
}.

(** A single-field predicate [{ field: { operator: operand } }]. *)
Record Filter : Type := {
  filter_field : string;
  filter_operator : string;
  filter_operand : value
}.

(** The body [sugarCRMPost] sends to [<module>/filter]. *)
Record RequestBody : Type := {
  rb_fields : list string;
  max_num : Z;
  rb_offset : Z;
  order_by : string;
  order_direction : string;
  rb_filter : option (list Filter)
}.

(** The calls a run makes to the outside, in the order it makes them. *)
Inductive event : Type :=
| EQuery (module : string) (body : RequestBody)
| EPageCallback (page_records : list obj) (page : Page)
| EWarn (message : string)
| EPush (url : string) (batch : list obj)
| EInsert (params : list value).

(** What a run cannot decide: the clock, the files it only reads and the
    answers of the two remote systems and of the database.

    - [clock t] is the [t]-th [new Date().toISOString()] of the run
      (the readings of the file logger are not counted);
    - [sugar_http] is one authenticated POST to the Source, [Throws] for
      a missing environment variable, a refused login, a network fault
      or a response that is not 2xx;
    - [portal_http] is one authenticated POST to the Destination, its
      answer the JSON value of the response body, and [Throws] for a
      refused login, a network fault, a response that is not 2xx or a
      body that is no JSON;
    - [pool] is the creation of the connection pool and [db] one
      [INSERT ... RETURNING id, log_date] on it. *)
Record Env : Type := {
  clock : nat -> string;
  config : Transformer.config_file;
  sugar_http : string -> RequestBody -> result Page;
  portal_base_url : string;
  portal_http : string -> list obj -> result value;
  pool : result unit;
  db : list value -> result (list obj)
}.

(** What a run changes: the position of the clock, the checkpoint file
    ([None]: the file does not exist), the rows of [integration_logs]
    and the calls made so far.  A checkpoint file that exists can be
    read, and writing it succeeds. *)
Record World : Type := {
  tick : nat;
  sync_file : option SyncData;
  ledger : list (list value);
  trace : list event
}.

Definition M (A : Type) : Type := World -> outcome A * World.

Definition ret {A : Type} (a : A) : M A := λ w, (Ok a, w).

Definition throw {A : Type} (message : string) : M A := λ w, (Throw message, w).

Definition bind {A B : Type} (m : M A) (k : A -> M B) : M B :=
  λ w, match m w with
       | (Ok a, w') => k a w'
       | (Throw e, w') => (Throw e, w')
       | (OutOfFuel, w') => (OutOfFuel, w')
       end.

(** [try { m } catch (error) { handler(error.message) }] *)
Definition try_catch {A : Type} (m : M A) (handler : string -> M A) : M A :=
  λ w, match m w with
       | (Throw e, w') => handler e w'
       | r => r
       end.

Definition out_of_fuel {A : Type} : M A := λ w, (OutOfFuel, w).

(** A function that touches nothing of the world. *)
Definition lift {A : Type} (r : result A) : M A :=
  match r with
  | Returns a => ret a
  | Throws message => throw message
  end.

Declare Scope run_scope.
Delimit Scope run_scope with run.
Notation "x <- m ;; k" := (bind m (λ x, k))
  (at level 100, m at next level, right associativity) : run_scope.
Notation "m ;;; k" := (bind m (λ _, k))
  (at level 100, right associativity) : run_scope.

(** [new Date().toISOString()] *)
Definition now (E : Env) : M string :=
  λ w, (Ok (clock E (tick w)),
        {| tick := S (tick w); sync_file := sync_file w;
           ledger := ledger w; trace := trace w |}).

Definition emit (e : event) : M unit :=
  λ w, (Ok tt,
        {| tick := tick w; sync_file := sync_file w;
           ledger := ledger w; trace := push (trace w) e |}).

Definition read_sync_file : M (option SyncData) := λ w, (Ok (sync_file w), w).

Definition write_sync_file (d : SyncData) : M unit :=
  λ w, (Ok tt,
        {| tick := tick w; sync_file := Some d;
           ledger := ledger w; trace := trace w |}).

Definition insert_row (params : list value) : M unit :=
  λ w, (Ok tt,
        {| tick := tick w; sync_file := sync_file w;
           ledger := push (ledger w) params; trace := trace w |}).

End Runtime.

(* ===================================================================== *)
(** * utils/syncTracker.js                                                *)
(* ===================================================================== *)

Module SyncTracker.
Import Js Runtime.
Local Open Scope run_scope.

(** A file holds text: what is written with [JSON.stringify] and read
    back with [JSON.parse] has lost every property holding [undefined].
    The file content is kept as the document its text parses to, and
    both directions normalise. *)
Definition jsonify_obj (o : obj) : obj :=
  jsonify <$> filter (λ kv, is_undef kv.2 = false) o.

Definition jsonify_data (d : SyncData) : SyncData :=
  {| sync_records := jsonify_obj <$> sync_records d;
     metadata := jsonify (metadata d) |}.

(** An absent file reads as an empty document stamped with the current
    time. *)
Definition loadSyncData (E : Env) : M SyncData :=
  file <- read_sync_file ;;
  match file with
  | Some d => ret (jsonify_data d)
  | None =>
      created_at <- now E ;;
      ret {| sync_records := [];
             metadata := VObj [("created_at", VStr created_at);
                               ("version", VStr "1.0.0");
                               ("description",
                                VStr "Integration sync tracking for NCDEX scheduler utility")] |}
  end.

Definition saveSyncData (syncData : SyncData) : M unit :=
  write_sync_file (jsonify_data syncData).

(** [record.module_name === identifier || record.integration_name === identifier] *)
Definition resolves (identifier : string) (record : obj) : bool :=
  is_str (get record "module_name") identifier
  || is_str (get record "integration_name") identifier.

(** [records.findIndex(resolves identifier)], [None] for [-1]. *)
Fixpoint findIndex (identifier : string) (l : list obj) : option nat :=
  match l with
  | [] => None
  | record :: rest =>
      if resolves identifier record then Some O
      else S <$> findIndex identifier rest
  end.

(** The record found, or [None] for [null]. *)
Definition getSyncRecord (E : Env) (identifier : string) : M (option obj) :=
  syncData <- loadSyncData E ;;
  ret (List.find (resolves identifier) (sync_records syncData)).

(** [{ ...record, ...updateData, updated_at: now,
       last_sync_at: updateData.last_sync_at || record.last_sync_at }] *)
Definition merged (record updateData : obj) (now : string) : obj :=
  <["last_sync_at" := or_else (get updateData "last_sync_at") (get record "last_sync_at")]>
    (<["updated_at" := VStr now]> (updateData ∪ record)).

Definition updateSyncRecord (E : Env) (identifier : string) (updateData : obj)
  : M obj :=
  syncData <- loadSyncData E ;;
  match findIndex identifier (sync_records syncData) with
  | None => throw ("Sync record not found for identifier: " ++ identifier)
  | Some recordIndex =>
      now <- now E ;;
      let record := default ∅ (sync_records syncData !! recordIndex) in
      let updated := merged record updateData now in
      saveSyncData {| sync_records := <[recordIndex := updated]> (sync_records syncData);
                      metadata := metadata syncData |} ;;;
      ret updated
  end.

(** [{ ...record, status: 'pending', last_sync_at: null, updated_at: now }] *)
Definition reset (now : string) (record : obj) : obj :=
  <["updated_at" := VStr now]>
    (<["last_sync_at" := VNull]> (<["status" := VStr "pending"]> record)).

Definition resetAllSyncRecords (E : Env) : M unit :=
  syncData <- loadSyncData E ;;
  now <- now E ;;
  saveSyncData {| sync_records := reset now <$> sync_records syncData;
                  metadata := metadata syncData |}.


(** [a === b] between a value read from the parsed file and a value of
    the caller: an object or an array of the file is another reference
    than any the caller holds, so only primitives can be equal. *)
Definition strict_eq (a b : value) : bool :=
  match a, b with
  | VUndef, VUndef | VNull, VNull => true
  | VBool x, VBool y => Bool.eqb x y
  | VNum x, VNum y => (x =? y)%Z
  | VStr x, VStr y => String.eqb x y
  | _, _ => false
  end.

(** [record.module_name === recordData.module_name ||
     record.integration_name === recordData.integration_name] *)
Definition collides (recordData record : obj) : bool :=
  strict_eq (get record "module_name") (get recordData "module_name")
  || strict_eq (get record "integration_name") (get recordData "integration_name").

Definition newRecord (recordData : obj) (now : string) : obj :=
  <["module_name" := get recordData "module_name"]>
    (<["integration_name" := get recordData "integration_name"]>
      (<["direction" := get recordData "direction"]>
        (<["endpoint" := or_else (get recordData "endpoint") VNull]>
          (<["last_sync_at" := VNull]>
            (<["updated_at" := VStr now]>
              {["status" := or_else (get recordData "status") (VStr "pending")]}))))).

(** The time is read before the check for an existing record. *)
Definition createSyncRecord (E : Env) (recordData : obj) : M obj :=
  syncData <- loadSyncData E ;;
  now <- now E ;;
  if existsb (collides recordData) (sync_records syncData) then
    throw ("Sync record already exists for module: "
           ++ toString (get recordData "module_name") ++ " or integration: "
           ++ toString (get recordData "integration_name"))
  else
    saveSyncData {| sync_records := push (sync_records syncData) (newRecord recordData now);
                    metadata := metadata syncData |} ;;;
    ret (newRecord recordData now).

Definition getAllSyncRecords (E : Env) : M (list obj) :=
  syncData <- loadSyncData E ;;
  ret (sync_records syncData).

Definition getSyncRecordsByStatus (E : Env) (status : string) : M (list obj) :=
  syncData <- loadSyncData E ;;
  ret (List.filter (λ record, is_str (get record "status") status) (sync_records syncData)).

Definition getSyncRecordsByDirection (E : Env) (direction : string) : M (list obj) :=
  syncData <- loadSyncData E ;;
  ret (List.filter (λ record, is_str (get record "direction") direction)
         (sync_records syncData)).

(** [syncData.sync_records.splice(recordIndex, 1)] *)
Definition deleteSyncRecord (E : Env) (identifier : string) : M unit :=
  syncData <- loadSyncData E ;;
  match findIndex identifier (sync_records syncData) with
  | None => throw ("Sync record not found for identifier: " ++ identifier)
  | Some recordIndex =>
      saveSyncData {| sync_records := delete recordIndex (sync_records syncData);
                      metadata := metadata syncData |}
  end.

(** A JavaScript number as far as [getTime] and [Math.max] need it. *)
Inductive number : Type :=
| NaN
| Num (n : Z).

(** [Math.max(...l)] for an [l] that is not empty; the fold starts from
    the first item. *)
Definition max2 (a b : number) : number :=
  match a, b with
  | Num x, Num y => Num (Z.max x y)
  | _, _ => NaN
  end.

Definition Math_max (first : number) (rest : list number) : number :=
  fold_left max2 rest first.

Record Statistics : Type := {
  total_records : nat;
  by_status_success : nat;
  by_status_failed : nat;
  by_status_pending : nat;
  by_direction_inbound : nat;
  by_direction_outbound : nat;
  last_updated : option number
}.

Definition count (field wanted : string) (records : list obj) : nat :=
  length (List.filter (λ r, is_str (get r field) wanted) records).

(** [getTime v] stands for [new Date(v).getTime()], which the run cannot
    decide for a string; [last_updated] is [None] for [null]. *)
Definition getSyncStatistics (E : Env) (getTime : value -> number) : M Statistics :=
  syncData <- loadSyncData E ;;
  let records := sync_records syncData in
  let times := (λ r, getTime (or_else (get r "updated_at") (VNum 0))) <$> records in
  ret {| total_records := length records;
         by_status_success := count "status" "success" records;
         by_status_failed := count "status" "failed" records;
         by_status_pending := count "status" "pending" records;
         by_direction_inbound := count "direction" "inbound" records;
         by_direction_outbound := count "direction" "outbound" records;
         last_updated := match times with
                         | [] => None
                         | first :: rest => Some (Math_max first rest)
                         end |}.

End SyncTracker.

(* ===================================================================== *)
(** * utils/sugarCRM.js                                                   *)
(* ===================================================================== *)

Module SugarCRM.
Import Js Runtime.
Local Open Scope run_scope.

(** [fields] is an array or a comma-separated string. *)
Inductive FieldsArg : Type :=
| FieldArray (l : list string)
| FieldString (s : string).

(** The options bag of [sugarCRMPost]; [None] is an option left out, and
    a module name left out is the empty string. *)
Record QueryConfig : Type := {
  module : string;
  filters : option (list Filter);
  fields : option FieldsArg;
  maxResults : option Z;
  offset : option Z;
  orderBy : option string;
  orderDirection : option string
}.

(** [{ ...config, offset }] *)
Definition with_offset (config : QueryConfig) (o : Z) : QueryConfig :=
  {| module := module config; filters := filters config;
     fields := fields config; maxResults := maxResults config;
     offset := Some o; orderBy := orderBy config;
     orderDirection := orderDirection config |}.

Record Response : Type := {
  response_module : string;
  request : RequestBody;
  timestamp : string;
  response_data : Page
}.

(** [s.split(',')] *)
Fixpoint split_commas (current : string) (s : string) : list string :=
  match s with
  | EmptyString => [current]
  | String c r =>
      if Ascii.eqb c "," then current :: split_commas EmptyString r
      else split_commas (current ++ String c EmptyString) r
  end.

Definition requestBody (config : QueryConfig) : RequestBody :=
  {| rb_fields :=
       match default (FieldArray ["id"; "name"; "date_modified"]) (fields config) with
       | FieldArray l => l
       | FieldString s => split_commas EmptyString s
       end;
     max_num := default 20 (maxResults config);
     rb_offset := default 0 (offset config);
     order_by := default "date_modified" (orderBy config);
     order_direction := default "desc" (orderDirection config);
     rb_filter :=
       match filters config with
       | Some (f :: l) => Some (f :: l)
       | _ => None
       end |}.

Definition sugarCRMPost (E : Env) (config : QueryConfig) : M Response :=
  if String.eqb (module config) "" then throw "Module name is required"
  else
    let body := requestBody config in
    try_catch
      (emit (EQuery (module config) body) ;;;
       data <- lift (sugar_http E (module config) body) ;;
       timestamp <- now E ;;
       ret {| response_module := module config; request := body;
              timestamp := timestamp; response_data := data |})
      (λ message,
         throw ("SugarCRM API call failed for module '" ++ module config ++ "': "
                ++ message)).

Record FetchResult : Type := {
  fetched_records : list obj;
  total_fetched : Z;
  fetched_module : string;
  fetched_timestamp : string
}.

(** The caller's per-page function: it returns or it throws. *)
Abbreviation page_callback := (list obj -> Response -> result unit).

Definition too_many : string :=
  "Fetched more than 10,000 records, stopping pagination".

(** The [while (hasMore)] loop, entered with [hasMore] true.  [fuel]
    bounds the number of pages: the Source decides how long the loop
    runs. *)
Fixpoint fetchLoop (fuel : nat) (E : Env) (pageConfig : QueryConfig)
    (onPage : option page_callback) (offset : Z) (allRecords : list obj)
    (totalFetched : Z) : M (list obj * Z) :=
  match fuel with
  | O => out_of_fuel
  | S fuel' =>
      step <-
        try_catch
          (response <- sugarCRMPost E (with_offset pageConfig offset) ;;
           let records := records (response_data response) in
           let allRecords := (allRecords ++ records)%list in
           let totalFetched := totalFetched + Z.of_nat (length records) in
           let hasMore := has_more (response_data response) in
           let offset := next_offset (response_data response) in
           match onPage with
           | Some callback =>
               emit (EPageCallback records (response_data response)) ;;;
               lift (callback records response)
           | None => ret tt
           end ;;;
           if 10000 <? totalFetched then
             emit (EWarn too_many) ;;;
             ret (false, offset, allRecords, totalFetched)
           else ret (hasMore, offset, allRecords, totalFetched))
          (λ message, throw message) ;;
      let '(continue, offset, allRecords, totalFetched) := step in
      if continue : bool
      then fetchLoop fuel' E pageConfig onPage offset allRecords totalFetched
      else ret (allRecords, totalFetched)
  end.

Definition fetchAllRecords (fuel : nat) (E : Env) (config : QueryConfig)
    (onPage : option page_callback) : M FetchResult :=
  loop <- fetchLoop fuel E config onPage 0 [] 0 ;;
  timestamp <- now E ;;
  ret {| fetched_records := loop.1; total_fetched := loop.2;
         fetched_module := module config; fetched_timestamp := timestamp |}.


(** ** Relationship data

    [fetchRelationshipData] sends a GET to
    [<module>/<recordId>/link/<linkName>]; its query string is built
    with [URLSearchParams.append], modelled as the list of the appended
    (name, value) pairs in order. *)

Record LinkOptions : Type := {
  link_fields : option (list string);
  link_filters : option (list Filter);
  link_maxResults : option Z;
  link_offset : option Z;
  link_orderBy : option string;
  link_orderDirection : option string
}.

Record LinkRequest : Type := {
  link_module : string;
  link_recordId : string;
  link_linkName : string;
  link_params : list (string * string)
}.

(** [{ success: true, data, ..., total_records, timestamp }];
    [link_records] is [data.records], [None] when it is missing. *)
Record LinkResponse : Type := {
  link_records : option (list obj);
  link_total_records : nat;
  link_timestamp : string
}.

(** One authenticated GET: [Throws] for a missing environment variable,
    a refused login, a network fault or a response that is not 2xx. *)
Abbreviation link_http := (LinkRequest -> result (option (list obj))).

(** The parameters of the filters: [index] is the position of the first
    of [l]. *)
Fixpoint filter_params (index : nat) (l : list Filter) : list (string * string) :=
  match l with
  | [] => []
  | f :: rest =>
      ("filter[" ++ pretty (Z.of_nat index) ++ "][" ++ filter_field f ++ "]["
       ++ filter_operator f ++ "]", toString (filter_operand f))
      :: filter_params (S index) rest
  end.

(** [fields.join(',')] *)
Fixpoint join_fields (l : list string) : string :=
  match l with
  | [] => EmptyString
  | [x] => x
  | x :: r => x ++ "," ++ join_fields r
  end.

Definition queryParams (options : LinkOptions) : list (string * string) :=
  let fields := default ["id"; "name"; "date_modified"] (link_fields options) in
  let filters := default [] (link_filters options) in
  let maxResults := default 20 (link_maxResults options) in
  let offset := default 0 (link_offset options) in
  let orderBy := default "date_modified" (link_orderBy options) in
  let orderDirection := default "desc" (link_orderDirection options) in
  let order := orderBy ++ ":" ++ orderDirection in
  List.concat
    [ match fields with
      | [] => []
      | _ => [("fields", join_fields fields)]
      end;
      filter_params 0 filters;
      if maxResults =? 0 then [] else [("max_num", pretty maxResults)];
      if offset =? 0 then [] else [("offset", pretty offset)];
      if String.eqb orderBy "" then [] else [("order_by", order)] ].

Definition fetchRelationshipData (E : Env) (http : link_http)
    (module recordId linkName : string) (options : LinkOptions) : M LinkResponse :=
  try_catch
    (if String.eqb module "" || String.eqb recordId "" || String.eqb linkName ""
     then throw "Module, recordId, and linkName are required parameters"
     else
       data <- lift (http {| link_module := module; link_recordId := recordId;
                             link_linkName := linkName;
                             link_params := queryParams options |}) ;;
       timestamp <- now E ;;
       ret {| link_records := data;
              link_total_records := match data with
                                    | Some records => length records
                                    | None => 0%nat
                                    end;
              link_timestamp := timestamp |})
    (λ message, throw message).

(** [{ ...options, maxResults, offset }] *)
Definition link_page (options : LinkOptions) (maxResults offset : Z) : LinkOptions :=
  {| link_fields := link_fields options; link_filters := link_filters options;
     link_maxResults := Some maxResults; link_offset := Some offset;
     link_orderBy := link_orderBy options;
     link_orderDirection := link_orderDirection options |}.

Abbreviation link_callback := (list obj -> LinkResponse -> result unit).

Definition too_many_links : string :=
  "Fetched more than 10,000 relationship records, stopping pagination".

(** The [while (hasMore)] loop of [fetchAllRelationshipRecords]: a page
    is the last one when it holds another number of records than
    [maxResults], and the next page is asked for [maxResults] further
    on. *)
Fixpoint linkLoop (fuel : nat) (E : Env) (http : link_http)
    (module recordId linkName : string) (options : LinkOptions) (maxResults : Z)
    (onPage : option link_callback) (offset : Z) (allRecords : list obj)
    (totalFetched : Z) : M (list obj * Z) :=
  match fuel with
  | O => out_of_fuel
  | S fuel' =>
      step <-
        try_catch
          (response <- fetchRelationshipData E http module recordId linkName
                         (link_page options maxResults offset) ;;
           let records := default [] (link_records response) in
           let allRecords := (allRecords ++ records)%list in
           let totalFetched := totalFetched + Z.of_nat (length records) in
           let hasMore := Z.of_nat (length records) =? maxResults in
           let offset := offset + maxResults in
           match onPage with
           | Some callback => lift (callback records response)
           | None => ret tt
           end ;;;
           if 10000 <? totalFetched then
             emit (EWarn too_many_links) ;;;
             ret (false, offset, allRecords, totalFetched)
           else ret (hasMore, offset, allRecords, totalFetched))
          (λ message, throw message) ;;
      let '(continue, offset, allRecords, totalFetched) := step in
      if continue : bool
      then linkLoop fuel' E http module recordId linkName options maxResults onPage
             offset allRecords totalFetched
      else ret (allRecords, totalFetched)
  end.

Record LinkResult : Type := {
  linked_records : list obj;
  linked_total_fetched : Z;
  linked_timestamp : string
}.

(** [options.maxResults || 20] *)
Definition page_size (options : LinkOptions) : Z :=
  match link_maxResults options with
  | Some n => if n =? 0 then 20 else n
  | None => 20
  end.

Definition fetchAllRelationshipRecords (fuel : nat) (E : Env) (http : link_http)
    (module recordId linkName : string) (options : LinkOptions)
    (onPage : option link_callback) : M LinkResult :=
  loop <- linkLoop fuel E http module recordId linkName options (page_size options)
            onPage 0 [] 0 ;;
  timestamp <- now E ;;
  ret {| linked_records := loop.1; linked_total_fetched := loop.2;
         linked_timestamp := timestamp |}.

(** ** The small helpers *)

(** [createDateFilter(field, operator, value)]; a parameter left out is
    [None]. *)
Definition createDateFilter (field operator : option string) (value : value)
  : result Filter :=
  if falsy value then Throws "Date value is required for date filter"
  else Returns {| filter_field := default "date_modified" field;
                  filter_operator := default "$gte" operator;
                  filter_operand := value |}.

Definition createTextFilter (field : option string) (operator : option string)
    (value : value) : result Filter :=
  match field with
  | Some f =>
      if String.eqb f "" || falsy value
      then Throws "Field and value are required for text filter"
      else Returns {| filter_field := f; filter_operator := default "$eq" operator;
                      filter_operand := value |}
  | None => Throws "Field and value are required for text filter"
  end.

Definition getDefaultFields (module : string) : list string :=
  if String.eqb module "Accounts"
  then ["id"; "name"; "tm_id_c"; "status_c"; "membership_category_c"; "gstno_c";
        "date_modified"]
  else ["id"; "name"; "date_modified"].

End SugarCRM.

(* ===================================================================== *)
(** * utils/database.js and utils/integrationLogger.js                    *)
(* ===================================================================== *)

Module IntegrationLogger.
Import Js Runtime.
Local Open Scope run_scope.

(** What [query] of [utils/database.js] returns. *)
Record QueryResult : Type := {
  query_success : bool;
  rows : list obj;
  query_error : option string
}.

(** [getPool] is called outside the [try]: a pool that cannot be
    created makes [query] throw; a statement that fails is reported in
    the result. *)
Definition query (E : Env) (params : list value) : M QueryResult :=
  lift (pool E) ;;;
  emit (EInsert params) ;;;
  match db E params with
  | Returns inserted =>
      insert_row params ;;;
      ret {| query_success := true; rows := inserted; query_error := None |}
  | Throws message =>
      ret {| query_success := false; rows := []; query_error := Some message |}
  end.

(** [{ success: true, logId, logDate, message }] or
    [{ success: false, error }]. *)
Inductive LogResult : Type :=
| LogSaved (logId logDate : value)
| LogFailed (error : string).

Definition success (r : LogResult) : bool :=
  match r with LogSaved _ _ => true | LogFailed _ => false end.

Definition formatForUUID (v : value) : value :=
  if falsy v then VNull
  else if uuidRegex (toString v) then v
  else VNull.

(** A destructured property with default [null]. *)
Definition or_null (logData : obj) (k : string) : value :=
  match get logData k with
  | VUndef => VNull
  | v => v
  end.

Definition missing_fields : string :=
  "Missing required fields: log_type, module_name, and message are required".

Definition params_of (logData : obj) : list value :=
  [ get logData "log_type";
    get logData "module_name";
    formatForUUID (or_null logData "sugar_id");
    formatForUUID (or_null logData "portal_id");
    or_null logData "http_status";
    or_null logData "internal_status";
    get logData "message" ].

Definition logIntegration (E : Env) (logData : obj) : M LogResult :=
  if falsy (get logData "log_type") || falsy (get logData "module_name")
     || falsy (get logData "message")
  then ret (LogFailed missing_fields)
  else
    try_catch
      (result <- query E (params_of logData) ;;
       match query_success result, rows result with
       | true, logEntry :: _ =>
           ret (LogSaved (get logEntry "id") (get logEntry "log_date"))
       | _, _ =>
           throw (match query_error result with
                  | Some message =>
                      if String.eqb message "" then "Failed to insert integration log"
                      else message
                  | None => "Failed to insert integration log"
                  end)
       end)
      (λ message, ret (LogFailed message)).

End IntegrationLogger.

(* ===================================================================== *)
(** * utils/portalAPI.js                                                  *)
(* ===================================================================== *)

Module PortalAPI.
Import Js Runtime.
Local Open Scope run_scope.

(** [{ success, data, status }] or [{ success: false, error, status }];
    [reply_data] is what the Destination answered with, [undefined] in
    a reply that has no [data]. *)
Record PortalReply : Type := {
  reply_success : bool;
  reply_data : value;
  reply_error : string
}.

Definition combinedMessage (result : obj) : value :=
  if truthy (get result "validationErrors")
  then VStr (toString (get result "message") ++ " | Validation Errors: "
             ++ stringify (get result "validationErrors"))
  else get result "message".

(** The ledger entry written for one element of the response. *)
Definition entry_of (result : obj) : obj :=
  list_to_map
    [ ("log_type", get result "logType");
      ("module_name", get result "moduleName");
      ("sugar_id", get result "sugarId");
      ("portal_id", get result "portalId");
      ("http_status", get result "httpStatus");
      ("internal_status", get result "internalStatus");
      ("message", combinedMessage result) ].

(** The [for] loop over the elements of the response: the first
    property read of an element is [result.validationErrors], a
    [TypeError] when the element is [null]. *)
Fixpoint logResults (E : Env) (results : list value) : M unit :=
  match results with
  | [] => ret tt
  | result :: rest =>
      if nullish result then throw (cannot_read result "validationErrors")
      else
        IntegrationLogger.logIntegration E (entry_of (properties result)) ;;;
        logResults E rest
  end.

Definition callPortalAPI (E : Env) (portalUrl : string) (data : list obj)
    (moduleName : string) : M PortalReply :=
  try_catch
    (emit (EPush portalUrl data) ;;;
     responseData <- lift (portal_http E portalUrl data) ;;
     match responseData with
     | VArr results => logResults E results
     | _ => ret tt
     end ;;;
     ret {| reply_success := true; reply_data := responseData;
            reply_error := EmptyString |})
    (λ message,
       IntegrationLogger.logIntegration E
         (list_to_map
            [ ("log_type", VStr "Error");
              ("module_name", VStr moduleName);
              ("http_status", VNum 0);
              ("internal_status", VStr "Failed");
              ("message", VStr ("Portal API call failed: " ++ message)) ]) ;;;
       ret {| reply_success := false; reply_data := VUndef;
              reply_error := message |}).

Definition starts_with_slash (s : string) : bool :=
  match s with
  | String "/" _ => true
  | _ => false
  end.

Definition callPortalAPIWithEnv (E : Env) (endpoint : string) (data : list obj)
    (moduleName : string) : M PortalReply :=
  let portalUrl :=
    portal_base_url E ++ (if starts_with_slash endpoint then EmptyString else "/")
    ++ endpoint in
  callPortalAPI E portalUrl data moduleName.


Definition callPortalAPIWithBaseUrl (E : Env) (baseUrl endpoint : string)
    (data : list obj) (moduleName : string) : M PortalReply :=
  callPortalAPI E
    (baseUrl ++ (if starts_with_slash endpoint then EmptyString else "/") ++ endpoint)
    data moduleName.

Definition getPortalAPIUrl (E : Env) (endpoint : string) : string :=
  portal_base_url E ++ (if starts_with_slash endpoint then EmptyString else "/")
  ++ endpoint.

(** ** [validatePortalResponse] *)

Definition requiredFields : list string :=
  ["logType"; "moduleName"; "sugarId"; "httpStatus"; "internalStatus"; "message"].

(** [requiredFields.filter(field => !(field in record))].  None of the
    six names is a property of [Object.prototype] or [Array.prototype],
    so an array has none of them and an object those of its own keys;
    [in] applied to a value that is not an object is a [TypeError]. *)
Definition missingFields (record : value) : result (list string) :=
  match record with
  | VObj fs =>
      Returns (List.filter (λ field, negb (existsb (String.eqb field) fs.*1)) requiredFields)
  | VArr _ => Returns requiredFields
  | v =>
      Throws ("Cannot use 'in' operator to search for 'logType' in " ++ toString v)
  end.

(** The [forEach]: [index] is the position of the first of [records]. *)
Fixpoint invalidRecords (index : nat) (records : list value)
  : result (list (nat * list string)) :=
  match records with
  | [] => Returns []
  | record :: rest =>
      match missingFields record with
      | Throws e => Throws e
      | Returns missing =>
          match invalidRecords (S index) rest with
          | Throws e => Throws e
          | Returns found =>
              Returns (match missing with
                       | [] => found
                       | _ => (index, missing) :: found
                       end)
          end
      end
  end.

(** [l.join(', ')] *)
Fixpoint join_indices (l : list nat) : string :=
  match l with
  | [] => EmptyString
  | [i] => pretty (Z.of_nat i)
  | i :: r => pretty (Z.of_nat i) ++ ", " ++ join_indices r
  end.

(** [{ valid: true, recordCount }] or [{ valid: false, error }], the
    latter with [invalidRecords] when the response is an array. *)
Inductive Validation : Type :=
| Valid (recordCount : nat)
| Invalid (error : string) (records : option (list (nat * list string))).

Definition validatePortalResponse (responseData : value) : result Validation :=
  match responseData with
  | VArr records =>
      match invalidRecords 0 records with
      | Throws e => Throws e
      | Returns [] => Returns (Valid (length records))
      | Returns found =>
          Returns (Invalid ("Invalid response format in records: "
                            ++ join_indices found.*1) (Some found))
      end
  | _ => Returns (Invalid "Response data is not an array" None)
  end.

End PortalAPI.

(* ===================================================================== *)
(** * tasks/*.js: the four sync tasks                                     *)
(* ===================================================================== *)

Module Tasks.
Import Js Runtime.
Local Open Scope run_scope.

(** [transformSugarcrmToPortal] run against the world's clock. *)
Definition transform (E : Env) (record : obj) (mappingType : string)
  : M Transformer.TransformationResult :=
  λ w,
    let '(r, t) :=
      Transformer.transformSugarcrmToPortal (config E) (clock E) (tick w)
        record mappingType in
    lift r {| tick := t; sync_file := sync_file w;
              ledger := ledger w; trace := trace w |}.

(** The loop shared by the four [processRecordsFor...] functions: each
    record is transformed inside its own [try]; [shape] builds the
    processed record from the transformed data and [fallback] the
    record pushed by the [catch]. *)
Fixpoint processRecords (E : Env) (mappingType : string) (shape fallback : obj -> obj)
    (records : list obj) (processedRecords : list obj) : M (list obj) :=
  match records with
  | [] => ret processedRecords
  | record :: rest =>
      processed <-
        try_catch
          (transformation <- transform E record mappingType ;;
           ret (shape (Transformer.data transformation)))
          (λ _, ret (fallback record)) ;;
      processRecords E mappingType shape fallback rest
        (push processedRecords processed)
  end.

(** [data.k || null] *)
Definition or_null (data : obj) (k : string) : value := or_else (get data k) VNull.

(** *** Members *)

Definition member_shape (data : obj) : obj :=
  list_to_map
    [ ("tm_id_c", or_null data "tm_id_c");
      ("member_name", or_null data "member_name");
      ("status_c", or_null data "status_c");
      ("membership_category_c", or_null data "membership_category_c");
      ("sugarcrm_id", or_null data "sugarcrm_id") ].

Definition member_fallback (record : obj) : obj :=
  list_to_map
    [ ("tm_id_c", VNull);
      ("member_name", or_null record "name");
      ("status_c", VNull);
      ("membership_category_c", VNull);
      ("sugarcrm_id", or_null record "id") ].

Definition processRecordsForPortalMembers (E : Env) (records : list obj)
  : M (list obj) :=
  processRecords E "sugarcrm_to_portal_members" member_shape member_fallback
    records [].

(** *** Cases *)

Definition case_shape (data : obj) : obj :=
  list_to_map
    (map (λ k, (k, or_null data k))
       [ "case_id"; "name"; "case_number"; "member_id"; "type"; "sub_type";
         "audit_details"; "audit_due_date"; "from_period"; "to_period";
         "audit_user_id"; "margin"; "stage"; "comment"; "rejection_type" ]).

Definition case_fallback (record : obj) : obj :=
  list_to_map
    (("case_id", or_null record "id") :: ("name", or_null record "name")
     :: map (λ k, (k, VNull))
          [ "case_number"; "member_id"; "type"; "sub_type"; "audit_details";
            "audit_due_date"; "from_period"; "to_period"; "audit_user_id";
            "margin"; "stage"; "comment"; "rejection_type" ]).

Definition processRecordsForPortalCases (E : Env) (records : list obj)
  : M (list obj) :=
  processRecords E "sugarcrm_to_portal_cases" case_shape case_fallback records [].

(** *** Compliance officers *)

Definition user_shape (data : obj) : obj :=
  list_to_map
    [ ("co_sugar_id", or_null data "co_sugar_id");
      ("co_name", or_null data "co_name");
      ("member_crm_id", or_null data "member_crm_id");
      ("mobileno", or_null data "mobileno");
      ("email", or_null data "email") ].

Definition user_fallback (record : obj) : obj :=
  list_to_map
    [ ("co_sugar_id", or_null record "id");
      ("co_name", or_null record "name");
      ("member_crm_id", VNull);
      ("mobileno", VNull);
      ("email", VNull) ].

Definition processRecordsForPortalUsers (E : Env) (records : list obj)
  : M (list obj) :=
  processRecords E "sugarcrm_to_portal_users" user_shape user_fallback records [].

(** *** Auditors *)

Definition auditor_shape (data : obj) : obj :=
  list_to_map
    [ ("sugarcrm_id", get data "sugarcrm_id");
      ("name", get data "name");
      ("auditor_user_id_c", get data "auditor_user_id_c");
      ("email_id_c", get data "email_id_c");
      ("registration_no_c", get data "registration_no_c") ].

Definition auditor_fallback (record : obj) : obj :=
  list_to_map
    [ ("sugarcrm_id", get record "id");
      ("name", or_else (get record "name") (VStr "Unknown"));
      ("auditor_user_id_c", or_null record "auditor_user_id_c");
      ("email_id_c", or_null record "email_id_c");
      ("registration_no_c", or_null record "registration_no_c") ].

Definition processRecordsForPortalAuditors (E : Env) (records : list obj)
  : M (list obj) :=
  processRecords E "sugarcrm_to_portal_auditors" auditor_shape auditor_fallback
    records [].

(** ** Pushing a batch *)

(** [syncToPortalCases] and [syncToPortalUsers]: the result is
    [response.data || []], and a failure is reported as
    ["Portal API call failed: ..."]. *)
Definition syncToPortalWithPrefix (E : Env) (endpoint moduleName : string)
    (processedRecords : list obj) : M value :=
  match processedRecords with
  | [] => ret (VArr [])
  | _ =>
      try_catch
        (response <- PortalAPI.callPortalAPIWithEnv E endpoint processedRecords
                       moduleName ;;
         if PortalAPI.reply_success response
         then ret (or_else (PortalAPI.reply_data response) (VArr []))
         else throw ("Portal API call failed: " ++ PortalAPI.reply_error response))
        (λ message, throw message)
  end.

(** [syncToPortalMembers] and [syncToPortalAuditors]: the result is
    [syncResult.data] as it is, and the error of a failure is
    [syncResult.error || 'Unknown error from Portal API']. *)
Definition syncToPortalPlain (E : Env) (endpoint moduleName : string)
    (processedRecords : list obj) : M value :=
  match processedRecords with
  | [] => ret (VArr [])
  | _ =>
      try_catch
        (syncResult <- PortalAPI.callPortalAPIWithEnv E endpoint processedRecords
                         moduleName ;;
         if PortalAPI.reply_success syncResult
         then ret (PortalAPI.reply_data syncResult)
         else throw (if String.eqb (PortalAPI.reply_error syncResult) ""
                     then "Unknown error from Portal API"
                     else PortalAPI.reply_error syncResult))
        (λ message, throw message)
  end.

Definition syncToPortalCases (E : Env) : list obj -> M value :=
  syncToPortalWithPrefix E "api/integration/SugarCasesToPortalCases" "Cases".

Definition syncToPortalUsers (E : Env) : list obj -> M value :=
  syncToPortalWithPrefix E "api/integration/SugarComplianceOfficersToPortalUsers"
    "ComplianceOfficers".

Definition syncToPortalMembers (E : Env) : list obj -> M value :=
  syncToPortalPlain E "api/integration/SugarMemberToPortalMember" "Members".

Definition syncToPortalAuditors (E : Env) : list obj -> M value :=
  syncToPortalPlain E "api/integration/SugarAuditorToPortalAuditor" "Auditors".

(** ** Counting the statuses of a response *)

(** The callback that the tasks pass to [forEach] and [reduce] reads
    [internalStatus] of each element, a [TypeError] when the element is
    [null]; the counts it builds are only printed. *)
Fixpoint countStatuses (results : list value) : result unit :=
  match results with
  | [] => Returns tt
  | result :: rest =>
      if nullish result then Throws (cannot_read result "internalStatus")
      else countStatuses rest
  end.

(** [portalResponse.forEach(...)] and [portalResponse.reduce(...)]:
    only an array has the method. *)
Definition eachStatus (method : string) (portalResponse : value) : result unit :=
  match portalResponse with
  | VArr results => countStatuses results
  | _ => Throws ("portalResponse." ++ method ++ " is not a function")
  end.

(** [if (portalResponse && portalResponse.length > 0)
       portalResponse.forEach(...)],
    the summary of the cases and of the compliance-officers task. *)
Definition summarise (portalResponse : value) : result unit :=
  if truthy portalResponse && gt_zero (length_of portalResponse)
  then eachStatus "forEach" portalResponse
  else Returns tt.

(** [portalResponse.length] and [portalResponse.reduce(...)], the
    summary of the members task. *)
Definition summariseMembers (portalResponse : value) : result unit :=
  if nullish portalResponse then Throws (cannot_read portalResponse "length")
  else eachStatus "reduce" portalResponse.

(** [(Array.isArray(portalResponse) ? portalResponse : []).reduce(...)],
    the summary of the auditors task. *)
Definition summariseAuditors (portalResponse : value) : result unit :=
  match portalResponse with
  | VArr results => countStatuses results
  | _ => Returns tt
  end.

(** ** The tasks *)

Definition modified_since (lastSyncDate : value) : Filter :=
  {| filter_field := "date_modified"; filter_operator := "$gte";
     filter_operand := lastSyncDate |}.

(** The page callback of the tasks only prints. *)
Definition print_page : SugarCRM.page_callback := λ _ _, Returns tt.

Definition apiConfig (sugarCRMModule : string) (filters : list Filter)
    (fields : list string) : SugarCRM.QueryConfig :=
  {| SugarCRM.module := sugarCRMModule;
     SugarCRM.filters := Some filters;
     SugarCRM.fields := Some (SugarCRM.FieldArray fields);
     SugarCRM.maxResults := Some 50;
     SugarCRM.offset := None;
     SugarCRM.orderBy := Some "date_modified";
     SugarCRM.orderDirection := Some "desc" |}.

Definition success_update (currentTimestamp : string) (total_fetched : Z)
    (sugarCRMModule : string) (lastSyncDate : value) : obj :=
  list_to_map
    [ ("status", VStr "success");
      ("last_sync_at", VStr currentTimestamp);
      ("metadata",
       VObj [ ("records_fetched", VNum total_fetched);
              ("sugarcrm_module", VStr sugarCRMModule);
              ("sync_duration", VStr currentTimestamp);
              ("last_sync_date_used", lastSyncDate) ]) ].

(** What distinguishes [SugarImportCasesToPortalCases] from
    [SugarCRMCoToPortalUsers]; the two functions are otherwise the same
    text. *)
Record ImportTask : Type := {
  moduleName : string;
  sugarCRMModule : string;
  mappingType : string;
  staticFilters : list Filter;
  processRecordsForPortal : Env -> list obj -> M (list obj);
  syncToPortal : Env -> list obj -> M value
}.

(** The [try] block. *)
Definition import_try (T : ImportTask) (fuel : nat) (E : Env) : M unit :=
  syncRecord <- SyncTracker.getSyncRecord E (moduleName T) ;;
  let lastSyncDate :=
    match syncRecord with
    | Some r => get r "last_sync_at"
    | None => VUndef
    end in
  let filters :=
    ((if truthy lastSyncDate then [modified_since lastSyncDate] else [])
     ++ staticFilters T)%list in
  fields <- lift (Transformer.getSugarcrmFields (config E) (mappingType T)) ;;
  fetchResult <-
    SugarCRM.fetchAllRecords fuel E (apiConfig (sugarCRMModule T) filters fields)
      (Some print_page) ;;
  match SugarCRM.fetched_records fetchResult with
  | [] => ret tt
  | records =>
      processedRecords <- processRecordsForPortal T E records ;;
      portalResponse <- syncToPortal T E processedRecords ;;
      lift (summarise portalResponse)
  end ;;;
  currentTimestamp <- now E ;;
  SyncTracker.updateSyncRecord E (moduleName T)
    (success_update currentTimestamp (SugarCRM.total_fetched fetchResult)
       (sugarCRMModule T) lastSyncDate) ;;;
  ret tt.

(** The [catch] block: it stamps the checkpoint with the time of the
    failure and throws the error again. *)
Definition import_catch (T : ImportTask) (E : Env) (message : string) : M unit :=
  currentTimestamp <- now E ;;
  SyncTracker.updateSyncRecord E (moduleName T)
    (list_to_map
       [ ("status", VStr "failed");
         ("last_sync_at", VStr currentTimestamp);
         ("metadata",
          VObj [ ("error_message", VStr message);
                 ("failed_at", VStr currentTimestamp);
                 ("sugarcrm_module", VStr (sugarCRMModule T)) ]) ]) ;;;
  throw message.

Definition runImport (T : ImportTask) (fuel : nat) (E : Env) : M unit :=
  try_catch (import_try T fuel E) (import_catch T E).

Definition Cases : ImportTask :=
  {| moduleName := "Cases"; sugarCRMModule := "Cases";
     mappingType := "sugarcrm_to_portal_cases";
     staticFilters := [];
     processRecordsForPortal := processRecordsForPortalCases;
     syncToPortal := syncToPortalCases |}.

Definition ComplianceOfficers : ImportTask :=
  {| moduleName := "ComplianceOfficers";
     sugarCRMModule := "comp_Compliance_Officers";
     mappingType := "sugarcrm_to_portal_users";
     staticFilters :=
       [ {| filter_field := "status_c"; filter_operator := "$equals";
            filter_operand := VStr "1" |} ];
     processRecordsForPortal := processRecordsForPortalUsers;
     syncToPortal := syncToPortalUsers |}.

Definition SugarImportCasesToPortalCases : nat -> Env -> M unit := runImport Cases.

Definition SugarCRMCoToPortalUsers : nat -> Env -> M unit :=
  runImport ComplianceOfficers.

Definition member_filters : list Filter :=
  [ {| filter_field := "tm_id_c"; filter_operator := "$not_null";
       filter_operand := VStr "" |};
    {| filter_field := "tm_id_c"; filter_operator := "$not_equals";
       filter_operand := VStr "0" |};
    {| filter_field := "acc_type_c"; filter_operator := "$equals";
       filter_operand := VStr "Member" |} ].

(** The time stamp is taken once, before the [try].  The object literal
    logged after the records are processed names two variables that are
    declared nowhere in the module: evaluating it raises a
    [ReferenceError], so a run that fetched records never reaches the
    push. *)
Definition members_try (fuel : nat) (E : Env) (currentTimestamp : string) : M unit :=
  syncRecord <- SyncTracker.getSyncRecord E "Members" ;;
  let lastSyncDate :=
    match syncRecord with
    | Some r => if truthy (get r "last_sync_at") then get r "last_sync_at" else VNull
    | None => VNull
    end in
  let filters :=
    ((if truthy lastSyncDate then [modified_since lastSyncDate] else [])
     ++ member_filters)%list in
  fields <- lift (Transformer.getSugarcrmFields (config E)
                    "sugarcrm_to_portal_members") ;;
  fetchResult <-
    SugarCRM.fetchAllRecords fuel E (apiConfig "Accounts" filters fields)
      (Some print_page) ;;
  match SugarCRM.fetched_records fetchResult with
  | [] => ret tt
  | records =>
      processedRecords <- processRecordsForPortalMembers E records ;;
      throw (A := unit) "accountsWithOfficers is not defined" ;;;
      portalResponse <- syncToPortalMembers E processedRecords ;;
      lift (summariseMembers portalResponse)
  end ;;;
  SyncTracker.updateSyncRecord E "Members"
    (success_update currentTimestamp (SugarCRM.total_fetched fetchResult)
       "Accounts" lastSyncDate) ;;;
  ret tt.

(** The [catch] block: the update of the checkpoint, which supplies no
    [last_sync_at], has a [try] of its own. *)
Definition members_catch (E : Env) (message : string) : M unit :=
  try_catch
    (failed_at <- now E ;;
     SyncTracker.updateSyncRecord E "Members"
       (list_to_map
          [ ("status", VStr "failed");
            ("metadata",
             VObj [ ("error_message", VStr message);
                    ("failed_at", VStr failed_at);
                    ("sugarcrm_module", VStr "Accounts") ]) ]) ;;;
     ret tt)
    (λ _, ret tt) ;;;
  throw message.

Definition SugarCRMAccountToPortalMember (fuel : nat) (E : Env) : M unit :=
  currentTimestamp <- now E ;;
  try_catch (members_try fuel E currentTimestamp) (members_catch E).

(** [a.join(',')] *)
Fixpoint join_commas (l : list string) : string :=
  match l with
  | [] => EmptyString
  | [x] => x
  | x :: r => x ++ "," ++ join_commas r
  end.

(** A call that is not awaited: whatever it does happens, and what it
    throws is not seen by the caller. *)
Definition detached {A : Type} (m : M A) : M unit :=
  λ w, match m w with
       | (OutOfFuel, w') => (OutOfFuel, w')
       | (_, w') => (Ok tt, w')
       end.

(** The auditor task requires its checkpoint to exist, returns at once
    when nothing was fetched, and writes the checkpoint only after a
    push. *)
Definition sugarAuditorToPortalAuditor (fuel : nat) (E : Env) : M unit :=
  try_catch
    (syncRecord <- SyncTracker.getSyncRecord E "Auditors" ;;
     match syncRecord with
     | None =>
         throw "No sync record found for Auditors module. Please create one first."
     | Some r =>
         let lastSyncDate := get r "last_sync_at" in
         auditorFields <- lift (Transformer.getSugarcrmFields (config E)
                                  "sugarcrm_to_portal_auditors") ;;
         auditorRecords <-
           SugarCRM.fetchAllRecords fuel E
             {| SugarCRM.module := "aud_Auditor";
                SugarCRM.filters := Some [modified_since lastSyncDate];
                SugarCRM.fields :=
                  Some (SugarCRM.FieldString (join_commas auditorFields));
                SugarCRM.maxResults := None;
                SugarCRM.offset := None;
                SugarCRM.orderBy := Some "date_modified:asc";
                SugarCRM.orderDirection := None |}
             None ;;
         match SugarCRM.fetched_records auditorRecords with
         | [] => ret tt
         | records =>
             processedRecords <- processRecordsForPortalAuditors E records ;;
             portalResponse <- syncToPortalAuditors E processedRecords ;;
             lift (summariseAuditors portalResponse) ;;;
             currentTime <- now E ;;
             detached
               (SyncTracker.updateSyncRecord E "Auditors"
                  (list_to_map
                     [ ("last_sync_at", VStr currentTime);
                       ("updated_at", VStr currentTime);
                       ("status", VStr "completed") ]))
         end
     end)
    (λ message, throw message).

(** The entity types that have a sync task, the name of the checkpoint
    of each, the Source module it reads and the task itself. *)
Inductive EntityType : Type :=
| MembersEntity
| CasesEntity
| ComplianceOfficersEntity
| AuditorsEntity.

Definition checkpoint_of (e : EntityType) : string :=
  match e with
  | MembersEntity => "Members"
  | CasesEntity => "Cases"
  | ComplianceOfficersEntity => "ComplianceOfficers"
  | AuditorsEntity => "Auditors"
  end.

Definition source_module_of (e : EntityType) : string :=
  match e with
  | MembersEntity => "Accounts"
  | CasesEntity => "Cases"
  | ComplianceOfficersEntity => "comp_Compliance_Officers"
  | AuditorsEntity => "aud_Auditor"
  end.

Definition sync (e : EntityType) : nat -> Env -> M unit :=
  match e with
  | MembersEntity => SugarCRMAccountToPortalMember
  | CasesEntity => SugarImportCasesToPortalCases
  | ComplianceOfficersEntity => SugarCRMCoToPortalUsers
  | AuditorsEntity => sugarAuditorToPortalAuditor
  end.

End Tasks.

(* ===================================================================== *)
(** * The Source                                                          *)
(* ===================================================================== *)

Module Source.
Import Js Runtime.

(** Modelled from the spec: the Source Client, a remote system of which
    the repository holds no code.  Its [query] takes a list of
    single-field predicates that are implicitly AND-ed, a page size and
    an offset, and answers with [records], [has_more], [next_offset] and
    [total_count].  [$gte] on [date_modified] is the order of ISO-8601
    UTC time stamps, which is the order of their strings; what the other
    operators mean is left to [others]. *)
Definition matches (others : Filter -> obj -> bool) (f : Filter) (r : obj) : bool :=
  if String.eqb (filter_operator f) "$gte" then
    match filter_operand f, get r (filter_field f) with
    | VStr bound, VStr v => String.leb bound v
    | _, _ => false
    end
  else others f r.

Definition selected (others : Filter -> obj -> bool) (body : RequestBody)
    (r : obj) : bool :=
  forallb (λ f, matches others f r) (default [] (rb_filter body)).

Definition query (others : Filter -> obj -> bool) (data : string -> list obj)
    (module : string) (body : RequestBody) : result Page :=
  let matching := List.filter (selected others body) (data module) in
  let start := Z.to_nat (rb_offset body) in
  let size := Z.to_nat (max_num body) in
  let more := (start + size <? length matching)%nat in
  Returns {| records := take size (drop start matching);
             has_more := more;
             next_offset := if more then rb_offset body + max_num body else -1;
             total_count := VNum (Z.of_nat (length matching)) |}.

End Source.

(* ===================================================================== *)
(** * tasks/manageSync.js                                                 *)
(* ===================================================================== *)

Module ManageSync.
Import Js Runtime.
Local Open Scope run_scope.

(** [args] are the command-line words after the task name: [args[0]] is
    ["reset"] and [args[1]], when present and not empty, the identifier. *)
Definition handleResetCommand (E : Env) (args : list string) : M unit :=
  match args !! 1%nat with
  | Some identifier =>
      if String.eqb identifier "" then SyncTracker.resetAllSyncRecords E
      else
        SyncTracker.updateSyncRecord E identifier
          (<["last_sync_at" := VNull]> {["status" := VStr "pending"]}) ;;;
        ret tt
  | None => SyncTracker.resetAllSyncRecords E
  end.


(** [(v || fallback).padEnd(n)]: a truthy value that is not a string has
    no [padEnd]. *)
Definition pads (v : value) : bool :=
  match v with
  | VStr _ => true
  | _ => falsy v
  end.

Definition not_a_function (property fallback : string) : string :=
  "(record." ++ property ++ " || " ++ String dquote (fallback ++ String dquote EmptyString)
  ++ ").padEnd is not a function".

(** The row of one record: the dates are printed by [toLocaleString],
    which does not throw. *)
Definition displayRow (record : obj) : result unit :=
  if negb (pads (get record "module_name"))
  then Throws (not_a_function "module_name" "")
  else if negb (pads (get record "integration_name"))
  then Throws (not_a_function "integration_name" "")
  else if negb (pads (get record "direction"))
  then Throws (not_a_function "direction" "")
  else if negb (pads (get record "status"))
  then Throws (not_a_function "status" "unknown")
  else Returns tt.

Fixpoint displaySyncRecords (records : list obj) : result unit :=
  match records with
  | [] => Returns tt
  | record :: rest =>
      match displayRow record with
      | Returns _ => displaySyncRecords rest
      | Throws e => Throws e
      end
  end.

(** [args[i]] when it is truthy. *)
Definition arg (args : list string) (i : nat) : option string :=
  match args !! i with
  | Some s => if String.eqb s "" then None else Some s
  | None => None
  end.

Definition one_of (options : list string) (s : option string) : bool :=
  match s with
  | Some s => existsb (String.eqb s) options
  | None => false
  end.

Definition handleListCommand (E : Env) (args : list string) : M unit :=
  let filter := args !! 1%nat in
  records <-
    (if one_of ["success"; "failed"; "pending"] filter
     then SyncTracker.getSyncRecordsByStatus E (default "" filter)
     else if one_of ["inbound"; "outbound"] filter
     then SyncTracker.getSyncRecordsByDirection E (default "" filter)
     else SyncTracker.getAllSyncRecords E) ;;
  lift (displaySyncRecords records).

Definition handleStatsCommand (E : Env) (getTime : value -> SyncTracker.number)
  : M unit :=
  SyncTracker.getSyncStatistics E getTime ;;;
  ret tt.

(** Printing a record and the entries of its [metadata] does not throw. *)
Definition handleShowCommand (E : Env) (args : list string) : M unit :=
  match arg args 1 with
  | None => ret tt
  | Some identifier =>
      SyncTracker.getSyncRecord E identifier ;;;
      ret tt
  end.

Definition handleCreateCommand (E : Env) (args : list string) : M unit :=
  match arg args 1, arg args 2, arg args 3 with
  | Some moduleName, Some integrationName, Some direction =>
      if negb (String.eqb direction "inbound") && negb (String.eqb direction "outbound")
      then ret tt
      else
        SyncTracker.createSyncRecord E
          (<["module_name" := VStr moduleName]>
             (<["integration_name" := VStr integrationName]>
                (<["direction" := VStr direction]>
                   {["endpoint" := match args !! 4%nat with
                                   | Some endpoint => VStr endpoint
                                   | None => VUndef
                                   end]}))) ;;;
        ret tt
  | _, _, _ => ret tt
  end.

Definition handleDeleteCommand (E : Env) (args : list string) : M unit :=
  match arg args 1 with
  | None => ret tt
  | Some identifier => SyncTracker.deleteSyncRecord E identifier
  end.

(** [args] is [process.argv.slice(3)]; an error of a handler is printed
    and not thrown again.  [help] and an unknown command only print. *)
Definition manageSync (E : Env) (getTime : value -> SyncTracker.number)
    (args : list string) : M unit :=
  try_catch
    (match args !! 0%nat with
     | None => handleListCommand E args
     | Some command =>
         if String.eqb command "list" then handleListCommand E args
         else if String.eqb command "stats" then handleStatsCommand E getTime
         else if String.eqb command "show" then handleShowCommand E args
         else if String.eqb command "reset" then handleResetCommand E args
         else if String.eqb command "create" then handleCreateCommand E args
         else if String.eqb command "delete" then handleDeleteCommand E args
         else ret tt
     end)
    (λ _, ret tt).

End ManageSync.


(* ===================================================================== *)
(** * utils/portalAuth.js                                                 *)
(* ===================================================================== *)

Module PortalAuth.
Import Js Runtime.

(** The two variables of the module; [null] is [VNull] and [None]. *)
Record TokenCache : Type := {
  cachedToken : value;
  tokenExpiry : option Z
}.

Definition empty_cache : TokenCache := {| cachedToken := VNull; tokenExpiry := None |}.

(** One POST to the login URL: [Throws] for a network fault, a
    response that is not 2xx or a body that cannot be read as an
    object, otherwise [authData.token], [undefined] when the answer has
    none. *)
Abbreviation login := (string -> result value).

(** [cachedToken && tokenExpiry && new Date() < tokenExpiry], with
    [checked] the time read by [new Date()] in milliseconds. *)
Definition hasValidToken (checked : Z) (c : TokenCache) : value :=
  if falsy (cachedToken c) then cachedToken c
  else match tokenExpiry c with
       | None => VNull
       | Some expiry => VBool (checked <? expiry)
       end.

(** [baseUrl || process.env.PORTAL_BASE_URL || 'http://localhost:3001'] *)
Definition portalBaseUrl (E : Env) (baseUrl : option string) : string :=
  match baseUrl with
  | Some url => if String.eqb url "" then portal_base_url E else url
  | None => portal_base_url E
  end.

(** [stored] is the time read by [Date.now()] after the login; the
    file logger the function writes to does not throw. *)
Definition getPortalToken (post : login) (E : Env) (baseUrl : option string)
    (checked stored : Z) (c : TokenCache) : result value * TokenCache :=
  let loginUrl := portalBaseUrl E baseUrl ++ "/api/auth/admin/login" in
  if truthy (hasValidToken checked c) then (Returns (cachedToken c), c)
  else
    match post loginUrl with
    | Throws message => (Throws message, c)
    | Returns token =>
        if falsy token then (Throws "No token received from portal login", c)
        else (Returns token,
              {| cachedToken := token; tokenExpiry := Some (stored + 60 * 60 * 1000) |})
    end.

Definition clearPortalToken (c : TokenCache) : TokenCache := empty_cache.

End PortalAuth.

(* ===================================================================== *)
(** * utils/logger.js                                                     *)
(* ===================================================================== *)

Module Logger.
Import Js.

(** [LOG_ENABLED] and [LOG_LEVEL] as the module computes them when it
    is loaded: [LOG_LEVEL] is the variable of the environment, or
    ["info"] when that is missing or empty. *)
Record Config : Type := {
  LOG_ENABLED : bool;
  LOG_LEVEL : string
}.

(** [LOG_LEVELS[level]] as a number: [None] when the name is not one
    of the four keys, the value being then [undefined] or an inherited
    property, neither of which is a number. *)
Definition LOG_LEVELS (level : string) : option nat :=
  if String.eqb level "debug" then Some 0%nat
  else if String.eqb level "info" then Some 1%nat
  else if String.eqb level "warn" then Some 2%nat
  else if String.eqb level "error" then Some 3%nat
  else None.

(** [LOG_LEVELS[level] >= LOG_LEVELS[LOG_LEVEL]]: a comparison with
    what is no number is false. *)
Definition shouldLog (cfg : Config) (level : string) : bool :=
  match LOG_LEVELS level, LOG_LEVELS (LOG_LEVEL cfg) with
  | Some a, Some b => (b <=? a)%nat
  | _, _ => false
  end.

(** The methods of [Logger]. *)
Inductive Method : Type :=
| debug
| info
| warn
| error
| taskStart
| taskComplete
| taskFailed
| apiCall
| dataProcessing.

(** The level under which a method writes to the log file. *)
Definition level_of (m : Method) : string :=
  match m with
  | debug | apiCall => "debug"
  | info | taskStart | taskComplete | dataProcessing => "info"
  | warn => "warn"
  | error | taskFailed => "error"
  end.

(** Whether a call of the method attempts to write to the log file,
    that is enters the [try] of [writeToLogFile]: the four level
    methods ask [shouldLog], the others call [writeToLogFile] at once;
    [writeToLogFile] returns early when logging is not enabled. *)
Definition writes (cfg : Config) (m : Method) : bool :=
  match m with
  | debug | info | warn | error => shouldLog cfg (level_of m) && LOG_ENABLED cfg
  | _ => LOG_ENABLED cfg
  end.

End Logger.

(* ===================================================================== *)
(** * Properties of the transformer                                       *)
(* ===================================================================== *)

Module TransformerSpec.
Import Js Transformer.

Definition clock0 (t : nat) : string := "2025-10-01T08:00:0" ++ pretty (Z.of_nat t) ++ ".000Z".

Definition req_name : FieldMapping :=
  {| field_mappings :=
       [("name", {| portal_field := "member_name"; required := true;
                    transform := "direct" |})];
     default_values := None; computed_fields := None;
     validation_rules := None |}.

(** ** Step 1 *)

(** Whether an entry of [field_mappings] writes its destination. *)
Definition emits (src : obj) (entry : string * MappingConfig) : bool :=
  negb (required entry.2 && missing (get src entry.1))
  && has_value (applyTransform (transform entry.2) (get src entry.1)).

Lemma mapField_errors_grow src st entry x :
  In x st.2 -> In x (mapField src st entry).2.
Proof.
  destruct st as [out errs], entry as [f mc]; simpl.
  destruct (required mc && missing (get src f)); simpl.
  - unfold push. intros H. apply in_or_app. by left.
  - by destruct (has_value _).
Qed.

Lemma fold_mapField_errors_grow src fms st x :
  In x st.2 -> In x (fold_left (mapField src) fms st).2.
Proof.
  revert st. induction fms as [|e fms IH]; intros st H; simpl; [done|].
  apply IH. by apply mapField_errors_grow.
Qed.

Lemma mapField_skips src st f mc :
  required mc = true -> missing (get src f) = true ->
  mapField src st (f, mc) = (st.1, push st.2 (missing_required f)).
Proof.
  intros Hr Hm. destruct st as [out errs]; simpl. by rewrite Hr, Hm.
Qed.

Lemma fold_mapField_reports src fms st f mc :
  In (f, mc) fms -> required mc = true -> missing (get src f) = true ->
  In (missing_required f) (fold_left (mapField src) fms st).2.
Proof.
  revert st. induction fms as [|e fms IH]; intros st Hin Hr Hm; simpl; [done|].
  destruct Hin as [->|Hin].
  - apply fold_mapField_errors_grow. rewrite mapField_skips by done.
    simpl. unfold push. apply in_or_app. right. by left.
  - by apply IH.
Qed.

Lemma mapField_lookup src st entry pf :
  (mapField src st entry).1 !! pf =
  if emits src entry && String.eqb (portal_field entry.2) pf
  then Some (applyTransform (transform entry.2) (get src entry.1))
  else st.1 !! pf.
Proof.
  destruct st as [out errs], entry as [f mc]; unfold emits; simpl.
  destruct (required mc && missing (get src f)); simpl; [done|].
  destruct (has_value _); simpl; [|done].
  destruct (String.eqb_spec (portal_field mc) pf) as [->|Hne].
  - by rewrite lookup_insert_eq.
  - by rewrite lookup_insert_ne.
Qed.

Lemma fold_mapField_unset src fms st pf :
  (fold_left (mapField src) fms st).1 !! pf = None <->
  st.1 !! pf = None /\
  (forall entry, In entry fms -> portal_field entry.2 = pf -> emits src entry = false).
Proof.
  revert st. induction fms as [|e fms IH]; intros st; simpl.
  - split; [intros H; split; [done|intros ? []] | by intros [H _]].
  - rewrite IH, mapField_lookup. split.
    + intros [H1 H2].
      destruct (emits src e) eqn:He; simpl in H1.
      * destruct (String.eqb_spec (portal_field e.2) pf) as [Heq|Hne]; [done|].
        split; [done|]. intros e' [<-|Hin] Hpf; [done | by apply H2].
      * split; [done|]. intros e' [<-|Hin] Hpf; [done | by apply H2].
    + intros [H1 H2]. split; [|intros e' Hin; apply H2; by right].
      destruct (emits src e) eqn:He; simpl; [|done].
      destruct (String.eqb_spec (portal_field e.2) pf) as [Heq|Hne]; [|done].
      specialize (H2 e (or_introl eq_refl) Heq). congruence.
Qed.

(** ** Step 4 *)

(** [st'] is [st] with errors appended, and its flag is still up exactly
    when the flag of [st] was and nothing was appended. *)
Definition extends (st st' : bool * list string) : Prop :=
  exists extra, st'.2 = (st.2 ++ extra)%list /\
                (st'.1 = true <-> st.1 = true /\ extra = []).

Lemma extends_refl st : extends st st.
Proof. exists []. rewrite app_nil_r. tauto. Qed.

Lemma extends_trans st1 st2 st3 : extends st1 st2 -> extends st2 st3 -> extends st1 st3.
Proof.
  intros [x1 [E1 F1]] [x2 [E2 F2]]. exists (x1 ++ x2)%list. split.
  - by rewrite E2, E1, app_assoc.
  - rewrite F2, F1. split.
    + intros [[? ->] ->]. done.
    + intros [? [-> ->]%app_eq_nil]. done.
Qed.

Lemma extends_push st x : extends st (false, push st.2 x).
Proof.
  exists [x]. split; [done|]. simpl. split; [done|]. by intros [_ ?].
Qed.

Lemma checkRequired_extends record st field : extends st (checkRequired record st field).
Proof.
  unfold checkRequired. destruct (missing _); [apply extends_push | apply extends_refl].
Qed.

Lemma fold_checkRequired_extends record l st :
  extends st (fold_left (checkRequired record) l st).
Proof.
  revert st. induction l as [|f l IH]; intros st; simpl; [apply extends_refl|].
  eapply extends_trans; [apply checkRequired_extends | apply IH].
Qed.

Lemma checkEmail_extends rules record st : extends st (checkEmail rules record st).
Proof.
  unfold checkEmail. destruct (_ && _); [|apply extends_refl].
  destruct (emailRegex _); [apply extends_refl | apply extends_push].
Qed.

Lemma checkPhone_extends rules record st st' :
  checkPhone rules record st = Returns st' -> extends st st'.
Proof.
  unfold checkPhone. destruct (_ && _).
  - destruct (get record "phone"); try done.
    destruct (phoneRegex _); intros [= <-]; [apply extends_refl | apply extends_push].
  - intros [= <-]. apply extends_refl.
Qed.

(** The flag returned by the validation says whether the validation
    itself has appended an error. *)
Lemma validate_extends record rules errors st' :
  validateTransformedRecord record rules errors = Returns st' ->
  extends (true, errors) st'.
Proof.
  unfold validateTransformedRecord. intros H.
  apply checkPhone_extends in H.
  eapply extends_trans; [|exact H].
  eapply extends_trans; [|apply checkEmail_extends].
  destruct (required_fields rules); [apply fold_checkRequired_extends | apply extends_refl].
Qed.

(** The errors of step 1 are kept, in front, by the rest of the
    transformation; a record reported invalid has an error. *)
Lemma transformWith_errors clock t m src r t' :
  transformWith clock t m src = (Returns r, t') ->
  exists extra,
    validationErrors r = ((applyFieldMappings src (field_mappings m)).2 ++ extra)%list
    /\ (isValid r = true <-> extra = []).
Proof.
  unfold transformWith.
  destruct (applyFieldMappings src (field_mappings m)) as [mapped errors1] eqn:H1.
  destruct (applyComputedFields _ _ _) as [rec t1].
  destruct (validation_rules m) as [rules|].
  - destruct (validateTransformedRecord rec rules errors1) as [[valid errors]|e] eqn:Hv;
      [|done].
    intros [= <- <-]. apply validate_extends in Hv as [extra [E F]].
    exists extra. simpl in *. split; [done|]. rewrite F. tauto.
  - intros [= <- <-]. exists []. simpl. by rewrite app_nil_r.
Qed.

Lemma transformWith_invalid_has_errors clock t m src r t' :
  transformWith clock t m src = (Returns r, t') ->
  isValid r = false -> validationErrors r <> [].
Proof.
  intros H Hf. apply transformWith_errors in H as [extra [E F]].
  rewrite E. intros [_ Hx]%app_eq_nil. apply F in Hx. congruence.
Qed.

(** ** Step 2 *)

(** The literal [default_values] holds for a destination field. *)
Definition default_for (f : string) (defaults : list (string * value)) : option value :=
  snd <$> List.find (λ entry, String.eqb entry.1 f) defaults.

Lemma applyDefault_other out entry f :
  entry.1 <> f -> applyDefault out entry !! f = out !! f.
Proof.
  intros Hne. unfold applyDefault. destruct (falsy _); [|done].
  by rewrite lookup_insert_ne.
Qed.

Lemma fold_applyDefault_other defaults out f :
  ~ In f defaults.*1 -> fold_left applyDefault defaults out !! f = out !! f.
Proof.
  revert out. induction defaults as [|e l IH]; intros out Hn; simpl; [done|].
  rewrite IH, applyDefault_other; [done| |]; intros H; apply Hn; simpl; auto.
Qed.

Lemma get_lookup (o1 o2 : obj) k : o1 !! k = o2 !! k -> get o1 k = get o2 k.
Proof. unfold get. by intros ->. Qed.

(** ** Examples *)

Definition members : string := "sugarcrm_to_portal_members".

(** The same required field, with rules that only look at [email]. *)
Definition req_name_rules : FieldMapping :=
  {| field_mappings := field_mappings req_name;
     default_values := None; computed_fields := None;
     validation_rules :=
       Some {| required_fields := None; email_validation := true;
               phone_validation := true |} |}.

(** A required [status_c] whose destination has a default. *)
Definition req_status : FieldMapping :=
  {| field_mappings :=
       [("status_c", {| portal_field := "status"; required := true;
                        transform := "direct" |})];
     default_values := Some [("status", VStr "Active")];
     computed_fields := None;
     validation_rules := None |}.

(** An optional flag whose destination has a default. *)
Definition flag_mapping : FieldMapping :=
  {| field_mappings :=
       [("deleted", {| portal_field := "is_deleted"; required := false;
                       transform := "direct" |})];
     default_values := Some [("is_deleted", VBool true)];
     computed_fields := None;
     validation_rules := None |}.

(** ** The claims *)

(** C1, a defect of the code: [isValid] should be false whenever
    [validationErrors] is not empty.  Here a record without its required
    [name] comes back with the error of step 1 in [validationErrors] and
    with [isValid] true, both when the mapping has no [validation_rules]
    and when it has rules that find nothing: the flag only tells
    whether step 4 has appended an error. *)
Theorem transform_valid_despite_mapping_error :
  transformSugarcrmToPortal (Returns {[members := req_name]}) clock0 0 ∅ members
  = (Returns {| data := ∅; isValid := true;
                validationErrors := ["Missing required field: name"];
                mapping := req_name |}, 0%nat)
  /\ transformSugarcrmToPortal (Returns {[members := req_name_rules]}) clock0 0 ∅ members
     = (Returns {| data := ∅; isValid := true;
                   validationErrors := ["Missing required field: name"];
                   mapping := req_name_rules |}, 0%nat).
Proof. split; reflexivity. Qed.

(** C5 as stated fails: the source record lacks the required [status_c],
    the error naming it is appended, and yet the output record carries
    [status] (from [default_values]) and [isValid] is true. *)
Lemma required_missing_counterexample :
  exists r t,
    transformSugarcrmToPortal (Returns {[members := req_status]}) clock0 0 ∅ members
    = (Returns r, t)
    /\ In ("status_c", {| portal_field := "status"; required := true;
                          transform := "direct" |}) (field_mappings req_status)
    /\ missing (get ∅ "status_c") = true
    /\ ~ (In (missing_required "status_c") (validationErrors r)
          /\ data r !! "status" = None
          /\ isValid r = false).
Proof.
  eexists _, _. split; [reflexivity|]. split; [by left|]. split; [done|].
  intros (_ & H & _). vm_compute in H. discriminate.
Qed.

(** C5, amended: when a source field whose destination is required is
    missing or empty, its iteration of step 1 leaves the record under
    construction as it was, the error naming the field is among the
    errors of step 1 and of the result, and after step 1 the destination
    is unset provided no other configured source field supplies it.
    (Steps 2 and 3 may still fill the destination.) *)
Theorem required_missing_is_reported_and_skipped
    (src : obj) (m : FieldMapping) (f : string) (mc : MappingConfig)
    (clock : nat -> string) (t : nat) :
  In (f, mc) (field_mappings m) ->
  required mc = true ->
  missing (get src f) = true ->
  (forall st, (mapField src st (f, mc)).1 = st.1)
  /\ In (missing_required f) (applyFieldMappings src (field_mappings m)).2
  /\ ((forall entry, In entry (field_mappings m) ->
         portal_field entry.2 = portal_field mc -> emits src entry = false) ->
      (applyFieldMappings src (field_mappings m)).1 !! portal_field mc = None)
  /\ (forall r t', transformWith clock t m src = (Returns r, t') ->
        In (missing_required f) (validationErrors r)).
Proof.
  intros Hin Hr Hm. repeat split.
  - intros st. by rewrite mapField_skips.
  - by eapply fold_mapField_reports.
  - intros Hothers. unfold applyFieldMappings. apply fold_mapField_unset. split; [done|].
    exact Hothers.
  - intros r t' H. apply transformWith_errors in H as [extra [-> _]].
    apply in_or_app. left. by eapply fold_mapField_reports.
Qed.

Lemma required_missing_is_reported_and_skipped_witness :
  (applyFieldMappings ∅ (field_mappings req_status)).1 !! "status" = None
  /\ In "Missing required field: status_c"
        (applyFieldMappings ∅ (field_mappings req_status)).2.
Proof.
  pose proof (required_missing_is_reported_and_skipped ∅ req_status "status_c"
                {| portal_field := "status"; required := true; transform := "direct" |}
                clock0 0) as H.
  destruct H as (_ & H2 & H3 & _).
  - simpl. by left.
  - reflexivity.
  - reflexivity.
  - split; [|exact H2]. apply H3.
    intros entry [<-|[]] _. reflexivity.
Defined.

(** C7 as stated fails: step 1 sets [is_deleted] to [false], the value
    of the source record, and the default overwrites it with [true]. *)
Lemma default_overwrites_counterexample :
  (applyFieldMappings {["deleted" := VBool false]} (field_mappings flag_mapping)).1
    !! "is_deleted" = Some (VBool false)
  /\ exists r t,
       transformSugarcrmToPortal (Returns {[members := flag_mapping]}) clock0 0
         {["deleted" := VBool false]} members = (Returns r, t)
       /\ data r !! "is_deleted" = Some (VBool true).
Proof.
  split; [reflexivity|]. eexists _, _. split; reflexivity.
Qed.

(** C7, amended: after step 2 a destination field that has a default
    holds the value step 1 gave it when that value is truthy, and the
    default otherwise, that is when step 1 left the field unset or set
    it to [false] or [0]; a field without a default is as step 1 left
    it. *)
Theorem defaults_fill_what_is_falsy
    (defaults : list (string * value)) (out : obj) (f : string) :
  NoDup defaults.*1 ->
  applyDefaults (Some defaults) out !! f =
  match default_for f defaults with
  | Some v => if truthy (get out f) then out !! f else Some v
  | None => out !! f
  end.
Proof.
  unfold applyDefaults, default_for.
  revert out. induction defaults as [|[k v] l IH]; intros out Hnd; simpl; [done|].
  apply NoDup_cons in Hnd as [Hk Hl].
  destruct (String.eqb_spec k f) as [->|Hne]; simpl.
  - rewrite fold_applyDefault_other by (by rewrite <- list_elem_of_In).
    unfold applyDefault, falsy; simpl. destruct (truthy (get out f)); simpl; [done|].
    by rewrite lookup_insert_eq.
  - rewrite IH by done.
    assert (applyDefault out (k, v) !! f = out !! f) as E
      by (by apply applyDefault_other).
    rewrite E, (get_lookup _ _ _ E). done.
Qed.

Lemma defaults_fill_what_is_falsy_witness :
  applyDefaults (Some [("status", VStr "Active")]) ∅ !! "status"
  = Some (VStr "Active").
Proof.
  rewrite (defaults_fill_what_is_falsy [("status", VStr "Active")] ∅ "status").
  - reflexivity.
  - simpl. apply NoDup_cons. split; [apply not_elem_of_nil | apply NoDup_nil_2].
Defined.

End TransformerSpec.

(* ===================================================================== *)
(** * Properties of JSON normalisation                                    *)
(* ===================================================================== *)

Module JsonSpec.
Import Js.

Section value_induction.
Variable P : value -> Prop.
Hypothesis Hundef : P VUndef.
Hypothesis Hnull : P VNull.
Hypothesis Hbool : forall b, P (VBool b).
Hypothesis Hnum : forall n, P (VNum n).
Hypothesis Hstr : forall s, P (VStr s).
Hypothesis Harr : forall l, Forall P l -> P (VArr l).
Hypothesis Hobj : forall fs, Forall (λ kv, P kv.2) fs -> P (VObj fs).

Fixpoint value_nested_ind (v : value) : P v :=
  match v with
  | VUndef => Hundef
  | VNull => Hnull
  | VBool b => Hbool b
  | VNum n => Hnum n
  | VStr s => Hstr s
  | VArr l =>
      Harr l ((fix items (l : list value) : Forall P l :=
                 match l with
                 | [] => @List.Forall_nil _ P
                 | w :: r => @List.Forall_cons _ P w r (value_nested_ind w) (items r)
                 end) l)
  | VObj fs =>
      Hobj fs ((fix members (l : list (string * value)) : Forall (λ kv, P kv.2) l :=
                  match l with
                  | [] => @List.Forall_nil _ _
                  | kv :: r => @List.Forall_cons _ _ kv r (value_nested_ind kv.2) (members r)
                  end) fs)
  end.
End value_induction.

Definition jsonify_item (w : value) : value :=
  match w with
  | VUndef => VNull
  | _ => jsonify w
  end.

Definition jsonify_member (kv : string * value) : list (string * value) :=
  if is_undef kv.2 then [] else [(kv.1, jsonify kv.2)].

Lemma jsonify_arr l : jsonify (VArr l) = VArr (map jsonify_item l).
Proof. reflexivity. Qed.

Lemma jsonify_obj_fields fs : jsonify (VObj fs) = VObj (flat_map jsonify_member fs).
Proof.
  simpl. f_equal. induction fs as [|[k w] r IH]; [done|].
  simpl. rewrite <- IH. by destruct w.
Qed.

Lemma is_undef_jsonify v : is_undef (jsonify v) = is_undef v.
Proof. by destruct v. Qed.

Lemma jsonify_idem v : jsonify (jsonify v) = jsonify v.
Proof.
  induction v as [| | | | |l IH|fs IH] using value_nested_ind; try done.
  - rewrite !jsonify_arr. f_equal. rewrite map_map.
    induction IH as [|w r Hw _ IHr]; [done|]. simpl. rewrite IHr. f_equal.
    destruct w; try done; simpl in *; by rewrite ?Hw.
  - rewrite !jsonify_obj_fields. f_equal.
    induction IH as [|[k w] r Hw _ IHr]; [done|]. simpl in *.
    unfold jsonify_member at 2 4; simpl. destruct (is_undef w) eqn:Hu; simpl; [done|].
    unfold jsonify_member at 1; simpl. rewrite is_undef_jsonify, Hu; simpl.
    by rewrite Hw, IHr.
Qed.

Lemma truthy_jsonify v : truthy (jsonify v) = truthy v.
Proof. by destruct v. Qed.

Lemma is_str_jsonify v s : is_str (jsonify v) s = is_str v s.
Proof. by destruct v. Qed.

End JsonSpec.

(* ===================================================================== *)
(** * Properties of the checkpoint store                                  *)
(* ===================================================================== *)

Module SyncTrackerSpec.
Import Js Runtime SyncTracker JsonSpec.

(** The checkpoints a reader of the file sees. *)
Definition stored_records (w : World) : list obj :=
  match sync_file w with
  | Some d => jsonify_obj <$> sync_records d
  | None => []
  end.

Lemma lookup_jsonify_obj (o : obj) k :
  jsonify_obj o !! k =
  match o !! k with
  | Some v => if is_undef v then None else Some (jsonify v)
  | None => None
  end.
Proof.
  unfold jsonify_obj. rewrite lookup_fmap.
  destruct (o !! k) as [v|] eqn:Hk.
  - destruct (is_undef v) eqn:Hu.
    + rewrite (proj2 (map_lookup_filter_None _ o k)); [done|].
      right. intros v' Hv'. simpl. congruence.
    + rewrite (map_lookup_filter_Some_2 _ o k v); done.
  - rewrite (proj2 (map_lookup_filter_None _ o k)); [done|]. by left.
Qed.

Lemma get_jsonify_obj (o : obj) k : get (jsonify_obj o) k = jsonify (get o k).
Proof.
  unfold get. rewrite lookup_jsonify_obj.
  destruct (o !! k) as [v|]; simpl; [|done]. by destruct v.
Qed.

Lemma jsonify_obj_idem (o : obj) : jsonify_obj (jsonify_obj o) = jsonify_obj o.
Proof.
  apply map_eq. intros k. rewrite !lookup_jsonify_obj.
  destruct (o !! k) as [v|]; [|done].
  destruct (is_undef v) eqn:Hu; [done|].
  by rewrite is_undef_jsonify, Hu, jsonify_idem.
Qed.

Lemma jsonify_obj_twice (l : list obj) :
  jsonify_obj <$> (jsonify_obj <$> l) = jsonify_obj <$> l.
Proof.
  rewrite <- list_fmap_compose. apply list_fmap_ext. intros _ o _. apply jsonify_obj_idem.
Qed.

Lemma stored_records_normal w : jsonify_obj <$> stored_records w = stored_records w.
Proof.
  unfold stored_records. destruct (sync_file w); [|done]. apply jsonify_obj_twice.
Qed.

Lemma stored_record_normal w i record k :
  stored_records w !! i = Some record -> jsonify (get record k) = get record k.
Proof.
  intros H. rewrite <- stored_records_normal in H.
  rewrite list_lookup_fmap in H.
  destruct (stored_records w !! i) as [raw|]; [|done].
  injection H as <-. by rewrite get_jsonify_obj, jsonify_idem.
Qed.

Lemma findIndex_lookup identifier l i :
  findIndex identifier l = Some i -> exists record, l !! i = Some record /\ resolves identifier record = true.
Proof.
  revert i. induction l as [|r l IH]; intros i; simpl; [done|].
  destruct (resolves identifier r) eqn:Hr.
  - intros [= <-]. eauto.
  - destruct (findIndex identifier l) as [j|]; simpl; [|done].
    intros [= <-]. destruct (IH j eq_refl) as [record [? ?]]. eauto.
Qed.

Lemma findIndex_find identifier l i record :
  findIndex identifier l = Some i -> l !! i = Some record ->
  List.find (resolves identifier) l = Some record.
Proof.
  revert i. induction l as [|r l IH]; intros i; simpl; [done|].
  destruct (resolves identifier r) eqn:Hr.
  - by intros [= <-] [= <-].
  - destruct (findIndex identifier l) as [j|] eqn:Hj; simpl; [|done].
    intros [= <-]. simpl. by apply IH.
Qed.

Lemma findIndex_None_find identifier l :
  findIndex identifier l = None -> List.find (resolves identifier) l = None.
Proof.
  induction l as [|r l IH]; simpl; [done|].
  destruct (resolves identifier r); [done|].
  destruct (findIndex identifier l); [done|]. auto.
Qed.

(** ** What the functions do to a world *)

Lemma loadSyncData_stored E w :
  exists d w',
    loadSyncData E w = (Ok d, w')
    /\ sync_records d = stored_records w
    /\ sync_file w' = sync_file w /\ ledger w' = ledger w /\ trace w' = trace w
    /\ (is_Some (sync_file w) -> w' = w).
Proof.
  unfold loadSyncData, stored_records, bind, read_sync_file.
  destruct (sync_file w) as [d|] eqn:Hf.
  - eexists _, _. split; [reflexivity|]. simpl. by repeat split.
  - eexists _, _. split; [reflexivity|]. simpl. by repeat split.
Qed.

Lemma getSyncRecord_stored E identifier w :
  exists w',
    getSyncRecord E identifier w
    = (Ok (List.find (resolves identifier) (stored_records w)), w')
    /\ sync_file w' = sync_file w /\ ledger w' = ledger w /\ trace w' = trace w
    /\ (is_Some (sync_file w) -> w' = w).
Proof.
  destruct (loadSyncData_stored E w) as (d & w' & Hl & Hr & Hrest).
  exists w'. unfold getSyncRecord, bind. rewrite Hl. simpl. by rewrite Hr.
Qed.

Lemma updateSyncRecord_missing E identifier updateData w :
  findIndex identifier (stored_records w) = None ->
  exists w',
    updateSyncRecord E identifier updateData w
    = (Throw ("Sync record not found for identifier: " ++ identifier), w')
    /\ sync_file w' = sync_file w /\ ledger w' = ledger w /\ trace w' = trace w.
Proof.
  intros Hnone.
  destruct (loadSyncData_stored E w) as (d & w' & Hl & Hr & Hf & Hg & Ht & _).
  exists w'. unfold updateSyncRecord, bind. rewrite Hl, Hr, Hnone. done.
Qed.

Lemma updateSyncRecord_found E identifier updateData w i record :
  findIndex identifier (stored_records w) = Some i ->
  stored_records w !! i = Some record ->
  let updated := merged record updateData (clock E (tick w)) in
  exists w',
    updateSyncRecord E identifier updateData w = (Ok updated, w')
    /\ stored_records w' = <[i := jsonify_obj updated]> (stored_records w)
    /\ tick w' = S (tick w) /\ ledger w' = ledger w /\ trace w' = trace w.
Proof.
  intros Hi Hrec updated.
  destruct (loadSyncData_stored E w) as (d & w1 & Hl & Hr & Hf & Hg & Ht & Hsame).
  assert (is_Some (sync_file w)) as Hsome.
  { unfold stored_records in Hrec. destruct (sync_file w); [eauto|done]. }
  rewrite (Hsame Hsome) in Hl.
  unfold updateSyncRecord, bind. rewrite Hl, Hr, Hi. unfold now; simpl.
  rewrite Hrec; simpl. fold updated.
  eexists. split; [reflexivity|]. simpl. repeat split.
  unfold stored_records at 1; simpl. rewrite jsonify_obj_twice.
  rewrite list_fmap_insert. f_equal. apply stored_records_normal.
Qed.

(** ** The merge *)

Lemma merged_updated_at record updateData now :
  get (merged record updateData now) "updated_at" = VStr now.
Proof.
  unfold merged, get. rewrite lookup_insert_ne by done. by rewrite lookup_insert_eq.
Qed.

Lemma merged_last_sync_at record updateData now :
  get (merged record updateData now) "last_sync_at"
  = if truthy (get updateData "last_sync_at")
    then get updateData "last_sync_at"
    else get record "last_sync_at".
Proof. unfold merged, get at 1. by rewrite lookup_insert_eq. Qed.

Lemma merged_other record updateData now k :
  k <> "updated_at" -> k <> "last_sync_at" ->
  merged record updateData now !! k
  = match updateData !! k with
    | Some v => Some v
    | None => record !! k
    end.
Proof.
  intros H1 H2. unfold merged. rewrite !lookup_insert_ne by done.
  rewrite lookup_union. by destruct (updateData !! k), (record !! k).
Qed.

(** ** Examples *)

Definition clock1 (t : nat) : string :=
  "2025-10-02T09:00:0" ++ pretty (Z.of_nat t) ++ ".000Z".

Definition quiet : Env :=
  {| clock := clock1;
     config := Throws "ENOENT";
     sugar_http := λ _ _, Throws "offline";
     portal_base_url := "http://localhost:3001";
     portal_http := λ _ _, Throws "offline";
     pool := Returns tt;
     db := λ _, Returns [] |}.

Definition members_checkpoint : obj :=
  list_to_map
    [ ("module_name", VStr "Members");
      ("integration_name", VStr "sugarcrm_members");
      ("direction", VStr "inbound");
      ("status", VStr "success");
      ("last_sync_at", VStr "2025-09-01T00:00:00.000Z");
      ("updated_at", VStr "2025-09-01T00:00:00.000Z") ].

Definition one_checkpoint : World :=
  {| tick := 0;
     sync_file := Some {| sync_records := [members_checkpoint];
                          metadata := VObj [("version", VStr "1.0.0")] |};
     ledger := []; trace := [] |}.

(** ** The claims *)

(** C4: an update of an identifier that no checkpoint resolves throws
    the not-found error and leaves the file as it was; otherwise it
    returns and stores the record in which the supplied fields replace
    the existing ones, [updated_at] is the current time whatever the
    caller supplied, and [last_sync_at] is the supplied value when that
    is truthy and the prior one otherwise, in particular when the
    caller supplies none. *)
Theorem updateSyncRecord_merges_or_fails
    (E : Env) (identifier : string) (updateData : obj) (w : World) :
  match findIndex identifier (stored_records w) with
  | None =>
      exists w',
        SyncTracker.updateSyncRecord E identifier updateData w
        = (Throw ("Sync record not found for identifier: " ++ identifier), w')
        /\ sync_file w' = sync_file w
  | Some i =>
      exists record updated w',
        stored_records w !! i = Some record
        /\ SyncTracker.updateSyncRecord E identifier updateData w = (Ok updated, w')
        /\ stored_records w' = <[i := jsonify_obj updated]> (stored_records w)
        /\ get updated "updated_at" = VStr (clock E (tick w))
        /\ get updated "last_sync_at"
           = (if truthy (get updateData "last_sync_at")
              then get updateData "last_sync_at"
              else get record "last_sync_at")
        /\ (updateData !! "last_sync_at" = None ->
            get updated "last_sync_at" = get record "last_sync_at")
        /\ (forall k, k <> "updated_at" -> k <> "last_sync_at" ->
            updated !! k = match updateData !! k with
                           | Some v => Some v
                           | None => record !! k
                           end)
  end.
Proof.
  destruct (findIndex identifier (stored_records w)) as [i|] eqn:Hi.
  - destruct (findIndex_lookup _ _ _ Hi) as [record [Hrec _]].
    destruct (updateSyncRecord_found E identifier updateData w i record Hi Hrec)
      as (w' & Hrun & Hstored & _).
    exists record, (merged record updateData (clock E (tick w))), w'.
    split; [done|]. split; [done|]. split; [done|].
    split; [apply merged_updated_at|]. split; [apply merged_last_sync_at|].
    split; [|intros k; apply merged_other].
    intros Hnone. rewrite merged_last_sync_at. unfold get at 1. by rewrite Hnone.
  - destruct (updateSyncRecord_missing E identifier updateData w Hi) as (w' & ? & ? & _).
    eauto.
Qed.

(** C10: when the [last_sync_at] supplied to an update is falsy, the
    stored [last_sync_at] of the checkpoint is the one it had; so the
    reset of a single record, which supplies [null], stores the status
    [pending] and keeps [last_sync_at]. *)
Theorem falsy_last_sync_at_is_ignored
    (E : Env) (identifier : string) (updateData : obj) (w : World)
    (i : nat) (record : obj) :
  findIndex identifier (stored_records w) = Some i ->
  stored_records w !! i = Some record ->
  falsy (get updateData "last_sync_at") = true ->
  (exists updated w' record',
      SyncTracker.updateSyncRecord E identifier updateData w = (Ok updated, w')
      /\ stored_records w' !! i = Some record'
      /\ get record' "last_sync_at" = get record "last_sync_at")
  /\ (identifier <> "" ->
      exists w' record',
        ManageSync.handleResetCommand E ["reset"; identifier] w = (Ok tt, w')
        /\ stored_records w' !! i = Some record'
        /\ get record' "status" = VStr "pending"
        /\ get record' "last_sync_at" = get record "last_sync_at").
Proof.
  intros Hi Hrec Hfalsy.
  assert (i < length (stored_records w))%nat as Hlen by (by eapply lookup_lt_Some).
  split.
  - destruct (updateSyncRecord_found E identifier updateData w i record Hi Hrec)
      as (w' & Hrun & Hstored & _).
    eexists _, w', _. split; [exact Hrun|]. rewrite Hstored.
    split; [by apply list_lookup_insert_eq|].
    rewrite get_jsonify_obj, merged_last_sync_at.
    unfold falsy in Hfalsy. destruct (truthy (get updateData "last_sync_at")); [done|].
    by eapply stored_record_normal.
  - intros Hne. unfold ManageSync.handleResetCommand; simpl.
    destruct (String.eqb_spec identifier "") as [?|_]; [done|].
    set (upd := <["last_sync_at" := VNull]> {["status" := VStr "pending"]} : obj).
    destruct (updateSyncRecord_found E identifier upd w i record Hi Hrec)
      as (w' & Hrun & Hstored & _).
    eexists w', _. unfold bind. rewrite Hrun. split; [reflexivity|]. rewrite Hstored.
    split; [by apply list_lookup_insert_eq|].
    rewrite !get_jsonify_obj, merged_last_sync_at. split.
    + unfold get. rewrite merged_other by done. reflexivity.
    + change (get upd "last_sync_at") with VNull. simpl.
      by eapply stored_record_normal.
Qed.

Lemma falsy_last_sync_at_is_ignored_witness :
  exists w' record',
    ManageSync.handleResetCommand quiet ["reset"; "Members"] one_checkpoint = (Ok tt, w')
    /\ stored_records w' !! 0%nat = Some record'
    /\ get record' "status" = VStr "pending"
    /\ get record' "last_sync_at" = VStr "2025-09-01T00:00:00.000Z".
Proof.
  pose proof (falsy_last_sync_at_is_ignored quiet "Members"
                (<["last_sync_at" := VNull]> {["status" := VStr "pending"]})
                one_checkpoint 0 (jsonify_obj members_checkpoint)) as H.
  destruct H as [_ H].
  - reflexivity.
  - reflexivity.
  - reflexivity.
  - destruct (H ltac:(discriminate)) as (w' & record' & H1 & H2 & H3 & H4).
    exists w', record'. split; [exact H1|]. split; [exact H2|]. split; [exact H3|].
    rewrite H4. reflexivity.
Defined.

(** By contrast the reset of all records does clear [last_sync_at]. *)
Example resetAll_clears :
  exists w' record',
    ManageSync.handleResetCommand quiet ["reset"] one_checkpoint = (Ok tt, w')
    /\ stored_records w' !! 0%nat = Some record'
    /\ get record' "status" = VStr "pending"
    /\ get record' "last_sync_at" = VNull.
Proof. eexists _, _. repeat split; reflexivity. Qed.

End SyncTrackerSpec.

(* ===================================================================== *)
(** * Properties of the paginated fetch                                   *)
(* ===================================================================== *)

Module SugarCRMSpec.
Import Js Runtime SugarCRM.

(** The fetch as the specification words it: the pages a fetch is served
    when it sends its first request at [offset] with [total] records
    already fetched.  Every page answers the request sent at the current
    offset; after a page that is not the last one the upstream has
    declared more data and no more than 10,000 records are fetched, and
    the next request is sent at the offset that page names; after the
    last one the upstream has declared no more data, or more than 10,000
    records are fetched. *)
Fixpoint run_of (E : Env) (config : QueryConfig) (offset total : Z)
    (pages : list Page) : Prop :=
  match pages with
  | [] => False
  | p :: rest =>
      sugar_http E (module config) (requestBody (with_offset config offset)) = Returns p
      /\ let total' := total + Z.of_nat (length (records p)) in
         match rest with
         | [] => has_more p = false \/ 10000 < total'
         | _ => has_more p = true /\ total' <= 10000
                /\ run_of E config (next_offset p) total' rest
         end
  end.

(** The calls of such a fetch: one request per page, the call of the
    per-page function when there is one, and the warning once the total
    has passed 10,000. *)
Fixpoint events_of (config : QueryConfig) (callback : bool) (offset total : Z)
    (pages : list Page) : list event :=
  match pages with
  | [] => []
  | p :: rest =>
      let total' := total + Z.of_nat (length (records p)) in
      (EQuery (module config) (requestBody (with_offset config offset))
       :: (if callback then [EPageCallback (records p) p] else [])
       ++ (if 10000 <? total' then [EWarn too_many] else [])
       ++ events_of config callback (next_offset p) total' rest)%list
  end.

Definition all_records (pages : list Page) : list obj := concat (records <$> pages).

Definition after (w : World) (reads : nat) (events : list event) : World :=
  {| tick := (tick w + reads)%nat; sync_file := sync_file w; ledger := ledger w;
     trace := (trace w ++ events)%list |}.

Lemma after_after w n1 e1 n2 e2 :
  after (after w n1 e1) n2 e2 = after w (n1 + n2) (e1 ++ e2).
Proof.
  unfold after; simpl. f_equal; [lia | by rewrite app_assoc].
Qed.

Lemma try_catch_rethrow {A : Type} (m : M A) w : try_catch m (λ e, throw e) w = m w.
Proof. unfold try_catch, throw. by destruct (m w) as [[]]. Qed.

Lemma sugarCRMPost_returns E config p w :
  module config <> "" ->
  sugar_http E (module config) (requestBody config) = Returns p ->
  sugarCRMPost E config w
  = (Ok {| response_module := module config; request := requestBody config;
           timestamp := clock E (tick w); response_data := p |},
     after w 1 [EQuery (module config) (requestBody config)]).
Proof.
  intros Hm Hp. unfold sugarCRMPost.
  destruct (String.eqb_spec (module config) "") as [?|_]; [done|].
  unfold try_catch, bind, emit, lift, now, after, push; simpl. rewrite Hp; simpl.
  do 2 f_equal. lia.
Qed.

Lemma sugarCRMPost_throws E config e w :
  module config <> "" ->
  sugar_http E (module config) (requestBody config) = Throws e ->
  sugarCRMPost E config w
  = (Throw ("SugarCRM API call failed for module '" ++ module config ++ "': " ++ e),
     after w 0 [EQuery (module config) (requestBody config)]).
Proof.
  intros Hm Hp. unfold sugarCRMPost.
  destruct (String.eqb_spec (module config) "") as [?|_]; [done|].
  unfold try_catch, bind, emit, lift, now, after, push; simpl. rewrite Hp; simpl.
  do 2 f_equal. lia.
Qed.

Lemma events_of_cons config callback offset total p rest :
  events_of config callback offset total (p :: rest)
  = (events_of config callback offset total [p]
     ++ events_of config callback (next_offset p)
          (total + Z.of_nat (length (records p))) rest)%list.
Proof. simpl. rewrite app_nil_r. by rewrite <- !app_assoc. Qed.

(** One iteration of the loop that is served a page. *)
Lemma fetchLoop_page E config onPage fuel offset acc total p w :
  module config <> "" ->
  (forall cb recs resp, onPage = Some cb -> cb recs resp = Returns tt) ->
  sugar_http E (module config) (requestBody (with_offset config offset)) = Returns p ->
  let total' := total + Z.of_nat (length (records p)) in
  let w' := after w 1 (events_of config (bool_decide (is_Some onPage)) offset total [p]) in
  fetchLoop (S fuel) E config onPage offset acc total w
  = if (10000 <? total') || negb (has_more p)
    then (Ok ((acc ++ records p)%list, total'), w')
    else fetchLoop fuel E config onPage (next_offset p) (acc ++ records p)%list total' w'.
Proof.
  intros Hm Hcb Hp total' w'. simpl fetchLoop. unfold bind at 1.
  rewrite try_catch_rethrow. unfold bind at 1.
  rewrite (sugarCRMPost_returns E (with_offset config offset) p w Hm Hp). simpl.
  fold total'. unfold w'. simpl events_of. fold total'.
  destruct onPage as [cb|]; simpl.
  - unfold bind, emit, lift; simpl. rewrite (Hcb cb _ _ eq_refl); simpl.
    destruct (10000 <? total') eqn:Hbig; simpl.
    + unfold after, push; simpl. rewrite <- !app_assoc. simpl. done.
    + destruct (has_more p); simpl; unfold after, push; simpl;
        rewrite <- !app_assoc; simpl; done.
  - unfold bind, emit; simpl.
    destruct (10000 <? total') eqn:Hbig; simpl.
    + unfold after, push; simpl. rewrite <- !app_assoc. simpl. done.
    + destruct (has_more p); simpl; unfold after, push; simpl; done.
Qed.

Lemma fetchLoop_run E config onPage pages :
  module config <> "" ->
  (forall cb recs resp, onPage = Some cb -> cb recs resp = Returns tt) ->
  forall fuel offset acc total w,
    run_of E config offset total pages ->
    (length pages <= fuel)%nat ->
    fetchLoop fuel E config onPage offset acc total w
    = (Ok ((acc ++ all_records pages)%list,
           total + Z.of_nat (length (all_records pages))),
       after w (length pages)
         (events_of config (bool_decide (is_Some onPage)) offset total pages)).
Proof.
  intros Hm Hcb. induction pages as [|p rest IH]; intros fuel offset acc total w Hrun Hfuel;
    [done|].
  destruct fuel as [|fuel]; [simpl in Hfuel; lia|].
  destruct Hrun as [Hp Hrest].
  rewrite (fetchLoop_page E config onPage fuel offset acc total p w Hm Hcb Hp).
  unfold all_records. simpl fmap. simpl concat. rewrite length_app, Nat2Z.inj_add.
  destruct rest as [|q rest'].
  - simpl in Hrest.
    assert ((10000 <? total + Z.of_nat (length (records p))) || negb (has_more p) = true)
      as ->.
    { destruct Hrest as [->|Hbig]; [by rewrite orb_true_r|].
      apply Z.ltb_lt in Hbig. by rewrite Hbig. }
    simpl. rewrite !app_nil_r, Z.add_0_r. reflexivity.
  - destruct Hrest as (Hmore & Hsmall & Hrest).
    assert ((10000 <? total + Z.of_nat (length (records p))) || negb (has_more p) = false)
      as ->.
    { rewrite Hmore. apply Z.ltb_ge in Hsmall. by rewrite Hsmall. }
    rewrite (IH fuel _ _ _ _ Hrest) by (simpl in Hfuel |- *; lia).
    rewrite after_after, <- app_assoc, Z.add_assoc.
    change (1 + length (q :: rest'))%nat with (length (p :: q :: rest')).
    by rewrite <- events_of_cons.
Qed.

(** The whole fetch, served [pages]. *)
Lemma fetchAllRecords_served
    (E : Env) (config : QueryConfig) (onPage : option page_callback)
    (pages : list Page) (fuel : nat) (w : World) :
  module config <> "" ->
  (forall cb recs resp, onPage = Some cb -> cb recs resp = Returns tt) ->
  run_of E config 0 0 pages ->
  (length pages <= fuel)%nat ->
  fetchAllRecords fuel E config onPage w
  = (Ok {| fetched_records := all_records pages;
           total_fetched := Z.of_nat (length (all_records pages));
           fetched_module := module config;
           fetched_timestamp := clock E (tick w + length pages) |},
     after w (S (length pages))
       (events_of config (bool_decide (is_Some onPage)) 0 0 pages)).
Proof.
  intros Hm Hcb Hrun Hfuel. unfold fetchAllRecords, bind at 1.
  rewrite (fetchLoop_run E config onPage pages Hm Hcb fuel 0 [] 0 w Hrun Hfuel).
  unfold bind, now, ret, after; simpl. do 2 f_equal. lia.
Qed.

(** ** Examples *)

Definition account (id : string) : obj := {["id" := VStr id]}.

Definition first_page : Page :=
  {| records := [account "a"; account "b"]; has_more := true; next_offset := 7;
     total_count := VNum 3 |}.

Definition second_page : Page :=
  {| records := [account "c"]; has_more := false; next_offset := -1;
     total_count := VNum 3 |}.

(** More records than the bound in one page, and more announced. *)
Definition huge_page : Page :=
  {| records := replicate (Z.to_nat 10001) (account "x"); has_more := true;
     next_offset := 10001; total_count := VNum 20000 |}.

Definition two_pages : Env :=
  {| clock := λ t, "2025-10-03T10:00:0" ++ pretty (Z.of_nat t) ++ ".000Z";
     config := Throws "ENOENT";
     sugar_http := λ module body,
       if String.eqb module "Huge" then Returns huge_page
       else if rb_offset body =? 0 then Returns first_page
       else if rb_offset body =? 7 then Returns second_page
       else Throws "HTTP 500";
     portal_base_url := "http://localhost:3001";
     portal_http := λ _ _, Throws "offline";
     pool := Returns tt;
     db := λ _, Returns [] |}.

Definition accounts_query (module : string) : QueryConfig :=
  {| module := module; filters := None; fields := None; maxResults := Some 2;
     offset := None; orderBy := None; orderDirection := None |}.

Definition fresh : World :=
  {| tick := 0; sync_file := None; ledger := []; trace := [] |}.

(** ** The claim *)

(** C6: a fetch that is served [pages] in the way [run_of] describes
    (first request at offset 0, every next request at the [next_offset]
    of the page before, going on exactly after the pages that declare
    more data and leave the total at or under 10,000) returns, without
    an error, the records of all the pages in order and their number;
    its calls are, page after page, the request at the current offset,
    the per-page callback if one was given and, once the total has
    passed 10,000, the warning. *)
Theorem fetchAllRecords_follows_the_cursor
    (E : Env) (config : QueryConfig) (onPage : option page_callback)
    (pages : list Page) (fuel : nat) (w : World) :
  module config <> "" ->
  (forall cb recs resp, onPage = Some cb -> cb recs resp = Returns tt) ->
  run_of E config 0 0 pages ->
  (length pages <= fuel)%nat ->
  fetchAllRecords fuel E config onPage w
  = (Ok {| fetched_records := all_records pages;
           total_fetched := Z.of_nat (length (all_records pages));
           fetched_module := module config;
           fetched_timestamp := clock E (tick w + length pages) |},
     after w (S (length pages))
       (events_of config (bool_decide (is_Some onPage)) 0 0 pages)).
Proof. apply fetchAllRecords_served. Qed.

Lemma fetchAllRecords_follows_the_cursor_witness :
  (exists w',
      fetchAllRecords 5 two_pages (accounts_query "Accounts") (Some (λ _ _, Returns tt)) fresh
      = (Ok {| fetched_records := [account "a"; account "b"; account "c"];
               total_fetched := 3; fetched_module := "Accounts";
               fetched_timestamp := "2025-10-03T10:00:02.000Z" |}, w')
      /\ trace w'
         = [ EQuery "Accounts" (requestBody (with_offset (accounts_query "Accounts") 0));
             EPageCallback (records first_page) first_page;
             EQuery "Accounts" (requestBody (with_offset (accounts_query "Accounts") 7));
             EPageCallback (records second_page) second_page ])
  /\ (exists r w',
        fetchAllRecords 1 two_pages (accounts_query "Huge") None fresh = (Ok r, w')
        /\ total_fetched r = 10001
        /\ trace w'
           = [ EQuery "Huge" (requestBody (with_offset (accounts_query "Huge") 0));
               EWarn too_many ]).
Proof.
  split.
  - eexists. split.
    + rewrite (fetchAllRecords_follows_the_cursor two_pages (accounts_query "Accounts")
                 (Some (λ _ _, Returns tt)) [first_page; second_page] 5 fresh).
      * reflexivity.
      * discriminate.
      * intros cb recs resp [= <-]. reflexivity.
      * simpl. split; [reflexivity|]. split; [reflexivity|]. split; [lia|].
        split; [reflexivity|]. by left.
      * simpl. lia.
    + reflexivity.
  - eexists _, _. split.
    + rewrite (fetchAllRecords_follows_the_cursor two_pages (accounts_query "Huge")
                 None [huge_page] 1 fresh).
      * reflexivity.
      * discriminate.
      * discriminate.
      * simpl. split; [reflexivity|]. right. vm_compute. reflexivity.
      * simpl. lia.
    + split; [vm_compute; reflexivity|]. vm_compute. reflexivity.
Defined.

End SugarCRMSpec.

(* ===================================================================== *)
(** * Properties of the outcome ledger                                    *)
(* ===================================================================== *)

Module IntegrationLoggerSpec.
Import Js Runtime IntegrationLogger.

(** An entry lacks a required field. *)
Definition incomplete (logData : obj) : bool :=
  falsy (get logData "log_type") || falsy (get logData "module_name")
  || falsy (get logData "message").

(** The database refuses the row, or cannot be reached at all. *)
Definition write_fails (E : Env) (logData : obj) : Prop :=
  (exists e, pool E = Throws e)
  \/ (exists e, db E (params_of logData) = Throws e)
  \/ db E (params_of logData) = Returns [].

Lemma formatForUUID_shape v :
  formatForUUID v = if truthy v && uuidRegex (toString v) then v else VNull.
Proof. unfold formatForUUID, falsy. by destruct (truthy v), (uuidRegex _). Qed.

(** ** Examples *)

Definition down : Env :=
  {| clock := λ _, "2025-10-04T11:00:00.000Z";
     config := Throws "ENOENT";
     sugar_http := λ _ _, Throws "offline";
     portal_base_url := "http://localhost:3001";
     portal_http := λ _ _, Throws "offline";
     pool := Returns tt;
     db := λ _, Throws "connect ECONNREFUSED 127.0.0.1:5432" |}.

Definition entry : obj :=
  list_to_map
    [ ("log_type", VStr "Info");
      ("module_name", VStr "Members");
      ("sugar_id", VStr "TM001");
      ("portal_id", VStr "41ebddea-5c63-11ee-87d0-00155d641607");
      ("message", VStr "Member created") ].

Definition empty_ledger : World :=
  {| tick := 0; sync_file := None; ledger := []; trace := [] |}.

(** A database that accepts every row. *)
Definition up : Env :=
  {| clock := λ _, "2025-10-04T11:00:00.000Z";
     config := Throws "ENOENT";
     sugar_http := λ _ _, Throws "offline";
     portal_base_url := "http://localhost:3001";
     portal_http := λ _ _, Throws "offline";
     pool := Returns tt;
     db := λ _, Returns [ {[ "id" := VNum 7;
                             "log_date" := VStr "2025-10-04T11:00:00.000Z" ]} ] |}.

(** ** The claim *)

(** C9: [logIntegration] never throws.  An entry that lacks [log_type],
    [module_name] or [message] is answered with the failure naming the
    required fields and nothing is written.  Otherwise the row handed to
    the database carries, for [sugar_id] and [portal_id], the supplied
    value when it has the shape of a UUID and [null] when it has not;
    when the database accepts that row it is stored and the answer is
    the success with the identifier and the date of the stored row, so
    that an identifier of another shape is stored as [null] and not
    rejected; and a write that fails (no pool, a refused statement, no
    row returned) is answered with a failure carrying the error. *)
Theorem logIntegration_never_throws (E : Env) (logData : obj) (w : World) :
  exists r w',
    logIntegration E logData w = (Ok r, w')
    /\ (incomplete logData = true -> r = LogFailed missing_fields /\ w' = w)
    /\ (incomplete logData = false ->
        params_of logData !! 2%nat
        = Some (if truthy (get logData "sugar_id")
                   && uuidRegex (toString (get logData "sugar_id"))
                then get logData "sugar_id" else VNull)
        /\ params_of logData !! 3%nat
           = Some (if truthy (get logData "portal_id")
                      && uuidRegex (toString (get logData "portal_id"))
                   then get logData "portal_id" else VNull)
        /\ (success r = true -> ledger w' = push (ledger w) (params_of logData))
        /\ (write_fails E logData -> success r = false)
        /\ match pool E, db E (params_of logData) with
           | Returns _, Returns (logEntry :: _) =>
               r = LogSaved (get logEntry "id") (get logEntry "log_date")
               /\ ledger w' = push (ledger w) (params_of logData)
               /\ trace w' = push (trace w) (EInsert (params_of logData))
           | Returns _, Returns [] =>
               r = LogFailed "Failed to insert integration log"
               /\ trace w' = push (trace w) (EInsert (params_of logData))
           | Returns _, Throws message =>
               r = LogFailed (if String.eqb message ""
                              then "Failed to insert integration log" else message)
               /\ ledger w' = ledger w
               /\ trace w' = push (trace w) (EInsert (params_of logData))
           | Throws message, _ => r = LogFailed message /\ w' = w
           end)
    /\ (success r = false -> exists error, r = LogFailed error)
    /\ sync_file w' = sync_file w /\ tick w' = tick w.
Proof.
  unfold logIntegration. fold (incomplete logData).
  destruct (incomplete logData) eqn:Hinc.
  - eexists _, _. split; [reflexivity|]. split; [done|]. split; [done|]. eauto.
  - assert (forall k, formatForUUID (or_null logData k)
                      = if truthy (get logData k) && uuidRegex (toString (get logData k))
                        then get logData k else VNull) as Hid.
    { intros k. rewrite formatForUUID_shape. unfold or_null.
      by destruct (get logData k). }
    unfold try_catch, bind, query, lift, emit, insert_row, ret, throw.
    destruct (pool E) as [[]|e] eqn:Hpool; simpl.
    + destruct (db E (params_of logData)) as [[|row rest]|e] eqn:Hdb; simpl;
        (eexists _, _; split; [reflexivity|]; split; [done|];
         split; [|repeat apply conj; simpl; (done || eauto)]);
        intros _; simpl; rewrite !Hid; repeat apply conj; try done.
      intros [[e He]|[[e He]|He]]; congruence.
    + eexists _, _. split; [reflexivity|]. split; [done|].
      split; [|repeat apply conj; simpl; (done || eauto)].
      intros _. simpl. rewrite !Hid. repeat apply conj; done.
Qed.

Lemma logIntegration_never_throws_witness :
  (exists w',
     logIntegration down entry empty_ledger
     = (Ok (LogFailed "connect ECONNREFUSED 127.0.0.1:5432"), w')
     /\ params_of entry !! 2%nat = Some VNull
     /\ params_of entry !! 3%nat = Some (VStr "41ebddea-5c63-11ee-87d0-00155d641607")
     /\ ledger w' = [])
  /\ (exists w',
        logIntegration up entry empty_ledger
        = (Ok (LogSaved (VNum 7) (VStr "2025-10-04T11:00:00.000Z")), w')
        /\ ledger w'
           = [ [ VStr "Info"; VStr "Members"; VNull;
                 VStr "41ebddea-5c63-11ee-87d0-00155d641607"; VNull; VNull;
                 VStr "Member created" ] ]).
Proof.
  split.
  - destruct (logIntegration_never_throws down entry empty_ledger)
      as (r & w' & Hrun & _ & Hfull & _).
    destruct (Hfull ltac:(reflexivity)) as (H2 & H3 & _ & _ & Hcase).
    simpl in Hcase. destruct Hcase as (-> & Hledger & _).
    exists w'. split; [exact Hrun|]. split; [exact H2|]. split; [exact H3|]. exact Hledger.
  - destruct (logIntegration_never_throws up entry empty_ledger)
      as (r & w' & Hrun & _ & Hfull & _).
    destruct (Hfull ltac:(reflexivity)) as (_ & _ & _ & _ & Hcase).
    simpl in Hcase. destruct Hcase as (-> & Hledger & _).
    exists w'. split; [exact Hrun|]. exact Hledger.
Defined.

End IntegrationLoggerSpec.

(* ===================================================================== *)
(** * Properties of the per-record processing                             *)
(* ===================================================================== *)

Module ProcessingSpec.
Import Js Runtime Tasks.

(** What the processing makes of one record when the clock stands at
    [t]: the shaped data when the transformation returns, the fallback
    built from the raw record when it throws. *)
Definition processed_at (E : Env) (mappingType : string) (shape fallback : obj -> obj)
    (t : nat) (record processed : obj) : Prop :=
  match (Transformer.transformSugarcrmToPortal (config E) (clock E) t record
           mappingType).1 with
  | Returns r => processed = shape (Transformer.data r)
  | Throws _ => processed = fallback record
  end.


Lemma process_one E mappingType shape fallback record w :
  exists processed w',
    try_catch
      (bind (transform E record mappingType)
         (λ transformation, ret (shape (Transformer.data transformation))))
      (λ _, ret (fallback record)) w
    = (Ok processed, w')
    /\ processed_at E mappingType shape fallback (tick w) record processed
    /\ sync_file w' = sync_file w /\ ledger w' = ledger w /\ trace w' = trace w.
Proof.
  unfold try_catch, bind, transform, processed_at.
  destruct (Transformer.transformSugarcrmToPortal _ _ _ _ _) as [[r|e] t]; simpl;
    eexists _, _; (split; [reflexivity|]); simpl; done.
Qed.






(** ** Examples *)

(** No mapping can be loaded: every transformation throws. *)
Definition no_config : Env :=
  {| clock := λ _, "2025-10-05T12:00:00.000Z";
     config := Throws "ENOENT: no such file or directory";
     sugar_http := λ _ _, Throws "offline";
     portal_base_url := "http://localhost:3001";
     portal_http := λ _ _, Throws "offline";
     pool := Returns tt;
     db := λ _, Returns [] |}.


Definition john : obj :=
  list_to_map [("id", VStr "41ebddea"); ("name", VStr "John Smith");
               ("status_c", VStr "Active")].

Definition idle : World :=
  {| tick := 0; sync_file := None; ledger := []; trace := [] |}.

(** ** The claim *)



(** A batch of two members, processed while no mapping can be loaded. *)
Example members_fallbacks :
  exists w',
    processRecordsForPortalMembers no_config [john; ∅] idle
    = (Ok [ member_fallback john; member_fallback ∅ ], w')
    /\ get (member_fallback john) "sugarcrm_id" = VStr "41ebddea"
    /\ get (member_fallback john) "member_name" = VStr "John Smith"
    /\ get (member_fallback john) "status_c" = VNull
    /\ get (member_fallback ∅) "sugarcrm_id" = VNull.
Proof. eexists. repeat split; reflexivity. Qed.

End ProcessingSpec.

(* ===================================================================== *)
(** * Properties of the sync tasks                                        *)
(* ===================================================================== *)

Module TasksSpec.
Import Js Runtime Tasks SyncTrackerSpec.

(** The checkpoint of an entity type as a reader of the file finds it. *)
Definition checkpoint (e : EntityType) (w : World) : option obj :=
  List.find (SyncTracker.resolves (checkpoint_of e)) (stored_records w).

Definition last_sync_at_of (e : EntityType) (w : World) : value :=
  match checkpoint e w with
  | Some record => get record "last_sync_at"
  | None => VUndef
  end.

Definition status_of (e : EntityType) (w : World) : value :=
  match checkpoint e w with
  | Some record => get record "status"
  | None => VUndef
  end.

(** The pushes among the calls of a run. *)
Definition pushes (events : list event) : list event :=
  List.filter (λ e, match e with EPush _ _ => true | _ => false end) events.

(** ** Examples *)

Definition direct (portal : string) : Transformer.MappingConfig :=
  {| Transformer.portal_field := portal; Transformer.required := false;
     Transformer.transform := "direct" |}.

Definition mappings : gmap string Transformer.FieldMapping :=
  list_to_map
    [ ("sugarcrm_to_portal_cases",
       {| Transformer.field_mappings :=
            [("id", direct "case_id"); ("name", direct "name");
             ("case_number", direct "case_number")];
          Transformer.default_values := None;
          Transformer.computed_fields := None;
          Transformer.validation_rules := None |});
      ("sugarcrm_to_portal_members",
       {| Transformer.field_mappings :=
            [("id", direct "sugarcrm_id"); ("name", direct "member_name");
             ("tm_id_c", direct "tm_id_c")];
          Transformer.default_values := None;
          Transformer.computed_fields := None;
          Transformer.validation_rules := None |});
      ("sugarcrm_to_portal_auditors",
       {| Transformer.field_mappings :=
            [("id", direct "sugarcrm_id"); ("name", direct "name")];
          Transformer.default_values := None;
          Transformer.computed_fields := None;
          Transformer.validation_rules := None |}) ].

Definition modified (id date : string) : obj :=
  list_to_map [("id", VStr id); ("name", VStr ("record " ++ id));
               ("date_modified", VStr date)].

(** Five records, all modified after the first of September. *)
Definition five : list obj :=
  [ modified "1" "2025-09-02T10:00:00.000Z"; modified "2" "2025-09-03T10:00:00.000Z";
    modified "3" "2025-09-04T10:00:00.000Z"; modified "4" "2025-09-05T10:00:00.000Z";
    modified "5" "2025-09-06T10:00:00.000Z" ].

Definition clock2 (t : nat) : string :=
  "2025-10-06T06:00:" ++ (if (t <? 10)%nat then "0" else "") ++ pretty (Z.of_nat t)
  ++ ".000Z".

(** A Source that holds [five] under every module, and a Destination
    that answers every push with [answer]. *)
Definition world_of (answer : result value) : Env :=
  {| clock := clock2;
     config := Returns mappings;
     sugar_http := Source.query (λ _ _, true) (λ _, five);
     portal_base_url := "http://localhost:3001";
     portal_http := λ _ _, answer;
     pool := Returns tt;
     db := λ _, Returns [ {["id" := VNum 1]} ] |}.

Definition unavailable : Env :=
  world_of (Throws "HTTP 503: Service Unavailable - upstream down").

Definition accepted : Env :=
  world_of (Returns (VArr [ VObj [("logType", VStr "Info");
                                  ("moduleName", VStr "Auditors");
                                  ("internalStatus", VStr "Success");
                                  ("message", VStr "ok")] ])).

Definition checkpoint_record (name last_sync_at : string) : obj :=
  list_to_map
    [ ("module_name", VStr name);
      ("integration_name", VStr ("sugarcrm_" ++ name));
      ("direction", VStr "inbound");
      ("status", VStr "success");
      ("last_sync_at", VStr last_sync_at);
      ("updated_at", VStr last_sync_at) ].

Definition september : string := "2025-09-01T00:00:00.000Z".

Definition start : World :=
  {| tick := 0;
     sync_file :=
       Some {| sync_records := [ checkpoint_record "Members" september;
                                 checkpoint_record "Cases" september;
                                 checkpoint_record "Auditors" september ];
               metadata := VObj [("version", VStr "1.0.0")] |};
     ledger := []; trace := [] |}.

(** ** Concrete runs *)

Definition failed_cases_run : outcome unit * World :=
  SugarImportCasesToPortalCases 3 unavailable start.

Definition failed_members_run : outcome unit * World :=
  SugarCRMAccountToPortalMember 3 unavailable start.

Definition first_auditors_run : outcome unit * World :=
  sync AuditorsEntity 3 accepted start.

Definition second_auditors_run : outcome unit * World :=
  sync AuditorsEntity 3 accepted first_auditors_run.2.

(** C2, a defect of the code: a failed run must leave [last_sync_at] as
    it was.  The Destination refuses the push of the five records that
    the cases task has fetched: the error is raised again and the
    checkpoint is marked [failed], but the [catch] block also supplies
    the time of the failure as [last_sync_at], so that the stored value
    moves from the first of September to the time of the failed run. *)
Theorem cases_failure_moves_last_sync_at :
  failed_cases_run.1
  = Throw "Portal API call failed: HTTP 503: Service Unavailable - upstream down"
  /\ pushes (trace failed_cases_run.2)
     = [ EPush "http://localhost:3001/api/integration/SugarCasesToPortalCases"
           (case_shape <$> [ {["case_id" := VStr "1"; "name" := VStr "record 1"]};
                   {["case_id" := VStr "2"; "name" := VStr "record 2"]};
                   {["case_id" := VStr "3"; "name" := VStr "record 3"]};
                   {["case_id" := VStr "4"; "name" := VStr "record 4"]};
                   {["case_id" := VStr "5"; "name" := VStr "record 5"]} ]) ]
  /\ last_sync_at_of CasesEntity start = VStr "2025-09-01T00:00:00.000Z"
  /\ status_of CasesEntity failed_cases_run.2 = VStr "failed"
  /\ last_sync_at_of CasesEntity failed_cases_run.2 = VStr "2025-10-06T06:00:02.000Z".
Proof. repeat apply conj; vm_compute; reflexivity. Qed.

(** The members task, whose [catch] block supplies no [last_sync_at],
    keeps the stored one when it fails. *)
Example members_failure_keeps_last_sync_at :
  failed_members_run.1 = Throw "accountsWithOfficers is not defined"
  /\ pushes (trace failed_members_run.2) = []
  /\ status_of MembersEntity failed_members_run.2 = VStr "failed"
  /\ last_sync_at_of MembersEntity failed_members_run.2
     = VStr "2025-09-01T00:00:00.000Z".
Proof. repeat apply conj; vm_compute; reflexivity. Qed.

(** C3 as stated fails for the auditors.  The first run fetches the
    five records, pushes them and stamps the checkpoint; the second run,
    against the same Source, fetches nothing and pushes nothing, and
    returns without writing the checkpoint: [last_sync_at] is still the
    time of the first run, which the clock of the second run has
    passed. *)
Lemma auditors_second_run_counterexample :
  first_auditors_run.1 = Ok tt
  /\ second_auditors_run.1 = Ok tt
  /\ last_sync_at_of AuditorsEntity first_auditors_run.2 = VStr (clock2 2)
  /\ length (trace second_auditors_run.2) = S (length (trace first_auditors_run.2))
  /\ pushes (trace second_auditors_run.2) = pushes (trace first_auditors_run.2)
  /\ tick first_auditors_run.2 = 4%nat
  /\ tick second_auditors_run.2 = 6%nat
  /\ sync_file second_auditors_run.2 = sync_file first_auditors_run.2
  /\ last_sync_at_of AuditorsEntity second_auditors_run.2 = VStr (clock2 2).
Proof. repeat apply conj; vm_compute; reflexivity. Qed.

(** A Destination that answers a push with a message instead of an
    array: the summary of the cases task calls [forEach] on the string,
    so the run fails after the push and the checkpoint is marked
    [failed].  An answer that is an object without a length is not
    summarised, and the run commits. *)
Definition acknowledged_cases_run : outcome unit * World :=
  sync CasesEntity 3 (world_of (Returns (VStr "accepted"))) start.

Definition confirmed_cases_run : outcome unit * World :=
  sync CasesEntity 3 (world_of (Returns (VObj [("ok", VBool true)]))) start.

Example a_message_fails_the_cases_run :
  acknowledged_cases_run.1 = Throw "portalResponse.forEach is not a function"
  /\ length (pushes (trace acknowledged_cases_run.2)) = 1%nat
  /\ status_of CasesEntity acknowledged_cases_run.2 = VStr "failed"
  /\ confirmed_cases_run.1 = Ok tt
  /\ status_of CasesEntity confirmed_cases_run.2 = VStr "success".
Proof. repeat apply conj; vm_compute; reflexivity. Qed.

(** ** Reasoning about runs *)

Lemma bind_ok {A B : Type} (m : M A) (k : A -> M B) w b w' :
  bind m k w = (Ok b, w') -> exists a w1, m w = (Ok a, w1) /\ k a w1 = (Ok b, w').
Proof. unfold bind. destruct (m w) as [[a|e|] w1]; [eauto|done|done]. Qed.

Lemma bind_eq {A B : Type} (m : M A) (k : A -> M B) w a w1 :
  m w = (Ok a, w1) -> bind m k w = k a w1.
Proof. unfold bind. by intros ->. Qed.

Lemma bind_throw_not_ok {A B : Type} (m : M A) (e : string) w (b : B) w' :
  bind m (λ _, throw e) w <> (Ok b, w').
Proof. unfold bind, throw. by destruct (m w) as [[a|e'|] w1]. Qed.

Lemma try_catch_ok {A : Type} (m : M A) (h : string -> M A) w a w' :
  (forall e w1, h e w1 <> (Ok a, w')) ->
  try_catch m h w = (Ok a, w') -> m w = (Ok a, w').
Proof.
  intros Hh. unfold try_catch. destruct (m w) as [[x|e|] w1]; [done| |done].
  intros H. by apply Hh in H.
Qed.

Lemma try_catch_eq {A : Type} (m : M A) (h : string -> M A) w a w1 :
  m w = (Ok a, w1) -> try_catch m h w = (Ok a, w1).
Proof. unfold try_catch. by intros ->. Qed.

Lemma lift_ok {A : Type} (r : result A) w a w' :
  lift r w = (Ok a, w') -> r = Returns a /\ w' = w.
Proof. destruct r; simpl; unfold ret, throw; [by intros [= -> ->]|done]. Qed.

Lemma now_eq E w :
  now E w = (Ok (clock E (tick w)),
             {| tick := S (tick w); sync_file := sync_file w;
                ledger := ledger w; trace := trace w |}).
Proof. reflexivity. Qed.

(** ** The checkpoint across an update *)

Lemma findIndex_insert identifier l i r' :
  SyncTracker.findIndex identifier l = Some i ->
  SyncTracker.resolves identifier r' = true ->
  SyncTracker.findIndex identifier (<[i := r']> l) = Some i.
Proof.
  revert i. induction l as [|r l IH]; intros i; simpl; [done|].
  destruct (SyncTracker.resolves identifier r) eqn:Hr.
  - intros [= <-] Hr'. simpl. by rewrite Hr'.
  - destruct (SyncTracker.findIndex identifier l) as [j|] eqn:Hj; simpl; [|done].
    intros [= <-] Hr'. simpl. rewrite Hr. by rewrite (IH j eq_refl Hr').
Qed.

Lemma resolves_merged identifier record updateData now :
  updateData !! "module_name" = None ->
  updateData !! "integration_name" = None ->
  SyncTracker.resolves identifier
    (SyncTracker.jsonify_obj (SyncTracker.merged record updateData now))
  = SyncTracker.resolves identifier record.
Proof.
  intros H1 H2. unfold SyncTracker.resolves.
  rewrite !get_jsonify_obj, !JsonSpec.is_str_jsonify. unfold get.
  rewrite !merged_other by done. by rewrite H1, H2.
Qed.

Lemma updateSyncRecord_ok_inv E identifier updateData w u w' :
  SyncTracker.updateSyncRecord E identifier updateData w = (Ok u, w') ->
  exists i record,
    SyncTracker.findIndex identifier (stored_records w) = Some i
    /\ stored_records w !! i = Some record
    /\ SyncTracker.resolves identifier record = true
    /\ u = SyncTracker.merged record updateData (clock E (tick w))
    /\ stored_records w' = <[i := SyncTracker.jsonify_obj u]> (stored_records w)
    /\ tick w' = S (tick w) /\ ledger w' = ledger w /\ trace w' = trace w.
Proof.
  intros Hrun.
  destruct (SyncTracker.findIndex identifier (stored_records w)) as [i|] eqn:Hi.
  - destruct (findIndex_lookup _ _ _ Hi) as [record [Hrec Hres]].
    destruct (updateSyncRecord_found E identifier updateData w i record Hi Hrec)
      as (w2 & Hrun2 & Hst & Ht & Hl & Htr).
    rewrite Hrun2 in Hrun. injection Hrun as <- <-.
    exists i, record. by repeat apply conj.
  - destruct (updateSyncRecord_missing E identifier updateData w Hi) as (w2 & Hrun2 & _).
    congruence.
Qed.

(** What a reader finds after an update that leaves the two names of
    the checkpoint alone. *)
Lemma checkpoint_after_update identifier (l : list obj) i record updateData now :
  SyncTracker.findIndex identifier l = Some i ->
  l !! i = Some record ->
  SyncTracker.resolves identifier record = true ->
  updateData !! "module_name" = None ->
  updateData !! "integration_name" = None ->
  let stored := SyncTracker.jsonify_obj (SyncTracker.merged record updateData now) in
  SyncTracker.findIndex identifier (<[i := stored]> l) = Some i
  /\ <[i := stored]> l !! i = Some stored
  /\ List.find (SyncTracker.resolves identifier) (<[i := stored]> l) = Some stored.
Proof.
  intros Hi Hrec Hres H1 H2 stored.
  assert (SyncTracker.findIndex identifier (<[i := stored]> l) = Some i) as Hi'.
  { apply findIndex_insert; [done|]. unfold stored. by rewrite resolves_merged. }
  assert (<[i := stored]> l !! i = Some stored) as Hl.
  { apply list_lookup_insert_eq. by eapply lookup_lt_Some. }
  split; [done|]. split; [done|]. by eapply findIndex_find.
Qed.

(** ** A Source with nothing modified since the checkpoint *)

Definition empty_page : Page :=
  {| records := []; has_more := false; next_offset := -1; total_count := VNum 0 |}.

Lemma filter_none {A : Type} (p : A -> bool) (l : list A) :
  (forall x, In x l -> p x = false) -> List.filter p l = [].
Proof.
  induction l as [|x l IH]; intros H; simpl; [done|].
  rewrite (H x) by (by left). apply IH. intros y Hy. apply H. by right.
Qed.

Lemma query_nothing_since others data module body since rest :
  rb_filter body = Some (modified_since since :: rest) ->
  (forall r, In r (data module) ->
     Source.matches others (modified_since since) r = false) ->
  Source.query others data module body = Returns empty_page.
Proof.
  intros Hf Hnone. unfold Source.query.
  rewrite (filter_none (Source.selected others body) (data module)).
  - rewrite drop_nil, take_nil. simpl length.
    assert ((Z.to_nat (rb_offset body) + Z.to_nat (max_num body) <? 0)%nat = false) as ->
      by (apply Nat.ltb_ge; lia).
    reflexivity.
  - intros r Hr. unfold Source.selected. rewrite Hf. simpl. by rewrite (Hnone r Hr).
Qed.

Lemma stored_records_same w w' :
  sync_file w' = sync_file w -> stored_records w' = stored_records w.
Proof. unfold stored_records. by intros ->. Qed.

Lemma truthy_stamp s : s <> "" -> truthy (VStr s) = true.
Proof. intros H. simpl. by destruct (String.eqb_spec s ""). Qed.

Lemma fetch_nothing_since E others data fuel module T rest fields w :
  sugar_http E = Source.query others data ->
  module <> "" ->
  (forall r, In r (data module) ->
     Source.matches others (modified_since (VStr T)) r = false) ->
  (0 < fuel)%nat ->
  let query := apiConfig module (modified_since (VStr T) :: rest) fields in
  SugarCRM.fetchAllRecords fuel E query (Some print_page) w
  = (Ok {| SugarCRM.fetched_records := [];
           SugarCRM.total_fetched := 0;
           SugarCRM.fetched_module := module;
           SugarCRM.fetched_timestamp := clock E (tick w + 1) |},
     SugarCRMSpec.after w 2
       [ EQuery module (SugarCRM.requestBody (SugarCRM.with_offset query 0));
         EPageCallback [] empty_page ]).
Proof.
  intros Hsrc Hm Hnone Hfuel query.
  rewrite (SugarCRMSpec.fetchAllRecords_served E query (Some print_page) [empty_page]
             fuel w).
  - reflexivity.
  - exact Hm.
  - intros cb recs resp [= <-]. reflexivity.
  - simpl. split; [|by left]. rewrite Hsrc.
    by apply (query_nothing_since others data module _ (VStr T) rest).
  - simpl. lia.
Qed.

(** ** A run that commits, and the run after it *)

(** What a committed run leaves behind: a checkpoint that resolves,
    stamped with a reading of the clock, and a mapping that loads. *)
Definition committed (E : Env) (name mapping : string) (w : World) : Prop :=
  exists i record k fields,
    SyncTracker.findIndex name (stored_records w) = Some i
    /\ stored_records w !! i = Some record
    /\ List.find (SyncTracker.resolves name) (stored_records w) = Some record
    /\ get record "last_sync_at" = VStr (clock E k)
    /\ Transformer.getSugarcrmFields (config E) mapping = Returns fields.

Lemma committed_by_update E name mapping fields stamp total module used w u w' :
  (forall t, clock E t <> "") ->
  Transformer.getSugarcrmFields (config E) mapping = Returns fields ->
  SyncTracker.updateSyncRecord E name
    (success_update (clock E stamp) total module used) w = (Ok u, w') ->
  committed E name mapping w'.
Proof.
  intros Hclock Hfields Hupd.
  apply updateSyncRecord_ok_inv in Hupd
    as (i & record & Hi & Hrec & Hres & -> & Hst & _).
  destruct (checkpoint_after_update name (stored_records w) i record
              (success_update (clock E stamp) total module used)
              (clock E (tick w)) Hi Hrec Hres eq_refl eq_refl) as (Hi' & Hl & Hfind).
  rewrite <- Hst in Hi', Hl, Hfind.
  eexists i, _, stamp, fields. repeat apply conj; try done.
  rewrite get_jsonify_obj, merged_last_sync_at.
  change (get (success_update (clock E stamp) total module used) "last_sync_at")
    with (VStr (clock E stamp)).
  by rewrite (truthy_stamp _ (Hclock stamp)).
Qed.

Lemma import_committed T fuel E w0 w1 :
  (forall t, clock E t <> "") ->
  runImport T fuel E w0 = (Ok tt, w1) ->
  committed E (moduleName T) (mappingType T) w1.
Proof.
  intros Hclock Hrun. unfold runImport in Hrun. apply try_catch_ok in Hrun.
  2: { intros e w. unfold import_catch, bind at 1. rewrite now_eq.
       apply bind_throw_not_ok. }
  unfold import_try in Hrun.
  apply bind_ok in Hrun as (sr & wa & _ & Hrun). cbv beta zeta in Hrun.
  apply bind_ok in Hrun as (fields & wb & Hfields & Hrun).
  apply lift_ok in Hfields as [Hfields ->].
  apply bind_ok in Hrun as (fr & wc & _ & Hrun).
  apply bind_ok in Hrun as (? & wd & _ & Hrun).
  apply bind_ok in Hrun as (ts & we & Hnow & Hrun).
  rewrite now_eq in Hnow. injection Hnow as <- <-.
  apply bind_ok in Hrun as (u & wf & Hupd & Hret). injection Hret as <-.
  by eapply committed_by_update.
Qed.

Lemma members_committed fuel E w0 w1 :
  (forall t, clock E t <> "") ->
  SugarCRMAccountToPortalMember fuel E w0 = (Ok tt, w1) ->
  committed E "Members" "sugarcrm_to_portal_members" w1.
Proof.
  intros Hclock Hrun. unfold SugarCRMAccountToPortalMember in Hrun.
  apply bind_ok in Hrun as (ts & wz & Hnow & Hrun).
  rewrite now_eq in Hnow. injection Hnow as <- <-.
  apply try_catch_ok in Hrun.
  2: { intros e w. apply bind_throw_not_ok. }
  unfold members_try in Hrun.
  apply bind_ok in Hrun as (sr & wa & _ & Hrun). cbv beta zeta in Hrun.
  apply bind_ok in Hrun as (fields & wb & Hfields & Hrun).
  apply lift_ok in Hfields as [Hfields ->].
  apply bind_ok in Hrun as (fr & wc & _ & Hrun).
  apply bind_ok in Hrun as (? & wd & _ & Hrun).
  apply bind_ok in Hrun as (u & wf & Hupd & Hret). injection Hret as <-.
  by eapply committed_by_update.
Qed.

(** The end of a run that has fetched nothing: the time stamp [stamp]
    is written to the checkpoint. *)
Lemma commit_nothing E name module used stamp w i record :
  (forall t, clock E t <> "") ->
  SyncTracker.findIndex name (stored_records w) = Some i ->
  stored_records w !! i = Some record ->
  exists u w',
    SyncTracker.updateSyncRecord E name
      (success_update (clock E stamp) 0 module used) w = (Ok u, w')
    /\ tick w' = S (tick w) /\ trace w' = trace w
    /\ exists record',
         List.find (SyncTracker.resolves name) (stored_records w') = Some record'
         /\ get record' "status" = VStr "success"
         /\ get record' "last_sync_at" = VStr (clock E stamp).
Proof.
  intros Hclock Hi Hrec.
  destruct (findIndex_lookup _ _ _ Hi) as (record0 & Hrec0 & Hres).
  assert (record0 = record) as -> by congruence.
  destruct (updateSyncRecord_found E name
              (success_update (clock E stamp) 0 module used) w i record Hi Hrec)
    as (w' & Hrun & Hst & Ht & _ & Htr).
  destruct (checkpoint_after_update name (stored_records w) i record
              (success_update (clock E stamp) 0 module used)
              (clock E (tick w)) Hi Hrec Hres eq_refl eq_refl) as (_ & _ & Hfind).
  rewrite <- Hst in Hfind.
  eexists _, w'. split; [exact Hrun|]. split; [done|]. split; [done|].
  eexists. split; [exact Hfind|]. rewrite !get_jsonify_obj. split.
  - unfold get. rewrite merged_other by done. reflexivity.
  - rewrite merged_last_sync_at.
    change (get (success_update (clock E stamp) 0 module used) "last_sync_at")
      with (VStr (clock E stamp)).
    by rewrite (truthy_stamp _ (Hclock stamp)).
Qed.

Lemma committed_file E name mapping w : committed E name mapping w -> is_Some (sync_file w).
Proof.
  intros (i & record & _ & _ & _ & Hrec & _). unfold stored_records in Hrec.
  destruct (sync_file w); [eauto|done].
Qed.

Lemma import_nothing_new T fuel E others data w :
  sugar_http E = Source.query others data ->
  (forall t, clock E t <> "") ->
  sugarCRMModule T <> "" ->
  committed E (moduleName T) (mappingType T) w ->
  (forall stamp r,
     (match List.find (SyncTracker.resolves (moduleName T)) (stored_records w) with
      | Some record => get record "last_sync_at"
      | None => VUndef
      end) = VStr stamp ->
     In r (data (sugarCRMModule T)) ->
     Source.matches others (modified_since (VStr stamp)) r = false) ->
  (0 < fuel)%nat ->
  exists w2 body,
    runImport T fuel E w = (Ok tt, w2)
    /\ trace w2 = (trace w ++ [EQuery (sugarCRMModule T) body;
                               EPageCallback [] empty_page])%list
    /\ rb_offset body = 0
    /\ sugar_http E (sugarCRMModule T) body = Returns empty_page
    /\ tick w2 = (tick w + 4)%nat
    /\ exists record',
         List.find (SyncTracker.resolves (moduleName T)) (stored_records w2)
         = Some record'
         /\ get record' "status" = VStr "success"
         /\ get record' "last_sync_at" = VStr (clock E (tick w + 2)).
Proof.
  intros Hsrc Hclock Hm Hcom Hnone Hfuel.
  pose proof (committed_file _ _ _ _ Hcom) as Hsome.
  destruct Hcom as (i & record & k & fields & Hi & Hrec & Hfind & Hlsa & Hfields).
  rewrite Hfind, Hlsa in Hnone. pose proof (λ r, Hnone (clock E k) r eq_refl) as Hnone'.
  destruct (getSyncRecord_stored E (moduleName T) w) as (w' & Hget & _ & _ & _ & Hsame).
  rewrite (Hsame Hsome), Hfind in Hget.
  set (w3 := SugarCRMSpec.after w 2
               [ EQuery (sugarCRMModule T)
                   (SugarCRM.requestBody
                      (SugarCRM.with_offset
                         (apiConfig (sugarCRMModule T)
                            (modified_since (VStr (clock E k)) :: staticFilters T) fields) 0));
                 EPageCallback [] empty_page ]).
  set (w4 := {| tick := S (tick w3); sync_file := sync_file w3;
                ledger := ledger w3; trace := trace w3 |}).
  destruct (commit_nothing E (moduleName T) (sugarCRMModule T) (VStr (clock E k))
              (tick w3) w4 i record Hclock Hi Hrec)
    as (u & w5 & Hupd & Ht & Htr & Hcheck).
  exists w5. eexists. split.
  - unfold runImport. apply try_catch_eq. unfold import_try.
    rewrite (bind_eq _ _ _ _ _ Hget). cbv beta zeta.
    rewrite Hlsa, (truthy_stamp _ (Hclock k)), Hfields. simpl app.
    rewrite (bind_eq _ _ _ _ _ (eq_refl : lift (Returns fields) w = (Ok fields, w))).
    rewrite (bind_eq _ _ _ _ _
               (fetch_nothing_since E others data fuel (sugarCRMModule T) (clock E k)
                  (staticFilters T) fields w Hsrc Hm Hnone' Hfuel)).
    simpl SugarCRM.fetched_records. cbv iota.
    rewrite (bind_eq _ _ _ _ _ (eq_refl : ret tt w3 = (Ok tt, w3))).
    rewrite (bind_eq _ _ _ _ _ (now_eq E w3)). fold w4.
    simpl SugarCRM.total_fetched.
    rewrite (bind_eq _ _ _ _ _ Hupd). reflexivity.
  - split; [by rewrite Htr|]. split; [reflexivity|].
    split.
    { rewrite Hsrc.
      by apply (query_nothing_since others data _ _ (VStr (clock E k)) (staticFilters T)). }
    split; [rewrite Ht; simpl; lia|].
    destruct Hcheck as (record' & ? & ? & Hl). exists record'.
    split; [done|]. split; [done|]. rewrite Hl. reflexivity.
Qed.

Lemma members_nothing_new fuel E others data w :
  sugar_http E = Source.query others data ->
  (forall t, clock E t <> "") ->
  committed E "Members" "sugarcrm_to_portal_members" w ->
  (forall stamp r,
     (match List.find (SyncTracker.resolves "Members") (stored_records w) with
      | Some record => get record "last_sync_at"
      | None => VUndef
      end) = VStr stamp ->
     In r (data "Accounts") ->
     Source.matches others (modified_since (VStr stamp)) r = false) ->
  (0 < fuel)%nat ->
  exists w2 body,
    SugarCRMAccountToPortalMember fuel E w = (Ok tt, w2)
    /\ trace w2 = (trace w ++ [EQuery "Accounts" body; EPageCallback [] empty_page])%list
    /\ rb_offset body = 0
    /\ sugar_http E "Accounts" body = Returns empty_page
    /\ tick w2 = (tick w + 4)%nat
    /\ exists record',
         List.find (SyncTracker.resolves "Members") (stored_records w2) = Some record'
         /\ get record' "status" = VStr "success"
         /\ get record' "last_sync_at" = VStr (clock E (tick w)).
Proof.
  intros Hsrc Hclock Hcom Hnone Hfuel.
  pose proof (committed_file _ _ _ _ Hcom) as Hsome.
  destruct Hcom as (i & record & k & fields & Hi & Hrec & Hfind & Hlsa & Hfields).
  rewrite Hfind, Hlsa in Hnone. pose proof (λ r, Hnone (clock E k) r eq_refl) as Hnone'.
  set (w1 := {| tick := S (tick w); sync_file := sync_file w;
                ledger := ledger w; trace := trace w |}).
  destruct (getSyncRecord_stored E "Members" w1) as (w' & Hget & _ & _ & _ & Hsame).
  rewrite (Hsame Hsome) in Hget.
  change (stored_records w1) with (stored_records w) in Hget. rewrite Hfind in Hget.
  set (w3 := SugarCRMSpec.after w1 2
               [ EQuery "Accounts"
                   (SugarCRM.requestBody
                      (SugarCRM.with_offset
                         (apiConfig "Accounts"
                            (modified_since (VStr (clock E k)) :: member_filters) fields) 0));
                 EPageCallback [] empty_page ]).
  destruct (commit_nothing E "Members" "Accounts" (VStr (clock E k))
              (tick w) w3 i record Hclock Hi Hrec)
    as (u & w5 & Hupd & Ht & Htr & Hcheck).
  exists w5. eexists. split.
  - unfold SugarCRMAccountToPortalMember.
    rewrite (bind_eq _ _ _ _ _ (now_eq E w)). fold w1.
    apply try_catch_eq. unfold members_try.
    rewrite (bind_eq _ _ _ _ _ Hget). cbv beta zeta.
    rewrite Hlsa, (truthy_stamp _ (Hclock k)). cbv iota.
    rewrite (truthy_stamp _ (Hclock k)), Hfields. simpl app.
    rewrite (bind_eq _ _ _ _ _ (eq_refl : lift (Returns fields) w1 = (Ok fields, w1))).
    rewrite (bind_eq _ _ _ _ _
               (fetch_nothing_since E others data fuel "Accounts" (clock E k)
                  member_filters fields w1 Hsrc ltac:(discriminate) Hnone' Hfuel)).
    simpl SugarCRM.fetched_records. cbv iota.
    rewrite (bind_eq _ _ _ _ _ (eq_refl : ret tt w3 = (Ok tt, w3))).
    simpl SugarCRM.total_fetched.
    rewrite (bind_eq _ _ _ _ _ Hupd). reflexivity.
  - split; [by rewrite Htr|]. split; [reflexivity|].
    split.
    { rewrite Hsrc.
      by apply (query_nothing_since others data _ _ (VStr (clock E k)) member_filters). }
    split; [rewrite Ht; simpl; lia|]. exact Hcheck.
Qed.

Lemma pushes_app l1 l2 : pushes (l1 ++ l2) = (pushes l1 ++ pushes l2)%list.
Proof. unfold pushes. apply List.filter_app. Qed.

Lemma pair_of_fst {A B : Type} (r : A * B) (a : A) : r.1 = a -> r = (a, r.2).
Proof. destruct r. simpl. by intros ->. Qed.

(** ** What leaves the checkpoint file alone *)

(** A computation that never writes the checkpoint file. *)
Definition keeps_file {A : Type} (m : M A) : Prop :=
  forall w, sync_file (m w).2 = sync_file w.

Create HintDb frame.

Lemma keeps_ret {A : Type} (a : A) : keeps_file (ret a).
Proof. done. Qed.

Lemma keeps_throw {A : Type} e : keeps_file (throw (A := A) e).
Proof. done. Qed.

Lemma keeps_out_of_fuel {A : Type} : keeps_file (out_of_fuel (A := A)).
Proof. done. Qed.

Lemma keeps_lift {A : Type} (r : result A) : keeps_file (lift r).
Proof. by destruct r. Qed.

Lemma keeps_now E : keeps_file (now E).
Proof. done. Qed.

Lemma keeps_emit e : keeps_file (emit e).
Proof. done. Qed.

Lemma keeps_insert_row params : keeps_file (insert_row params).
Proof. done. Qed.

Lemma keeps_bind {A B : Type} (m : M A) (k : A -> M B) :
  keeps_file m -> (forall a, keeps_file (k a)) -> keeps_file (bind m k).
Proof.
  intros Hm Hk w. unfold bind. specialize (Hm w).
  destruct (m w) as [[a|e|] w1]; simpl in *; [|done|done].
  by rewrite Hk.
Qed.

Lemma keeps_try_catch {A : Type} (m : M A) (h : string -> M A) :
  keeps_file m -> (forall e, keeps_file (h e)) -> keeps_file (try_catch m h).
Proof.
  intros Hm Hh w. unfold try_catch. specialize (Hm w).
  destruct (m w) as [[a|e|] w1]; simpl in *; [done| |done].
  by rewrite Hh.
Qed.

#[local] Hint Resolve keeps_ret keeps_throw keeps_out_of_fuel keeps_lift keeps_now keeps_emit
  keeps_insert_row : frame.
#[local] Hint Extern 2 (keeps_file (bind _ _)) => apply keeps_bind; [|intros ?] : frame.
#[local] Hint Extern 2 (keeps_file (try_catch _ _)) => apply keeps_try_catch; [|intros ?] : frame.
#[local] Hint Extern 4 (keeps_file (match ?x with _ => _ end)) => destruct x : frame.
#[local] Hint Extern 4 (keeps_file (if ?x then _ else _)) => destruct x : frame.

Lemma keeps_getSyncRecord E identifier : keeps_file (SyncTracker.getSyncRecord E identifier).
Proof.
  intros w. destruct (getSyncRecord_stored E identifier w) as (w' & -> & ? & _). done.
Qed.

Lemma keeps_sugarCRMPost E config : keeps_file (SugarCRM.sugarCRMPost E config).
Proof. unfold SugarCRM.sugarCRMPost. auto 10 with frame. Qed.

#[local] Hint Resolve keeps_getSyncRecord keeps_sugarCRMPost : frame.

Lemma keeps_fetchLoop fuel E config onPage offset acc total :
  keeps_file (SugarCRM.fetchLoop fuel E config onPage offset acc total).
Proof.
  revert offset acc total. induction fuel as [|fuel IH]; intros offset acc total; simpl;
    [auto with frame|].
  apply keeps_bind; [auto 12 with frame|].
  intros [[[continue o] a] t]. destruct continue; auto with frame.
Qed.

#[local] Hint Resolve keeps_fetchLoop : frame.

Lemma keeps_fetchAllRecords fuel E config onPage :
  keeps_file (SugarCRM.fetchAllRecords fuel E config onPage).
Proof. unfold SugarCRM.fetchAllRecords. auto 10 with frame. Qed.

Lemma keeps_transform E record mappingType : keeps_file (transform E record mappingType).
Proof.
  intros w. unfold transform.
  destruct (Transformer.transformSugarcrmToPortal _ _ _ _ _) as [[r|e] t]; done.
Qed.

#[local] Hint Resolve keeps_fetchAllRecords keeps_transform : frame.

Lemma keeps_processRecords E mappingType shape fallback records acc :
  keeps_file (processRecords E mappingType shape fallback records acc).
Proof.
  revert acc. induction records as [|r l IH]; intros acc; simpl; auto 10 with frame.
Qed.

#[local] Hint Resolve keeps_processRecords : frame.

Lemma keeps_processRecordsForPortalMembers E records :
  keeps_file (processRecordsForPortalMembers E records).
Proof. apply keeps_processRecords. Qed.

Lemma keeps_processRecordsForPortalCases E records :
  keeps_file (processRecordsForPortalCases E records).
Proof. apply keeps_processRecords. Qed.

Lemma keeps_processRecordsForPortalUsers E records :
  keeps_file (processRecordsForPortalUsers E records).
Proof. apply keeps_processRecords. Qed.

Lemma keeps_query E params : keeps_file (IntegrationLogger.query E params).
Proof. unfold IntegrationLogger.query. auto 10 with frame. Qed.

#[local] Hint Resolve keeps_query : frame.

Lemma keeps_logIntegration E logData : keeps_file (IntegrationLogger.logIntegration E logData).
Proof.
  unfold IntegrationLogger.logIntegration.
  destruct (_ || _); [auto with frame|].
  apply keeps_try_catch; [|auto with frame].
  apply keeps_bind; [auto with frame|]. intros result.
  destruct (IntegrationLogger.query_success result), (IntegrationLogger.rows result);
    auto with frame.
Qed.

#[local] Hint Resolve keeps_logIntegration : frame.

Lemma keeps_logResults E results : keeps_file (PortalAPI.logResults E results).
Proof. induction results as [|r l IH]; simpl; auto 10 with frame. Qed.

#[local] Hint Resolve keeps_logResults : frame.

Lemma keeps_callPortalAPIWithEnv E endpoint data moduleName :
  keeps_file (PortalAPI.callPortalAPIWithEnv E endpoint data moduleName).
Proof.
  unfold PortalAPI.callPortalAPIWithEnv, PortalAPI.callPortalAPI.
  apply keeps_try_catch; [|auto 10 with frame].
  apply keeps_bind; [auto with frame|]. intros _.
  apply keeps_bind; [auto with frame|]. intros responseData.
  destruct responseData; auto 10 with frame.
Qed.

#[local] Hint Resolve keeps_callPortalAPIWithEnv : frame.

Lemma keeps_syncToPortalWithPrefix E endpoint moduleName batch :
  keeps_file (syncToPortalWithPrefix E endpoint moduleName batch).
Proof.
  unfold syncToPortalWithPrefix. destruct batch; [auto with frame|].
  apply keeps_try_catch; [|auto with frame].
  apply keeps_bind; [auto with frame|]. intros response.
  destruct (PortalAPI.reply_success response); auto with frame.
Qed.

Lemma keeps_syncToPortalPlain E endpoint moduleName batch :
  keeps_file (syncToPortalPlain E endpoint moduleName batch).
Proof.
  unfold syncToPortalPlain. destruct batch; [auto with frame|].
  apply keeps_try_catch; [|auto with frame].
  apply keeps_bind; [auto with frame|]. intros response.
  destruct (PortalAPI.reply_success response); auto with frame.
Qed.

Lemma keeps_syncToPortalMembers E batch : keeps_file (syncToPortalMembers E batch).
Proof. apply keeps_syncToPortalPlain. Qed.

#[local] Hint Resolve keeps_processRecordsForPortalMembers keeps_syncToPortalMembers
  keeps_processRecordsForPortalCases keeps_processRecordsForPortalUsers
  keeps_syncToPortalWithPrefix keeps_syncToPortalPlain : frame.

(** A computation that writes the checkpoint file only if it returns. *)
Definition writes_on_return {A : Type} (m : M A) : Prop :=
  forall w, match (m w).1 with
            | Ok _ => True
            | _ => sync_file (m w).2 = sync_file w
            end.

Lemma keeps_writes_on_return {A : Type} (m : M A) : keeps_file m -> writes_on_return m.
Proof. intros H w. by destruct (m w).1. Qed.

Lemma bind_writes_on_return {A B : Type} (m : M A) (k : A -> M B) :
  keeps_file m -> (forall a, writes_on_return (k a)) -> writes_on_return (bind m k).
Proof.
  intros Hm Hk w. unfold bind. specialize (Hm w).
  destruct (m w) as [[a|e|] w1]; simpl in *; [|done|done].
  specialize (Hk a w1). destruct (k a w1) as [[b|e|] w2]; simpl in *; congruence.
Qed.

Lemma update_writes_on_return E identifier updateData :
  writes_on_return (bind (SyncTracker.updateSyncRecord E identifier updateData)
                      (λ _, ret tt)).
Proof.
  intros w. unfold bind.
  destruct (SyncTracker.findIndex identifier (stored_records w)) as [i|] eqn:Hi.
  - destruct (findIndex_lookup _ _ _ Hi) as [record [Hrec _]].
    destruct (updateSyncRecord_found E identifier updateData w i record Hi Hrec)
      as (w' & -> & _). done.
  - destruct (updateSyncRecord_missing E identifier updateData w Hi) as (w' & -> & ? & _).
    done.
Qed.

Lemma members_try_writes_on_return fuel E currentTimestamp :
  writes_on_return (members_try fuel E currentTimestamp).
Proof.
  unfold members_try.
  apply bind_writes_on_return; [auto with frame|intros sr].
  apply bind_writes_on_return; [auto with frame|intros fields].
  apply bind_writes_on_return; [auto with frame|intros fr].
  apply bind_writes_on_return; [|intros _; apply update_writes_on_return].
  destruct (SugarCRM.fetched_records fr); auto 10 with frame.
Qed.

Lemma import_try_writes_on_return T fuel E :
  (forall records, keeps_file (processRecordsForPortal T E records)) ->
  (forall batch, keeps_file (syncToPortal T E batch)) ->
  writes_on_return (import_try T fuel E).
Proof.
  intros Hp Hs. unfold import_try.
  apply bind_writes_on_return; [auto with frame|intros sr].
  apply bind_writes_on_return; [auto with frame|intros fields].
  apply bind_writes_on_return; [auto with frame|intros fr].
  apply bind_writes_on_return;
    [destruct (SugarCRM.fetched_records fr); auto 10 with frame|intros _].
  apply bind_writes_on_return; [auto with frame|intros ts].
  apply update_writes_on_return.
Qed.

(** ** The two [catch] blocks *)

Definition failed_keeping (message failed_at module : string) : obj :=
  list_to_map
    [ ("status", VStr "failed");
      ("metadata",
       VObj [ ("error_message", VStr message);
              ("failed_at", VStr failed_at);
              ("sugarcrm_module", VStr module) ]) ].

(** The members task marks the checkpoint [failed] and keeps its
    [last_sync_at]. *)
Lemma members_catch_keeps E message w i record :
  SyncTracker.findIndex "Members" (stored_records w) = Some i ->
  stored_records w !! i = Some record ->
  exists w' record',
    members_catch E message w = (Throw message, w')
    /\ List.find (SyncTracker.resolves "Members") (stored_records w') = Some record'
    /\ get record' "status" = VStr "failed"
    /\ get record' "last_sync_at" = get record "last_sync_at".
Proof.
  intros Hi Hrec.
  destruct (findIndex_lookup _ _ _ Hi) as (record0 & Hrec0 & Hres).
  assert (record0 = record) as -> by congruence.
  set (w1 := {| tick := S (tick w); sync_file := sync_file w;
                ledger := ledger w; trace := trace w |}).
  set (upd := failed_keeping message (clock E (tick w)) "Accounts").
  destruct (updateSyncRecord_found E "Members" upd w1 i record Hi Hrec)
    as (w' & Hrun & Hst & _).
  destruct (checkpoint_after_update "Members" (stored_records w) i record upd
              (clock E (tick w1)) Hi Hrec Hres eq_refl eq_refl) as (_ & _ & Hfind).
  change (stored_records w) with (stored_records w1) in Hfind. rewrite <- Hst in Hfind.
  eexists w', _. split; [|split; [exact Hfind|]].
  - unfold members_catch. unfold bind at 1.
    rewrite (try_catch_eq _ _ w tt w'); [reflexivity|].
    rewrite (bind_eq _ _ _ _ _ (now_eq E w)). fold w1.
    by rewrite (bind_eq _ _ _ _ _ Hrun).
  - rewrite !get_jsonify_obj. split.
    + unfold get. rewrite merged_other by done. reflexivity.
    + rewrite merged_last_sync_at. change (get upd "last_sync_at") with VUndef. simpl.
      by eapply stored_record_normal.
Qed.

(** The cases and the compliance-officers tasks mark the checkpoint
    [failed] and overwrite its [last_sync_at] with the time of the
    failure. *)
Lemma import_catch_stamps T E message w i record :
  (forall t, clock E t <> "") ->
  SyncTracker.findIndex (moduleName T) (stored_records w) = Some i ->
  stored_records w !! i = Some record ->
  exists w' record',
    import_catch T E message w = (Throw message, w')
    /\ List.find (SyncTracker.resolves (moduleName T)) (stored_records w') = Some record'
    /\ get record' "status" = VStr "failed"
    /\ get record' "last_sync_at" = VStr (clock E (tick w)).
Proof.
  intros Hclock Hi Hrec.
  destruct (findIndex_lookup _ _ _ Hi) as (record0 & Hrec0 & Hres).
  assert (record0 = record) as -> by congruence.
  set (w1 := {| tick := S (tick w); sync_file := sync_file w;
                ledger := ledger w; trace := trace w |}).
  set (upd := list_to_map
       [ ("status", VStr "failed");
         ("last_sync_at", VStr (clock E (tick w)));
         ("metadata",
          VObj [ ("error_message", VStr message);
                 ("failed_at", VStr (clock E (tick w)));
                 ("sugarcrm_module", VStr (sugarCRMModule T)) ]) ] : obj).
  destruct (updateSyncRecord_found E (moduleName T) upd w1 i record Hi Hrec)
    as (w' & Hrun & Hst & _).
  destruct (checkpoint_after_update (moduleName T) (stored_records w) i record upd
              (clock E (tick w1)) Hi Hrec Hres eq_refl eq_refl) as (_ & _ & Hfind).
  change (stored_records w) with (stored_records w1) in Hfind. rewrite <- Hst in Hfind.
  eexists w', _. split; [|split; [exact Hfind|]].
  - unfold import_catch.
    rewrite (bind_eq _ _ _ _ _ (now_eq E w)). fold w1. fold upd.
    by rewrite (bind_eq _ _ _ _ _ Hrun).
  - rewrite !get_jsonify_obj. split.
    + unfold get. rewrite merged_other by done. reflexivity.
    + rewrite merged_last_sync_at.
      change (get upd "last_sync_at") with (VStr (clock E (tick w))).
      by rewrite (truthy_stamp _ (Hclock (tick w))).
Qed.

(** ** Failed runs *)

(** Whatever makes the [try] block of the members task throw, the task
    throws the same error, the checkpoint is marked [failed] and its
    [last_sync_at] is the one it had before the run. *)
Lemma members_failure_keeps_checkpoint fuel E w i record message w1 :
  SyncTracker.findIndex "Members" (stored_records w) = Some i ->
  stored_records w !! i = Some record ->
  members_try fuel E (clock E (tick w))
    {| tick := S (tick w); sync_file := sync_file w;
       ledger := ledger w; trace := trace w |} = (Throw message, w1) ->
  exists w',
    SugarCRMAccountToPortalMember fuel E w = (Throw message, w')
    /\ status_of MembersEntity w' = VStr "failed"
    /\ last_sync_at_of MembersEntity w' = get record "last_sync_at".
Proof.
  intros Hi Hrec Htry.
  set (w0 := {| tick := S (tick w); sync_file := sync_file w;
                ledger := ledger w; trace := trace w |}) in Htry.
  pose proof (members_try_writes_on_return fuel E (clock E (tick w)) w0) as Hkeep.
  rewrite Htry in Hkeep. simpl in Hkeep.
  rewrite <- (stored_records_same _ _ Hkeep) in Hi, Hrec.
  destruct (members_catch_keeps E message w1 i record Hi Hrec)
    as (w' & record' & Hcatch & Hfind & Hs & Hl).
  exists w'. split.
  - unfold SugarCRMAccountToPortalMember.
    rewrite (bind_eq _ _ _ _ _ (now_eq E w)). fold w0. unfold try_catch.
    by rewrite Htry.
  - unfold status_of, last_sync_at_of, checkpoint. simpl. by rewrite Hfind.
Qed.

(** Whatever makes the [try] block of the cases or of the
    compliance-officers task throw, the task throws the same error and
    the checkpoint is marked [failed], but its [last_sync_at] becomes
    the time read when the failure is handled. *)
Lemma import_failure_stamps_checkpoint T fuel E w i record message w1 :
  (forall t, clock E t <> "") ->
  (forall records, keeps_file (processRecordsForPortal T E records)) ->
  (forall batch, keeps_file (syncToPortal T E batch)) ->
  SyncTracker.findIndex (moduleName T) (stored_records w) = Some i ->
  stored_records w !! i = Some record ->
  import_try T fuel E w = (Throw message, w1) ->
  exists w' record',
    runImport T fuel E w = (Throw message, w')
    /\ List.find (SyncTracker.resolves (moduleName T)) (stored_records w') = Some record'
    /\ get record' "status" = VStr "failed"
    /\ get record' "last_sync_at" = VStr (clock E (tick w1)).
Proof.
  intros Hclock Hp Hs Hi Hrec Htry.
  pose proof (import_try_writes_on_return T fuel E Hp Hs w) as Hkeep.
  rewrite Htry in Hkeep. simpl in Hkeep.
  rewrite <- (stored_records_same _ _ Hkeep) in Hi, Hrec.
  destruct (import_catch_stamps T E message w1 i record Hclock Hi Hrec)
    as (w' & record' & Hcatch & Hfind & Hst & Hl).
  exists w', record'. split; [|done].
  unfold runImport, try_catch. by rewrite Htry.
Qed.

(** ** The run after a run that has returned *)

(** A bound that is no string selects nothing, and a bound that is one
    selects what the Source holds at or after it. *)
Lemma nothing_modified_since others (records : list obj) (since : value) :
  (forall stamp r, since = VStr stamp -> In r records ->
     Source.matches others (modified_since (VStr stamp)) r = false) ->
  forall r, In r records -> Source.matches others (modified_since since) r = false.
Proof.
  intros H r Hin. destruct since as [| | | |stamp| |]; try reflexivity. by apply H.
Qed.

Lemma find_is_found identifier l record :
  List.find (SyncTracker.resolves identifier) l = Some record ->
  exists i, SyncTracker.findIndex identifier l = Some i /\ l !! i = Some record.
Proof.
  intros Hfind.
  destruct (SyncTracker.findIndex identifier l) as [i|] eqn:Hi.
  - destruct (findIndex_lookup _ _ _ Hi) as (record0 & Hrec & _).
    rewrite (findIndex_find _ _ _ _ Hi Hrec) in Hfind. injection Hfind as <-. eauto.
  - by rewrite (findIndex_None_find _ _ Hi) in Hfind.
Qed.

(** An update that leaves the two names alone, whether or not it
    returns, leaves a record that answers to the name. *)
Lemma found_after_update E name updateData w o w' record :
  updateData !! "module_name" = None ->
  updateData !! "integration_name" = None ->
  List.find (SyncTracker.resolves name) (stored_records w) = Some record ->
  SyncTracker.updateSyncRecord E name updateData w = (o, w') ->
  is_Some (List.find (SyncTracker.resolves name) (stored_records w')).
Proof.
  intros H1 H2 Hfind Hrun.
  destruct (find_is_found _ _ _ Hfind) as (i & Hi & Hrec).
  destruct (findIndex_lookup _ _ _ Hi) as (record0 & Hrec0 & Hres).
  assert (record0 = record) as -> by congruence.
  destruct (updateSyncRecord_found E name updateData w i record Hi Hrec)
    as (w2 & Hrun2 & Hst & _).
  rewrite Hrun in Hrun2. injection Hrun2 as _ <-.
  destruct (checkpoint_after_update name (stored_records w) i record updateData
              (clock E (tick w)) Hi Hrec Hres H1 H2) as (_ & _ & Hfound).
  rewrite Hst, Hfound. eauto.
Qed.

(** The request of the auditors task. *)
Definition auditors_query (lastSyncDate : value) (auditorFields : list string)
  : SugarCRM.QueryConfig :=
  {| SugarCRM.module := "aud_Auditor";
     SugarCRM.filters := Some [modified_since lastSyncDate];
     SugarCRM.fields := Some (SugarCRM.FieldString (join_commas auditorFields));
     SugarCRM.maxResults := None;
     SugarCRM.offset := None;
     SugarCRM.orderBy := Some "date_modified:asc";
     SugarCRM.orderDirection := None |}.

(** A run of the auditors task that returns leaves its checkpoint in
    the file, and has loaded its mapping. *)
Lemma auditors_ready fuel E w0 w1 :
  sugarAuditorToPortalAuditor fuel E w0 = (Ok tt, w1) ->
  is_Some (List.find (SyncTracker.resolves "Auditors") (stored_records w1))
  /\ exists fields,
       Transformer.getSugarcrmFields (config E) "sugarcrm_to_portal_auditors"
       = Returns fields.
Proof.
  intros Hrun. unfold sugarAuditorToPortalAuditor in Hrun.
  apply try_catch_ok in Hrun; [|intros e w; by unfold throw].
  destruct (getSyncRecord_stored E "Auditors" w0) as (wa & Hget & Hfa & _).
  rewrite (bind_eq _ _ _ _ _ Hget) in Hrun.
  destruct (List.find (SyncTracker.resolves "Auditors") (stored_records w0))
    as [record|] eqn:Hfind; [|done].
  rewrite <- (stored_records_same _ _ Hfa) in Hfind.
  apply bind_ok in Hrun as (fields & wb & Hfields & Hrun).
  apply lift_ok in Hfields as [Hfields ->]. split; [|eauto].
  apply bind_ok in Hrun as (fr & wc & Hfetch & Hrun).
  pose proof (keeps_fetchAllRecords fuel E
                (auditors_query (get record "last_sync_at") fields) None wa) as Hkeep.
  unfold auditors_query in Hkeep. rewrite Hfetch in Hkeep. simpl in Hkeep.
  rewrite <- (stored_records_same _ _ Hkeep) in Hfind.
  destruct (SugarCRM.fetched_records fr) as [|rec rest].
  - injection Hrun as <-. eauto.
  - apply bind_ok in Hrun as (processed & wd & Hproc & Hrun).
    pose proof (keeps_processRecords E "sugarcrm_to_portal_auditors" auditor_shape
                  auditor_fallback (rec :: rest) [] wc) as Hkeep1.
    unfold processRecordsForPortalAuditors in Hproc. rewrite Hproc in Hkeep1.
    simpl in Hkeep1. rewrite <- (stored_records_same _ _ Hkeep1) in Hfind.
    apply bind_ok in Hrun as (portalResponse & we & Hpush & Hrun).
    pose proof (keeps_syncToPortalPlain E "api/integration/SugarAuditorToPortalAuditor"
                  "Auditors" processed wd) as Hkeep2.
    unfold syncToPortalAuditors in Hpush. rewrite Hpush in Hkeep2. simpl in Hkeep2.
    rewrite <- (stored_records_same _ _ Hkeep2) in Hfind.
    apply bind_ok in Hrun as (? & wf & Hsum & Hrun). apply lift_ok in Hsum as [_ ->].
    apply bind_ok in Hrun as (currentTime & wg & Hnow & Hrun).
    rewrite now_eq in Hnow. injection Hnow as <- <-.
    unfold detached in Hrun.
    match type of Hrun with
    | context [SyncTracker.updateSyncRecord E "Auditors" ?u ?w] =>
        change (stored_records we) with (stored_records w) in Hfind;
        destruct (SyncTracker.updateSyncRecord E "Auditors" u w) as [o wh] eqn:Hupd
    end.
    assert (wh = w1) as <- by (destruct o; congruence).
    eapply found_after_update; [| |exact Hfind|exact Hupd]; done.
Qed.

(** The auditors task against a Source that holds nothing at or after
    the stored [last_sync_at]: one request, which is answered with the
    empty page, and the task returns. *)
Lemma auditors_nothing_new fuel E others data w record fields :
  sugar_http E = Source.query others data ->
  List.find (SyncTracker.resolves "Auditors") (stored_records w) = Some record ->
  Transformer.getSugarcrmFields (config E) "sugarcrm_to_portal_auditors" = Returns fields ->
  (forall r, In r (data "aud_Auditor") ->
     Source.matches others (modified_since (get record "last_sync_at")) r = false) ->
  (0 < fuel)%nat ->
  let body :=
    SugarCRM.requestBody
      (SugarCRM.with_offset (auditors_query (get record "last_sync_at") fields) 0) in
  sugar_http E "aud_Auditor" body = Returns empty_page
  /\ sugarAuditorToPortalAuditor fuel E w
     = (Ok tt, SugarCRMSpec.after w 2 [EQuery "aud_Auditor" body]).
Proof.
  intros Hsrc Hfind Hfields Hnone Hfuel body.
  assert (sugar_http E "aud_Auditor" body = Returns empty_page) as Hpage.
  { rewrite Hsrc.
    by apply (query_nothing_since others data "aud_Auditor" body
                (get record "last_sync_at") []). }
  split; [exact Hpage|].
  assert (is_Some (sync_file w)) as Hsome.
  { unfold stored_records in Hfind. destruct (sync_file w); [eauto|done]. }
  destruct (getSyncRecord_stored E "Auditors" w) as (w' & Hget & _ & _ & _ & Hsame).
  rewrite (Hsame Hsome), Hfind in Hget.
  unfold sugarAuditorToPortalAuditor. apply try_catch_eq.
  rewrite (bind_eq _ _ _ _ _ Hget). cbv beta iota zeta. rewrite Hfields.
  rewrite (bind_eq _ _ _ _ _ (eq_refl : lift (Returns fields) w = (Ok fields, w))).
  fold (auditors_query (get record "last_sync_at") fields).
  rewrite (bind_eq _ _ _ _ _
             (SugarCRMSpec.fetchAllRecords_served E
                (auditors_query (get record "last_sync_at") fields) None [empty_page]
                fuel w ltac:(discriminate) ltac:(discriminate)
                (conj Hpage (or_introl eq_refl)) ltac:(simpl; lia))).
  reflexivity.
Qed.

(** ** The claim *)

(** C3, amended: when a run has returned and the Source holds no record
    modified at or after the [last_sync_at] that the checkpoint then
    carries, the next run against the same Source sends one request, at
    offset 0, which is answered with the empty page, pushes nothing and
    returns.  For the members, the cases and the compliance officers
    it commits: the checkpoint has status [success] and its
    [last_sync_at] is a time read during this second run.  The auditors
    task returns as soon as it has fetched nothing and leaves the
    checkpoint file as it was. *)
Theorem second_run_fetches_nothing
    (e : EntityType) (E : Env) (others : Filter -> obj -> bool)
    (data : string -> list obj) (fuel1 fuel2 : nat) (w0 w1 : World) :
  sugar_http E = Source.query others data ->
  (forall t, clock E t <> "") ->
  sync e fuel1 E w0 = (Ok tt, w1) ->
  (forall stamp r,
     last_sync_at_of e w1 = VStr stamp ->
     In r (data (source_module_of e)) ->
     Source.matches others (modified_since (VStr stamp)) r = false) ->
  (0 < fuel2)%nat ->
  exists w2 body,
    sync e fuel2 E w1 = (Ok tt, w2)
    /\ trace w2 = (trace w1 ++ EQuery (source_module_of e) body
                              :: match e with
                                 | AuditorsEntity => []
                                 | _ => [EPageCallback [] empty_page]
                                 end)%list
    /\ rb_offset body = 0
    /\ sugar_http E (source_module_of e) body = Returns empty_page
    /\ pushes (trace w2) = pushes (trace w1)
    /\ match e with
       | AuditorsEntity => sync_file w2 = sync_file w1
       | _ =>
           status_of e w2 = VStr "success"
           /\ exists k, (tick w1 <= k < tick w2)%nat
                        /\ last_sync_at_of e w2 = VStr (clock E k)
       end.
Proof.
  intros Hsrc Hclock Hrun Hnone Hfuel.
  assert (forall w2 body k record',
            e <> AuditorsEntity ->
            trace w2 = (trace w1 ++ [EQuery (source_module_of e) body;
                                     EPageCallback [] empty_page])%list ->
            tick w2 = (tick w1 + 4)%nat -> (k < 4)%nat ->
            checkpoint e w2 = Some record' ->
            get record' "status" = VStr "success" ->
            get record' "last_sync_at" = VStr (clock E (tick w1 + k)) ->
            trace w2 = (trace w1 ++ EQuery (source_module_of e) body
                                    :: match e with
                                       | AuditorsEntity => []
                                       | _ => [EPageCallback [] empty_page]
                                       end)%list
            /\ pushes (trace w2) = pushes (trace w1)
            /\ match e with
               | AuditorsEntity => sync_file w2 = sync_file w1
               | _ =>
                   status_of e w2 = VStr "success"
                   /\ exists k, (tick w1 <= k < tick w2)%nat
                                /\ last_sync_at_of e w2 = VStr (clock E k)
               end) as Hcommitted.
  { intros w2 body k record' He Htr Ht Hk Hc Hs Hl.
    split; [by destruct e|].
    split; [rewrite Htr, pushes_app; simpl; by rewrite app_nil_r|].
    assert (status_of e w2 = VStr "success"
            /\ exists k, (tick w1 <= k < tick w2)%nat
                         /\ last_sync_at_of e w2 = VStr (clock E k)) as Hdone.
    { unfold status_of, last_sync_at_of. rewrite Hc. split; [done|].
      exists (tick w1 + k)%nat. split; [lia|done]. }
    by destruct e. }
  destruct e.
  - apply members_committed in Hrun; [|done].
    destruct (members_nothing_new fuel2 E others data w1 Hsrc Hclock Hrun Hnone Hfuel)
      as (w2 & body & Hrun2 & Htr & Hoff & Hpage & Ht & record' & Hc & Hs & Hl).
    exists w2, body.
    destruct (Hcommitted w2 body 0%nat record' ltac:(discriminate) Htr Ht ltac:(lia) Hc Hs)
      as (? & ? & ? & ?); [by rewrite Nat.add_0_r|].
    by repeat apply conj.
  - apply import_committed in Hrun; [|done].
    destruct (import_nothing_new Cases fuel2 E others data w1 Hsrc Hclock
                ltac:(discriminate) Hrun Hnone Hfuel)
      as (w2 & body & Hrun2 & Htr & Hoff & Hpage & Ht & record' & Hc & Hs & Hl).
    exists w2, body.
    destruct (Hcommitted w2 body 2%nat record' ltac:(discriminate) Htr Ht ltac:(lia) Hc Hs
                Hl) as (? & ? & ? & ?).
    by repeat apply conj.
  - apply import_committed in Hrun; [|done].
    destruct (import_nothing_new ComplianceOfficers fuel2 E others data w1 Hsrc Hclock
                ltac:(discriminate) Hrun Hnone Hfuel)
      as (w2 & body & Hrun2 & Htr & Hoff & Hpage & Ht & record' & Hc & Hs & Hl).
    exists w2, body.
    destruct (Hcommitted w2 body 2%nat record' ltac:(discriminate) Htr Ht ltac:(lia) Hc Hs
                Hl) as (? & ? & ? & ?).
    by repeat apply conj.
  - clear Hcommitted. apply auditors_ready in Hrun as ([record Hfind] & fields & Hfields).
    unfold last_sync_at_of, checkpoint in Hnone. simpl in Hnone. rewrite Hfind in Hnone.
    destruct (auditors_nothing_new fuel2 E others data w1 record fields Hsrc Hfind Hfields
                (nothing_modified_since others _ _ Hnone) Hfuel) as [Hpage Hrun2].
    eexists _, _. split; [exact Hrun2|]. simpl.
    repeat apply conj; try done. rewrite pushes_app. simpl. by rewrite app_nil_r.
Qed.

Definition first_cases_run : outcome unit * World :=
  sync CasesEntity 3 accepted start.

Lemma second_run_fetches_nothing_witness :
  (exists w2 body,
     sync CasesEntity 1 accepted first_cases_run.2 = (Ok tt, w2)
     /\ trace w2 = (trace first_cases_run.2
                    ++ [EQuery "Cases" body; EPageCallback [] empty_page])%list
     /\ rb_offset body = 0
     /\ sugar_http accepted "Cases" body = Returns empty_page
     /\ pushes (trace w2) = pushes (trace first_cases_run.2)
     /\ status_of CasesEntity w2 = VStr "success"
     /\ exists k, (tick first_cases_run.2 <= k < tick w2)%nat
                  /\ last_sync_at_of CasesEntity w2 = VStr (clock accepted k))
  /\ (exists w2 body,
        sync AuditorsEntity 1 accepted first_auditors_run.2 = (Ok tt, w2)
        /\ trace w2 = (trace first_auditors_run.2 ++ [EQuery "aud_Auditor" body])%list
        /\ rb_offset body = 0
        /\ sugar_http accepted "aud_Auditor" body = Returns empty_page
        /\ pushes (trace w2) = pushes (trace first_auditors_run.2)
        /\ sync_file w2 = sync_file first_auditors_run.2).
Proof.
  split.
  - apply (second_run_fetches_nothing CasesEntity accepted (λ _ _, true) (λ _, five)
             3 1 start first_cases_run.2).
    + reflexivity.
    + intros t. unfold accepted, world_of, clock2. simpl. discriminate.
    + apply pair_of_fst. vm_compute. reflexivity.
    + intros stamp r Hstamp Hin. vm_compute in Hstamp. injection Hstamp as <-.
      simpl in Hin. destruct Hin as [<-|[<-|[<-|[<-|[<-|[]]]]]]; vm_compute; reflexivity.
    + lia.
  - apply (second_run_fetches_nothing AuditorsEntity accepted (λ _ _, true) (λ _, five)
             3 1 start first_auditors_run.2).
    + reflexivity.
    + intros t. unfold accepted, world_of, clock2. simpl. discriminate.
    + apply pair_of_fst. vm_compute. reflexivity.
    + intros stamp r Hstamp Hin. vm_compute in Hstamp. injection Hstamp as <-.
      simpl in Hin. destruct Hin as [<-|[<-|[<-|[<-|[<-|[]]]]]]; vm_compute; reflexivity.
    + lia.
Defined.

End TasksSpec.

(* ===================================================================== *)
(** * More properties of the transformer                                 *)
(* ===================================================================== *)

Module MappingSpec.
Import Js Transformer TransformerSpec.

(** ** Further properties of step 1 *)

Lemma fold_mapField_value src fms st pf v :
  (fold_left (mapField src) fms st).1 !! pf = Some v ->
  st.1 !! pf = Some v
  \/ exists entry, In entry fms /\ emits src entry = true /\ portal_field entry.2 = pf
                   /\ v = applyTransform (transform entry.2) (get src entry.1).
Proof.
  revert st. induction fms as [|e fms IH]; intros st; simpl; [by left|].
  intros H. apply IH in H as [H|(entry & Hin & He & Hpf & Hv)].
  - rewrite mapField_lookup in H.
    destruct (emits src e) eqn:He; simpl in H; [|by left].
    destruct (String.eqb_spec (portal_field e.2) pf) as [Hpf|_]; [|by left].
    injection H as <-. right. exists e. repeat apply conj; auto.
  - right. exists entry. repeat apply conj; auto.
Qed.

Lemma emits_has_value src entry :
  emits src entry = true ->
  has_value (applyTransform (transform entry.2) (get src entry.1)) = true.
Proof. unfold emits. by intros [_ ?]%andb_prop. Qed.

(** X1: every field that step 1 sets holds a value that is not [null],
    not [undefined] and not the empty string, and it is the transformed
    source value of a configured entry with that destination which is
    not a required entry with a missing source value. *)
Theorem step1_stores_only_values
    (src : obj) (fms : list (string * MappingConfig)) (pf : string) (v : value) :
  (applyFieldMappings src fms).1 !! pf = Some v ->
  has_value v = true
  /\ exists f mc,
       In (f, mc) fms /\ portal_field mc = pf
       /\ (required mc && missing (get src f)) = false
       /\ v = applyTransform (transform mc) (get src f).
Proof.
  unfold applyFieldMappings. intros H.
  apply fold_mapField_value in H as [H|([f mc] & Hin & He & Hpf & ->)];
    [simpl in H; by rewrite lookup_empty in H|].
  split; [by apply emits_has_value|].
  exists f, mc. repeat apply conj; try done.
  unfold emits in He. apply andb_prop in He as [He _]. by apply negb_true_iff in He.
Qed.

Definition tm_record : obj := {["tm_id_c" := VStr "TM001"]}.

Definition tm_mapping : list (string * MappingConfig) :=
  [("tm_id_c", {| portal_field := "tm_id"; required := true; transform := "direct" |})].

Lemma step1_stores_only_values_witness :
  (applyFieldMappings tm_record tm_mapping).1 !! "tm_id" = Some (VStr "TM001")
  /\ has_value (VStr "TM001") = true.
Proof.
  assert ((applyFieldMappings tm_record tm_mapping).1 !! "tm_id" = Some (VStr "TM001"))
    as H by reflexivity.
  split; [exact H|].
  apply (step1_stores_only_values tm_record tm_mapping "tm_id" (VStr "TM001") H).
Defined.

Lemma fold_mapField_errors src fms st :
  (fold_left (mapField src) fms st).2
  = (st.2 ++ (missing_required <$>
                List.filter (λ f, missing (get src f))
                  (fst <$> List.filter (λ entry, required entry.2) fms)))%list.
Proof.
  revert st. induction fms as [|[f mc] fms IH]; intros [out errs]; simpl.
  - by rewrite app_nil_r.
  - rewrite IH. destruct (required mc) eqn:Hr; simpl.
    + destruct (missing (get src f)) eqn:Hm; simpl.
      * unfold push. by rewrite <- app_assoc.
      * by destruct (has_value _).
    + by destruct (has_value _).
Qed.

(** X2: the errors of step 1 are, in the order of the mapping, the
    messages naming the fields of [getRequiredFields] whose source value
    is missing or empty; [getRequiredFields] throws exactly when the
    mapping cannot be loaded. *)
Theorem step1_errors_are_the_missing_required_fields
    (config : config_file) (mappingType : string) (src : obj) :
  match loadFieldMappings config mappingType with
  | Returns m =>
      exists requiredFields,
        getRequiredFields config mappingType = Returns requiredFields
        /\ (applyFieldMappings src (field_mappings m)).2
           = missing_required <$> List.filter (λ f, missing (get src f)) requiredFields
  | Throws e => getRequiredFields config mappingType = Throws e
  end.
Proof.
  unfold getRequiredFields. destruct (loadFieldMappings config mappingType) as [m|e];
    [|done].
  eexists. split; [reflexivity|]. unfold applyFieldMappings.
  by rewrite fold_mapField_errors.
Qed.

(** ** White space *)

Lemma trimStart_spaces s : all_chars is_space s = true -> trimStart s = "".
Proof.
  induction s as [|c s IH]; simpl; [done|].
  intros [Hc Hs]%andb_prop. rewrite Hc. by apply IH.
Qed.

Lemma trim_spaces s : all_chars is_space s = true -> trim s = "".
Proof. intros H. unfold trim. by rewrite trimStart_spaces. Qed.

(** X3: a required source field that holds nothing but white space and
    is mapped with [trim] slips through step 1: its value is truthy, so
    no error is appended, and its trimmed value is empty, so no field is
    set. *)
Theorem blank_required_field_is_dropped_silently
    (src : obj) (st : obj * list string) (f pf s : string) :
  get src f = VStr s ->
  s <> "" ->
  all_chars is_space s = true ->
  mapField src st (f, {| portal_field := pf; required := true; transform := "trim" |})
  = st.
Proof.
  intros Hv Hne Hsp. destruct st as [out errs]. simpl. rewrite Hv.
  assert (missing (VStr s) = false) as ->.
  { unfold missing, falsy. simpl. by destruct (String.eqb_spec s ""). }
  unfold applyTransform. simpl.
  destruct (String.eqb_spec s "") as [?|_]; [done|]. simpl.
  by rewrite trim_spaces.
Qed.

Lemma blank_required_field_is_dropped_silently_witness :
  applyFieldMappings {["name" := VStr "   "]}
    [("name", {| portal_field := "member_name"; required := true; transform := "trim" |})]
  = (∅, []).
Proof.
  unfold applyFieldMappings. simpl fold_left.
  apply (blank_required_field_is_dropped_silently {["name" := VStr "   "]} (∅, [])
           "name" "member_name" "   ").
  - reflexivity.
  - discriminate.
  - reflexivity.
Defined.

(** ** When the transformation throws *)

(** The record handed to the validation. *)
Definition assembled (clock : nat -> string) (t : nat) (m : FieldMapping) (src : obj)
  : obj :=
  (applyComputedFields clock (computed_fields m)
     (applyDefaults (default_values m) (applyFieldMappings src (field_mappings m)).1, t)).1.

Definition is_string (v : value) : bool :=
  match v with VStr _ => true | _ => false end.

Lemma checkPhone_throws rules record st :
  (exists e, checkPhone rules record st = Throws e) <->
  phone_validation rules = true /\ truthy (get record "phone") = true
  /\ is_string (get record "phone") = false.
Proof.
  unfold checkPhone.
  destruct (phone_validation rules); simpl; [|split; [by intros [? ?]|by intros [? _]]].
  destruct (get record "phone") as [| |[]|n|s| |] eqn:Hp; simpl;
    try (split; [by intros [? ?]|by intros (_ & ? & ?)]);
    try (split; [done|eauto]).
  - destruct (negb (n =? 0)) eqn:Hn; simpl; [split; eauto|].
    split; [by intros [? ?]|by intros (_ & ? & ?)].
  - destruct (negb (String.eqb s "")); simpl.
    + destruct (phoneRegex _); split; try (by intros [? ?]); by intros (_ & _ & ?).
    + split; [by intros [? ?]|by intros (_ & ? & ?)].
Qed.

(** X4: once the mapping is loaded, the transformation throws exactly
    when the rules ask for the phone validation and the assembled record
    holds under [phone] a truthy value that is not a string; the error
    is then the [TypeError] of the missing [replace]. *)
Theorem transform_throws_only_on_a_phone_that_is_no_string
    (clock : nat -> string) (t : nat) (m : FieldMapping) (src : obj) :
  ((exists e t', transformWith clock t m src = (Throws e, t')) <->
   exists rules,
     validation_rules m = Some rules /\ phone_validation rules = true
     /\ truthy (get (assembled clock t m src) "phone") = true
     /\ is_string (get (assembled clock t m src) "phone") = false)
  /\ (forall e t', transformWith clock t m src = (Throws e, t') ->
        e = "record.phone.replace is not a function").
Proof.
  unfold transformWith, assembled.
  destruct (applyFieldMappings src (field_mappings m)) as [mapped errors1]. simpl.
  destruct (applyComputedFields _ _ _) as [rec t1]. simpl.
  destruct (validation_rules m) as [rules|].
  - unfold validateTransformedRecord.
    set (st := checkEmail rules rec _).
    pose proof (checkPhone_throws rules rec st) as Hiff.
    destruct (checkPhone rules rec st) as [[valid errors]|e] eqn:Hc.
    + split; [|done]. split; [by intros (? & ? & ?)|].
      intros (rules' & [= <-] & H). apply Hiff in H as [? ?]. done.
    + split.
      * split; [|eauto]. intros _. exists rules. split; [done|]. apply Hiff. eauto.
      * intros e' t' [= <- _]. unfold checkPhone in Hc.
        destruct (_ && _); [|done].
        destruct (get rec "phone"); try (by injection Hc as <-).
        by destruct (phoneRegex _).
  - split; [|done]. split; [by intros (? & ? & ?)|by intros (? & ? & _)].
Qed.

(** A mapping that copies [phone] and asks for its validation. *)
Definition phone_mapping : FieldMapping :=
  {| field_mappings :=
       [("phone_office", {| portal_field := "phone"; required := false;
                            transform := "direct" |})];
     default_values := None; computed_fields := None;
     validation_rules :=
       Some {| required_fields := None; email_validation := false;
               phone_validation := true |} |}.

(** A phone number that the Source delivers as a number makes the
    transformation throw. *)
Example numeric_phone_throws :
  transformWith clock0 0 phone_mapping {["phone_office" := VNum 9820012345]}
  = (Throws "record.phone.replace is not a function", 0%nat).
Proof. reflexivity. Qed.

(** X5: the flag of a transformation result is true exactly when the
    validation of step 4 has appended nothing, that is when the errors
    of the result are those of step 1; in every case the errors of
    step 1 come first. *)
Theorem isValid_reflects_the_validation_only
    (clock : nat -> string) (t : nat) (m : FieldMapping) (src : obj)
    (r : TransformationResult) (t' : nat) :
  transformWith clock t m src = (Returns r, t') ->
  (isValid r = true <->
   validationErrors r = (applyFieldMappings src (field_mappings m)).2)
  /\ (applyFieldMappings src (field_mappings m)).2 `prefix_of` validationErrors r.
Proof.
  intros H. apply transformWith_errors in H as (extra & E & F). split.
  - rewrite F, E. split; [intros ->; by rewrite app_nil_r|].
    intros H. rewrite <- (app_nil_r (applyFieldMappings _ _).2) in H at 2.
    by apply app_inv_head in H.
  - exists extra. exact E.
Qed.

Lemma isValid_reflects_the_validation_only_witness :
  exists r,
    (transformWith clock0 0 req_name_rules ∅).1 = Returns r
    /\ isValid r = true
    /\ validationErrors r = ["Missing required field: name"].
Proof.
  destruct (transformWith clock0 0 req_name_rules ∅) as [[r|e] t'] eqn:H;
    [|vm_compute in H; discriminate].
  exists r. split; [reflexivity|].
  destruct (isValid_reflects_the_validation_only clock0 0 req_name_rules ∅ r t' H)
    as [Hiff _].
  assert (validationErrors r = ["Missing required field: name"]) as E.
  { vm_compute in H. by injection H as <- _. }
  split; [|exact E]. apply Hiff. rewrite E. reflexivity.
Defined.

(** ** Defaults *)

Lemma applyDefault_keeps_truthy out entry f :
  truthy (get out f) = true -> applyDefault out entry !! f = out !! f.
Proof.
  intros Ht. unfold applyDefault.
  destruct (String.eqb_spec entry.1 f) as [->|Hne].
  - unfold falsy. by rewrite Ht.
  - destruct (falsy _); [|done]. by rewrite lookup_insert_ne.
Qed.

Lemma fold_applyDefault_keeps_truthy defaults out f :
  truthy (get out f) = true -> fold_left applyDefault defaults out !! f = out !! f.
Proof.
  revert out. induction defaults as [|e l IH]; intros out Ht; simpl; [done|].
  pose proof (applyDefault_keeps_truthy out e f Ht) as E.
  rewrite IH; [done|]. by rewrite (get_lookup _ _ _ E).
Qed.

(** X6: after step 2 every destination field that has a truthy default
    holds a truthy value, and a field that was truthy before step 2 is
    unchanged. *)
Theorem defaults_make_their_fields_truthy
    (defaults : list (string * value)) (out : obj) (f : string) :
  (forall v, In (f, v) defaults -> truthy v = true ->
             truthy (get (applyDefaults (Some defaults) out) f) = true)
  /\ (truthy (get out f) = true ->
      applyDefaults (Some defaults) out !! f = out !! f).
Proof.
  split; [|apply fold_applyDefault_keeps_truthy].
  unfold applyDefaults. revert out.
  induction defaults as [|[k d] l IH]; intros out v Hin Hv; simpl; [done|].
  destruct Hin as [[= -> ->]|Hin]; [|by eapply IH].
  assert (truthy (get (applyDefault out (f, v)) f) = true) as Ht.
  { unfold applyDefault, falsy. simpl. destruct (truthy (get out f)) eqn:Ho; simpl; [done|].
    unfold get. by rewrite lookup_insert_eq. }
  by rewrite (get_lookup _ _ _ (fold_applyDefault_keeps_truthy l _ f Ht)).
Qed.

(** ** The e-mail pattern *)

Lemma all_chars_app p a b :
  all_chars p (a ++ b) = all_chars p a && all_chars p b.
Proof. induction a as [|c a IH]; simpl; [done|]. by rewrite IH, andb_assoc. Qed.

Lemma dot_inside_spec s : forall seen,
  dot_inside seen s = true <->
  exists b c, s = b ++ String "." c
              /\ (seen = true \/ b <> "") /\ c <> ""
              /\ all_chars plain b = true /\ all_chars plain c = true.
Proof.
  induction s as [|x s IH]; intros seen; simpl.
  - split; [done|]. intros (b & c & H & _). by destruct b.
  - split.
    + intros [Hx H]%andb_prop. apply orb_prop in H as [H|H].
      * apply andb_prop in H as [H Hc]. apply andb_prop in H as [H Hne].
        apply andb_prop in H as [Hseen Hdot].
        apply Ascii.eqb_eq in Hdot as ->.
        exists "", s. repeat apply conj; try done; [by left|].
        apply negb_true_iff in Hne. by destruct (String.eqb_spec s "").
      * apply IH in H as (b & c & -> & _ & Hc & Hb & Hcs).
        exists (String x b), c. repeat apply conj; try done; [by right|].
        simpl. by rewrite Hx.
    + intros (b & c & H & Hseen & Hc & Hb & Hcs). destruct b as [|y b]; simpl in H.
      * injection H as -> ->. destruct Hseen as [->|?]; [|done]. simpl.
        rewrite Hcs. destruct (String.eqb_spec c "") as [?|_]; [done|]. simpl.
        change (plain ".") with true. done.
      * injection H as -> ->. simpl in Hb. apply andb_prop in Hb as [Hy Hb].
        rewrite Hy. simpl. apply orb_true_iff. right. apply IH.
        exists b, c. repeat apply conj; try done. by left.
Qed.

Lemma emailRegex_from_spec s : forall seen,
  emailRegex_from seen s = true <->
  exists a rest, s = a ++ String "@" rest
                 /\ (seen = true \/ a <> "")
                 /\ all_chars plain a = true
                 /\ dot_inside false rest = true.
Proof.
  induction s as [|x s IH]; intros seen; simpl.
  - split; [done|]. intros (a & rest & H & _). by destruct a.
  - destruct (Ascii.eqb_spec x "@") as [->|Hx].
    + split.
      * intros [-> H]%andb_prop. exists "", s. repeat apply conj; try done. by left.
      * intros (a & rest & H & Hseen & Ha & Hrest). destruct a as [|y a]; simpl in H.
        -- injection H as ->. destruct Hseen as [->|?]; done.
        -- injection H as <- _. simpl in Ha. done.
    + split.
      * intros [Hsp H]%andb_prop. apply IH in H as (a & rest & -> & _ & Ha & Hrest).
        exists (String x a), rest. repeat apply conj; try done; [by right|].
        simpl. rewrite Ha, andb_true_r. unfold plain. rewrite Hsp. simpl.
        apply negb_true_iff. by apply Ascii.eqb_neq.
      * intros (a & rest & H & _ & Ha & Hrest). destruct a as [|y a]; simpl in H.
        -- by injection H as ->.
        -- injection H as -> ->. simpl in Ha. apply andb_prop in Ha as [Hy Ha].
           unfold plain in Hy. apply andb_prop in Hy as [Hsp _]. rewrite Hsp. simpl.
           apply IH. exists a, rest. repeat apply conj; try done. by left.
Qed.

(** A string of ASCII characters: on these the white space of the
    pattern, [\s], is the white space of [is_space]. *)
Definition ascii_only (s : string) : bool := all_chars (λ c, (code c <? 128)%nat) s.

(** X7: among the strings of ASCII characters, the pattern of the
    e-mail validation accepts exactly the strings [a@b.c] in which [a],
    [b] and [c] are not empty and hold neither white space nor [@]. *)
Theorem emailRegex_accepts_exactly (s : string) :
  ascii_only s = true ->
  emailRegex s = true <->
  exists a b c,
    s = a ++ "@" ++ b ++ "." ++ c
    /\ a <> "" /\ b <> "" /\ c <> ""
    /\ all_chars plain a = true /\ all_chars plain b = true
    /\ all_chars plain c = true.
Proof.
  intros _. unfold emailRegex. rewrite emailRegex_from_spec. split.
  - intros (a & rest & -> & [?|Ha] & Hpa & Hrest); [done|].
    apply dot_inside_spec in Hrest as (b & c & -> & [?|Hb] & Hc & Hpb & Hpc); [done|].
    exists a, b, c. by repeat apply conj.
  - intros (a & b & c & -> & Ha & Hb & Hc & Hpa & Hpb & Hpc).
    exists a, (b ++ String "." c). repeat apply conj; try done; [by right|].
    apply dot_inside_spec. exists b, c. repeat apply conj; try done. by right.
Qed.

Lemma emailRegex_accepts_exactly_witness :
  ascii_only "ops.desk@ncdex.co.in" = true
  /\ emailRegex "ops.desk@ncdex.co.in" = true
  /\ emailRegex "ops desk@ncdex.com" = false
  /\ emailRegex "ops@ncdex" = false.
Proof.
  split; [reflexivity|]. split.
  - apply (proj2 (emailRegex_accepts_exactly "ops.desk@ncdex.co.in" eq_refl)).
    exists "ops.desk", "ncdex", "co.in". repeat apply conj; (reflexivity || discriminate).
  - split; reflexivity.
Defined.

End MappingSpec.

(* ===================================================================== *)
(** * More properties of the checkpoint store                            *)
(* ===================================================================== *)

Module CheckpointStoreSpec.
Import Js Runtime SyncTracker JsonSpec SyncTrackerSpec TasksSpec.

(** ** Creating a checkpoint *)

Lemma loadSyncData_run E w :
  exists w1,
    loadSyncData E w
    = (Ok {| sync_records := stored_records w;
             metadata := match sync_file w with
                         | Some d => jsonify (metadata d)
                         | None => VObj [("created_at", VStr (clock E (tick w)));
                                         ("version", VStr "1.0.0");
                                         ("description",
                                          VStr "Integration sync tracking for NCDEX scheduler utility")]
                         end |}, w1)
    /\ sync_file w1 = sync_file w /\ ledger w1 = ledger w /\ trace w1 = trace w
    /\ tick w1 = match sync_file w with Some _ => tick w | None => S (tick w) end.
Proof.
  unfold loadSyncData, stored_records, bind, read_sync_file.
  destruct (sync_file w) as [d|] eqn:Hf; eexists; (split; [reflexivity|]); simpl;
    by rewrite ?Hf.
Qed.

Lemma stored_after_save syncData w :
  stored_records (saveSyncData syncData w).2 = jsonify_obj <$> sync_records syncData.
Proof. unfold stored_records, saveSyncData; simpl. apply jsonify_obj_twice. Qed.

Lemma strict_eq_jsonify_str v s : strict_eq (jsonify v) (VStr s) = strict_eq v (VStr s).
Proof. by destruct v. Qed.

Lemma strict_eq_str v s : strict_eq v (VStr s) = is_str v s.
Proof. by destruct v. Qed.

Lemma newRecord_get recordData now :
  get (newRecord recordData now) "module_name" = get recordData "module_name"
  /\ get (newRecord recordData now) "integration_name" = get recordData "integration_name"
  /\ get (newRecord recordData now) "direction" = get recordData "direction"
  /\ get (newRecord recordData now) "last_sync_at" = VNull
  /\ get (newRecord recordData now) "updated_at" = VStr now
  /\ get (newRecord recordData now) "status"
     = or_else (get recordData "status") (VStr "pending").
Proof.
  unfold newRecord, get.
  repeat apply conj;
    repeat (rewrite lookup_insert_ne by done); by rewrite ?lookup_insert_eq.
Qed.

Lemma find_app_none {A} (p : A -> bool) l x :
  List.find p l = None -> List.find p (l ++ [x]) = if p x then Some x else None.
Proof.
  induction l as [|a l IH]; simpl; [done|]. destruct (p a); [done|]. exact IH.
Qed.

Lemma find_app_some {A} (p : A -> bool) l x y :
  List.find p l = Some y -> List.find p (l ++ [x]) = Some y.
Proof.
  induction l as [|a l IH]; simpl; [done|]. destruct (p a); [done|]. exact IH.
Qed.

Lemma createSyncRecord_run E recordData w :
  let t := match sync_file w with Some _ => tick w | None => S (tick w) end in
  exists w',
    createSyncRecord E recordData w
    = ((if existsb (collides recordData) (stored_records w)
        then Throw ("Sync record already exists for module: "
                    ++ toString (get recordData "module_name") ++ " or integration: "
                    ++ toString (get recordData "integration_name"))
        else Ok (newRecord recordData (clock E t))), w')
    /\ (if existsb (collides recordData) (stored_records w)
        then sync_file w' = sync_file w
        else stored_records w'
             = (stored_records w ++ [jsonify_obj (newRecord recordData (clock E t))])%list)
    /\ ledger w' = ledger w /\ trace w' = trace w.
Proof.
  intros t. destruct (loadSyncData_run E w) as (w1 & Hl & Hf & Hg & Ht & Hk).
  unfold createSyncRecord, bind at 1. rewrite Hl. unfold bind at 1, now at 1. simpl.
  rewrite Hk. fold t.
  destruct (existsb (collides recordData) (stored_records w)); simpl.
  - eexists. split; [reflexivity|]. by simpl.
  - eexists. split; [reflexivity|]. simpl. repeat apply conj; try done.
    unfold stored_records at 1; simpl. rewrite jsonify_obj_twice.
    unfold push. rewrite fmap_app. simpl. f_equal. apply stored_records_normal.
Qed.

(** X8: creating a checkpoint fails, with the file as it was, exactly
    when a stored record has the same [module_name] or the same
    [integration_name]; otherwise the new record is appended behind the
    stored ones, with a [null] [last_sync_at], the status [pending]
    unless a truthy one is supplied, and as [updated_at] the time the
    call has read: the first reading of the clock, or the second when
    the file was missing and the first one has stamped the empty
    document. *)
Theorem createSyncRecord_appends_or_refuses
    (E : Env) (recordData : obj) (w : World) :
  if existsb (collides recordData) (stored_records w) then
    exists w',
      createSyncRecord E recordData w
      = (Throw ("Sync record already exists for module: "
                ++ toString (get recordData "module_name") ++ " or integration: "
                ++ toString (get recordData "integration_name")), w')
      /\ sync_file w' = sync_file w
  else
    exists record w',
      createSyncRecord E recordData w = (Ok record, w')
      /\ stored_records w' = (stored_records w ++ [jsonify_obj record])%list
      /\ get record "module_name" = get recordData "module_name"
      /\ get record "integration_name" = get recordData "integration_name"
      /\ get record "direction" = get recordData "direction"
      /\ get record "last_sync_at" = VNull
      /\ get record "updated_at"
         = VStr (clock E (match sync_file w with
                          | Some _ => tick w
                          | None => S (tick w)
                          end))
      /\ tick w' = S (match sync_file w with
                      | Some _ => tick w
                      | None => S (tick w)
                      end)
      /\ get record "status" = or_else (get recordData "status") (VStr "pending").
Proof.
  destruct (createSyncRecord_run E recordData w) as (w' & Hrun & Hst & _).
  destruct (existsb (collides recordData) (stored_records w)) eqn:Hex; [eauto|].
  destruct (newRecord_get recordData
              (clock E match sync_file w with Some _ => tick w | None => S (tick w) end))
    as (? & ? & ? & ? & ? & ?).
  eexists _, w'. repeat apply conj; eauto.
  destruct (loadSyncData_run E w) as (w1 & Hl & _ & _ & _ & Hk).
  unfold createSyncRecord, bind at 1 in Hrun. rewrite Hl in Hrun.
  unfold bind at 1, now at 1 in Hrun. simpl in Hrun. rewrite Hex in Hrun.
  injection Hrun as _ <-. simpl. by rewrite Hk.
Qed.

Lemma collides_resolves recordData record m :
  get recordData "module_name" = VStr m ->
  is_str (get record "module_name") m = true -> collides recordData record = true.
Proof.
  intros Hm H. unfold collides. rewrite Hm, strict_eq_str, H. done.
Qed.

Lemma existsb_false_find recordData l m old :
  get recordData "module_name" = VStr m ->
  existsb (collides recordData) l = false ->
  List.find (resolves m) l = Some old ->
  is_str (get old "module_name") m = false /\ is_str (get old "integration_name") m = true.
Proof.
  intros Hm Hex Hfind. apply find_some in Hfind as [Hin Hres].
  assert (collides recordData old = false) as Hc.
  { destruct (collides recordData old) eqn:Hc; [|done].
    assert (existsb (collides recordData) l = true); [|congruence].
    apply existsb_exists. eauto. }
  destruct (is_str (get old "module_name") m) eqn:H1.
  - by rewrite (collides_resolves _ _ _ Hm H1) in Hc.
  - unfold resolves in Hres. rewrite H1 in Hres. done.
Qed.

(** X9: after a checkpoint has been created under the module name [m],
    a lookup by [m] returns it only if no older record answers to [m];
    an older record whose [integration_name] is [m] does not prevent the
    creation and is the one every later lookup by [m] returns. *)
Theorem lookup_after_create
    (E : Env) (recordData : obj) (m : string) (w w' : World) (record : obj) :
  get recordData "module_name" = VStr m ->
  createSyncRecord E recordData w = (Ok record, w') ->
  match List.find (resolves m) (stored_records w) with
  | None => getSyncRecord E m w' = (Ok (Some (jsonify_obj record)), w')
  | Some old =>
      getSyncRecord E m w' = (Ok (Some old), w')
      /\ is_str (get old "module_name") m = false
      /\ is_str (get old "integration_name") m = true
  end.
Proof.
  intros Hm Hrun.
  destruct (createSyncRecord_run E recordData w) as (w2 & Hrun2 & Hst & _).
  rewrite Hrun in Hrun2.
  destruct (existsb (collides recordData) (stored_records w)) eqn:Hex; [done|].
  injection Hrun2 as Hrec <-.
  assert (is_Some (sync_file w')) as Hsome.
  { unfold createSyncRecord, bind in Hrun.
    destruct (loadSyncData E w) as [[d| |] w1]; try done. simpl in Hrun.
    destruct (existsb _ _); [done|]. injection Hrun as _ <-. simpl. eauto. }
  destruct (getSyncRecord_stored E m w') as (w3 & Hget & _ & _ & _ & Hsame).
  rewrite (Hsame Hsome) in Hget. rewrite Hget, Hst.
  destruct (List.find (resolves m) (stored_records w)) as [old|] eqn:Hfind.
  - rewrite (find_app_some _ _ _ _ Hfind). split; [done|].
    by apply (existsb_false_find recordData (stored_records w)).
  - rewrite (find_app_none _ _ _ Hfind), <- Hrec.
    assert (resolves m (jsonify_obj record) = true) as ->; [|done].
    unfold resolves. rewrite get_jsonify_obj, is_str_jsonify.
    rewrite Hrec. destruct (newRecord_get recordData
      (clock E match sync_file w with Some _ => tick w | None => S (tick w) end))
      as (-> & _). rewrite Hm. simpl. by rewrite String.eqb_refl.
Qed.

(** A module name that an older record carries as its integration name. *)
Definition shadowed : obj :=
  <["module_name" := VStr "sugarcrm_members"]>
    (<["integration_name" := VStr "portal_members"]> {["direction" := VStr "outbound"]}).

Definition cases_data : obj :=
  <["module_name" := VStr "Cases"]>
    (<["integration_name" := VStr "sugarcrm_cases"]> {["direction" := VStr "inbound"]}).

Definition created_run : outcome obj * World :=
  createSyncRecord quiet cases_data one_checkpoint.

Definition shadowed_run : outcome obj * World :=
  createSyncRecord quiet shadowed one_checkpoint.

Lemma created_run_returns :
  created_run = (Ok (newRecord cases_data (clock1 0)), created_run.2).
Proof. apply pair_of_fst. reflexivity. Qed.

Lemma lookup_after_create_witness :
  getSyncRecord quiet "Cases" created_run.2
  = (Ok (Some (jsonify_obj (newRecord cases_data (clock1 0)))), created_run.2).
Proof.
  assert (get cases_data "module_name" = VStr "Cases") as Hm by reflexivity.
  pose proof (lookup_after_create quiet cases_data "Cases" one_checkpoint created_run.2
                (newRecord cases_data (clock1 0)) Hm created_run_returns) as L.
  assert (List.find (resolves "Cases") (stored_records one_checkpoint) = None) as Hn
    by reflexivity.
  rewrite Hn in L. exact L.
Defined.

(** The record created under a module name that is the integration name
    of [members_checkpoint] is stored, and a lookup by that name returns
    [members_checkpoint]. *)
Example created_record_is_shadowed :
  shadowed_run.1 = Ok (newRecord shadowed (clock1 0))
  /\ length (stored_records shadowed_run.2) = 2%nat
  /\ (getSyncRecord quiet "sugarcrm_members" shadowed_run.2).1
     = Ok (Some (jsonify_obj members_checkpoint)).
Proof. repeat apply conj; reflexivity. Qed.

(** ** Deleting a checkpoint *)

Definition others (identifier : string) (l : list obj) : list obj :=
  List.filter (λ record, negb (resolves identifier record)) l.

Definition answering (identifier : string) (l : list obj) : list obj :=
  List.filter (resolves identifier) l.

Lemma findIndex_delete identifier l i :
  findIndex identifier l = Some i ->
  others identifier (delete i l) = others identifier l
  /\ S (length (answering identifier (delete i l))) = length (answering identifier l)
  /\ S (length (delete i l)) = length l
  /\ (forall j record, (j < i)%nat -> l !! j = Some record ->
                        resolves identifier record = false).
Proof.
  unfold others, answering.
  revert i. induction l as [|r l IH]; intros i; simpl; [done|].
  destruct (resolves identifier r) eqn:Hr.
  - intros [= <-]. simpl. repeat apply conj; try done. intros j record Hj. lia.
  - destruct (findIndex identifier l) as [k|]; simpl; [|done].
    intros [= <-]. simpl. rewrite Hr. simpl.
    destruct (IH k eq_refl) as (-> & H2 & H3 & H4).
    repeat apply conj; try done; [by rewrite H3|].
    intros [|j] record Hj; simpl.
    + by intros [= <-].
    + apply H4. lia.
Qed.

Lemma deleteSyncRecord_run E identifier w :
  exists w',
    deleteSyncRecord E identifier w
    = (match findIndex identifier (stored_records w) with
       | Some _ => Ok tt
       | None => Throw ("Sync record not found for identifier: " ++ identifier)
       end, w')
    /\ match findIndex identifier (stored_records w) with
       | Some i => stored_records w' = delete i (stored_records w)
       | None => sync_file w' = sync_file w
       end
    /\ ledger w' = ledger w /\ trace w' = trace w.
Proof.
  destruct (loadSyncData_run E w) as (w1 & Hl & Hf & Hg & Ht & Hk).
  unfold deleteSyncRecord, bind at 1. rewrite Hl. simpl.
  destruct (findIndex identifier (stored_records w)) as [i|] eqn:Hi.
  - eexists. split; [reflexivity|]. simpl. repeat apply conj; try done.
    unfold stored_records at 1; simpl. rewrite jsonify_obj_twice.
    rewrite <- (stored_records_normal w) at 2.
    clear Hi. generalize (stored_records w). intros l. revert i.
    induction l as [|r l IH]; intros [|i]; simpl; try done. f_equal. apply IH.
  - eexists. split; [reflexivity|]. by simpl.
Qed.

(** X10: deleting by an identifier that no stored record answers to
    throws and leaves the file as it was; otherwise exactly one record
    goes, the first one that answers: the records that do not answer to
    the identifier are kept in their order, and of those that do, one
    fewer remains. *)
Theorem deleteSyncRecord_removes_the_first_match
    (E : Env) (identifier : string) (w : World) :
  match findIndex identifier (stored_records w) with
  | None =>
      exists w',
        deleteSyncRecord E identifier w
        = (Throw ("Sync record not found for identifier: " ++ identifier), w')
        /\ sync_file w' = sync_file w
  | Some i =>
      exists w',
        deleteSyncRecord E identifier w = (Ok tt, w')
        /\ stored_records w' = delete i (stored_records w)
        /\ others identifier (stored_records w') = others identifier (stored_records w)
        /\ S (length (answering identifier (stored_records w')))
           = length (answering identifier (stored_records w))
        /\ S (length (stored_records w')) = length (stored_records w)
        /\ (forall j record, (j < i)%nat -> stored_records w !! j = Some record ->
                              resolves identifier record = false)
  end.
Proof.
  destruct (deleteSyncRecord_run E identifier w) as (w' & Hrun & Hst & _).
  destruct (findIndex identifier (stored_records w)) as [i|] eqn:Hi; [|eauto].
  exists w'. rewrite Hst. destruct (findIndex_delete _ _ _ Hi) as (? & ? & ? & ?).
  by repeat apply conj.
Qed.

(** ** Resetting every checkpoint *)

Lemma lookup_stored_normal w i record k :
  stored_records w !! i = Some record -> jsonify_obj record !! k = record !! k.
Proof.
  intros H. rewrite <- stored_records_normal in H. rewrite list_lookup_fmap in H.
  destruct (stored_records w !! i) as [raw|]; [|done].
  injection H as <-. by rewrite jsonify_obj_idem.
Qed.

(** X11: resetting all checkpoints always returns; it leaves a file
    even if there was none, keeps the number and the order of the
    records, and gives each of them the status [pending], a [null]
    [last_sync_at] and, as [updated_at], the time the call has read
    (the first reading of the clock, or the second when the file was
    missing), every other field being kept. *)
Theorem resetAllSyncRecords_resets_every_record (E : Env) (w : World) :
  exists w',
    resetAllSyncRecords E w = (Ok tt, w')
    /\ is_Some (sync_file w')
    /\ length (stored_records w') = length (stored_records w)
    /\ ledger w' = ledger w /\ trace w' = trace w
    /\ tick w' = S (match sync_file w with
                    | Some _ => tick w
                    | None => S (tick w)
                    end)
    /\ forall i record,
         stored_records w !! i = Some record ->
         exists record',
           stored_records w' !! i = Some record'
           /\ get record' "status" = VStr "pending"
           /\ get record' "last_sync_at" = VNull
           /\ get record' "updated_at"
              = VStr (clock E (match sync_file w with
                               | Some _ => tick w
                               | None => S (tick w)
                               end))
           /\ forall k, k <> "status" -> k <> "last_sync_at" -> k <> "updated_at" ->
                        record' !! k = record !! k.
Proof.
  destruct (loadSyncData_run E w) as (w1 & Hl & Hf & Hg & Ht & Hk).
  unfold resetAllSyncRecords, bind at 1. rewrite Hl. unfold bind, now. simpl.
  eexists. split; [reflexivity|]. simpl.
  assert (forall n, stored_records
            {| tick := n;
               sync_file := Some (jsonify_data
                 {| sync_records := reset (clock E (tick w1)) <$> stored_records w;
                    metadata := match sync_file w with
                                | Some d => jsonify (metadata d)
                                | None => VObj [("created_at", VStr (clock E (tick w)));
                                                ("version", VStr "1.0.0");
                                                ("description",
                                                 VStr "Integration sync tracking for NCDEX scheduler utility")]
                                end |});
               ledger := ledger w1; trace := trace w1 |}
          = jsonify_obj <$> (reset (clock E (tick w1)) <$> stored_records w)) as Hst.
  { intros n. unfold stored_records at 1; simpl. apply jsonify_obj_twice. }
  rewrite Hst. rewrite Hk. repeat apply conj; eauto.
  - by rewrite !length_fmap.
  - intros i record Hrec. rewrite !list_lookup_fmap, Hrec. simpl.
    eexists. split; [reflexivity|].
    rewrite !get_jsonify_obj. unfold reset, get.
    repeat apply conj.
    + rewrite !lookup_insert_ne by done. by rewrite lookup_insert_eq.
    + rewrite lookup_insert_ne by done. by rewrite lookup_insert_eq.
    + by rewrite lookup_insert_eq.
    + intros k H1 H2 H3. rewrite lookup_jsonify_obj.
      rewrite !lookup_insert_ne by done.
      rewrite <- lookup_jsonify_obj. by apply (lookup_stored_normal w i).
Qed.

(** ** Statistics *)

Definition known_status (record : obj) : bool :=
  is_str (get record "status") "success"
  || is_str (get record "status") "failed"
  || is_str (get record "status") "pending".

Lemma status_counts l :
  (count "status" "success" l + count "status" "failed" l + count "status" "pending" l
   + length (List.filter (λ r, negb (known_status r)) l))%nat
  = length l.
Proof.
  unfold count, known_status. induction l as [|r l IH]; simpl; [done|].
  destruct (get r "status") as [| | | |s| |]; simpl; try lia.
  destruct (String.eqb_spec s "success") as [->|?]; simpl; [lia|].
  destruct (String.eqb_spec s "failed") as [->|?]; simpl; [lia|].
  destruct (String.eqb_spec s "pending") as [->|?]; simpl; lia.
Qed.

(** X12: the statistics never touch the file; the total is the number
    of stored records, each count is the length of the list the
    matching filter function returns, and the three status counts add
    up to the total less the records whose status is none of
    [success], [failed] and [pending]. *)
Theorem getSyncStatistics_counts
    (E : Env) (getTime : value -> number) (w : World) :
  exists stats w',
    getSyncStatistics E getTime w = (Ok stats, w')
    /\ sync_file w' = sync_file w
    /\ total_records stats = length (stored_records w)
    /\ (exists l w1, getSyncRecordsByStatus E "success" w = (Ok l, w1)
                     /\ by_status_success stats = length l)
    /\ (exists l w1, getSyncRecordsByStatus E "failed" w = (Ok l, w1)
                     /\ by_status_failed stats = length l)
    /\ (exists l w1, getSyncRecordsByStatus E "pending" w = (Ok l, w1)
                     /\ by_status_pending stats = length l)
    /\ (exists l w1, getSyncRecordsByDirection E "inbound" w = (Ok l, w1)
                     /\ by_direction_inbound stats = length l)
    /\ (exists l w1, getSyncRecordsByDirection E "outbound" w = (Ok l, w1)
                     /\ by_direction_outbound stats = length l)
    /\ (by_status_success stats + by_status_failed stats + by_status_pending stats
        + length (List.filter (λ r, negb (known_status r)) (stored_records w)))%nat
       = total_records stats
    /\ (last_updated stats = None <-> stored_records w = []).
Proof.
  destruct (loadSyncData_run E w) as (w1 & Hl & Hf & Hg & Ht & Hk).
  unfold getSyncStatistics, getSyncRecordsByStatus, getSyncRecordsByDirection, bind.
  rewrite Hl. simpl.
  eexists _, _. split; [reflexivity|]. simpl.
  repeat apply conj; eauto using status_counts.
  - by destruct (stored_records w).
  - by destruct (stored_records w).
Qed.

(** ** Reading back an update *)

Lemma stored_is_Some w i record : stored_records w !! i = Some record -> is_Some (sync_file w).
Proof. unfold stored_records. destruct (sync_file w); [eauto|done]. Qed.

(** X13: after an update that leaves the two names of the record alone,
    a lookup by the same identifier returns the record as it was stored
    by the update, and the file holds as many records as before. *)
Theorem lookup_after_update
    (E : Env) (identifier : string) (updateData : obj) (w w' : World) (updated : obj) :
  updateData !! "module_name" = None ->
  updateData !! "integration_name" = None ->
  updateSyncRecord E identifier updateData w = (Ok updated, w') ->
  getSyncRecord E identifier w' = (Ok (Some (jsonify_obj updated)), w')
  /\ length (stored_records w') = length (stored_records w).
Proof.
  intros H1 H2 Hrun.
  apply updateSyncRecord_ok_inv in Hrun
    as (i & record & Hi & Hrec & Hres & -> & Hst & _).
  destruct (checkpoint_after_update identifier (stored_records w) i record updateData
              (clock E (tick w)) Hi Hrec Hres H1 H2) as (_ & Hat & Hfind).
  rewrite <- Hst in Hat, Hfind.
  destruct (getSyncRecord_stored E identifier w') as (w3 & Hget & _ & _ & _ & Hsame).
  rewrite (Hsame (stored_is_Some _ _ _ Hat)) in Hget.
  rewrite Hget, Hfind. split; [done|]. by rewrite Hst, length_insert.
Qed.

Definition mark_failed : obj := {["status" := VStr "failed"]}.

Definition marked_run : outcome obj * World :=
  updateSyncRecord quiet "sugarcrm_members" mark_failed one_checkpoint.

Lemma marked_run_returns :
  marked_run
  = (Ok (merged (jsonify_obj members_checkpoint) mark_failed (clock1 0)), marked_run.2).
Proof. apply pair_of_fst. reflexivity. Qed.

Lemma lookup_after_update_witness :
  exists record,
    getSyncRecord quiet "sugarcrm_members" marked_run.2 = (Ok (Some record), marked_run.2)
    /\ get record "status" = VStr "failed"
    /\ get record "module_name" = VStr "Members".
Proof.
  assert (mark_failed !! "module_name" = None) as H1 by reflexivity.
  assert (mark_failed !! "integration_name" = None) as H2 by reflexivity.
  destruct (lookup_after_update quiet "sugarcrm_members" mark_failed
              one_checkpoint marked_run.2 _ H1 H2 marked_run_returns)
    as [L _].
  eexists. split; [exact L|]. split; reflexivity.
Defined.

(** An update that renames the record is not found again under the
    identifier it was made with. *)
Example renamed_record_is_lost :
  (getSyncRecord quiet "Members"
     (updateSyncRecord quiet "Members"
        (<["module_name" := VStr "Accounts"]> {["status" := VStr "pending"]})
        one_checkpoint).2).1
  = Ok None.
Proof. reflexivity. Qed.

End CheckpointStoreSpec.

(* ===================================================================== *)
(** * What a computation leaves alone                                    *)
(* ===================================================================== *)

Module FrameSpec.
Import Js Runtime SyncTrackerSpec TasksSpec.

(** ** The relations *)

(** Nothing is written to the ledger and nothing is called. *)
Definition silent (w w' : World) : Prop := ledger w' = ledger w /\ trace w' = trace w.

(** The checkpoint file is as it was. *)
Definition same_file (w w' : World) : Prop := sync_file w' = sync_file w.

(** Nothing is pushed to the Destination and nothing is written to the
    ledger. *)
Definition undelivered (w w' : World) : Prop :=
  pushes (trace w') = pushes (trace w) /\ ledger w' = ledger w.

(** Nothing is pushed to the Destination. *)
Definition same_pushes (w w' : World) : Prop := pushes (trace w') = pushes (trace w).

(** The clock has not gone back. *)
Definition later (w w' : World) : Prop := (tick w <= tick w')%nat.

Lemma silent_refl w : silent w w.
Proof. done. Qed.

Lemma silent_trans w1 w2 w3 : silent w1 w2 -> silent w2 w3 -> silent w1 w3.
Proof. unfold silent. intros [? ?] [? ?]. split; congruence. Qed.

Lemma same_file_refl w : same_file w w.
Proof. done. Qed.

Lemma same_file_trans w1 w2 w3 : same_file w1 w2 -> same_file w2 w3 -> same_file w1 w3.
Proof. unfold same_file. congruence. Qed.

Lemma undelivered_refl w : undelivered w w.
Proof. done. Qed.

Lemma undelivered_trans w1 w2 w3 :
  undelivered w1 w2 -> undelivered w2 w3 -> undelivered w1 w3.
Proof. unfold undelivered. intros [? ?] [? ?]. split; congruence. Qed.

Lemma same_pushes_refl w : same_pushes w w.
Proof. done. Qed.

Lemma same_pushes_trans w1 w2 w3 :
  same_pushes w1 w2 -> same_pushes w2 w3 -> same_pushes w1 w3.
Proof. unfold same_pushes. congruence. Qed.

Lemma later_refl w : later w w.
Proof. unfold later. lia. Qed.

Lemma later_trans w1 w2 w3 : later w1 w2 -> later w2 w3 -> later w1 w3.
Proof. unfold later. lia. Qed.

Ltac relation_law :=
  first [ assumption
        | exact silent_refl | exact silent_trans | exact same_file_refl
        | exact same_file_trans | exact undelivered_refl | exact undelivered_trans
        | exact same_pushes_refl | exact same_pushes_trans
        | exact later_refl | exact later_trans ].

(** ** A relation that every step of a computation respects *)

Section frame.
Context (R : World -> World -> Prop).
Hypothesis R_refl : forall w, R w w.
Hypothesis R_trans : forall w1 w2 w3, R w1 w2 -> R w2 w3 -> R w1 w3.

(** Wherever [m] starts, the world it ends in is related to the one it
    started in. *)
Definition respects {A : Type} (m : M A) : Prop := forall w, R w (m w).2.

Lemma respects_ret {A : Type} (a : A) : respects (ret a).
Proof. intros w. apply R_refl. Qed.

Lemma respects_throw {A : Type} e : respects (throw (A := A) e).
Proof. intros w. apply R_refl. Qed.

Lemma respects_out_of_fuel {A : Type} : respects (out_of_fuel (A := A)).
Proof. intros w. apply R_refl. Qed.

Lemma respects_lift {A : Type} (r : result A) : respects (lift r).
Proof. destruct r; intros w; apply R_refl. Qed.

Lemma respects_read : respects read_sync_file.
Proof. intros w. apply R_refl. Qed.

Lemma respects_bind {A B : Type} (m : M A) (k : A -> M B) :
  respects m -> (forall a, respects (k a)) -> respects (bind m k).
Proof.
  intros Hm Hk w. unfold bind. specialize (Hm w).
  destruct (m w) as [[a|e|] w1]; simpl in *; [|done|done].
  eapply R_trans; [exact Hm|]. apply Hk.
Qed.

(** What follows a [throw] is not run. *)
Lemma respects_after_throw {A B : Type} e (k : A -> M B) : respects (bind (throw e) k).
Proof. intros w. apply R_refl. Qed.

Lemma respects_try_catch {A : Type} (m : M A) (h : string -> M A) :
  respects m -> (forall e, respects (h e)) -> respects (try_catch m h).
Proof.
  intros Hm Hh w. unfold try_catch. specialize (Hm w).
  destruct (m w) as [[a|e|] w1]; simpl in *; [done| |done].
  eapply R_trans; [exact Hm|]. apply Hh.
Qed.

Lemma respects_detached {A : Type} (m : M A) : respects m -> respects (Tasks.detached m).
Proof.
  intros Hm w. unfold Tasks.detached. specialize (Hm w).
  by destruct (m w) as [[a|e|] w1].
Qed.

End frame.

(** A computation that ends: it returns or it throws. *)
Definition ends {A : Type} (m : M A) : Prop := forall w, (m w).1 <> OutOfFuel.

Lemma ends_ret {A : Type} (a : A) : ends (ret a).
Proof. done. Qed.

Lemma ends_throw {A : Type} e : ends (throw (A := A) e).
Proof. done. Qed.

Lemma ends_lift {A : Type} (r : result A) : ends (lift r).
Proof. by destruct r. Qed.

Lemma ends_now E : ends (now E).
Proof. done. Qed.

Lemma ends_emit e : ends (emit e).
Proof. done. Qed.

Lemma ends_read : ends read_sync_file.
Proof. done. Qed.

Lemma ends_write d : ends (write_sync_file d).
Proof. done. Qed.

Lemma ends_insert_row params : ends (insert_row params).
Proof. done. Qed.

Lemma ends_bind {A B : Type} (m : M A) (k : A -> M B) :
  ends m -> (forall a, ends (k a)) -> ends (bind m k).
Proof.
  intros Hm Hk w. unfold bind. specialize (Hm w).
  destruct (m w) as [[a|e|] w1]; simpl in *; [apply Hk|done|done].
Qed.

Lemma ends_try_catch {A : Type} (m : M A) (h : string -> M A) :
  ends m -> (forall e, ends (h e)) -> ends (try_catch m h).
Proof.
  intros Hm Hh w. unfold try_catch. specialize (Hm w).
  destruct (m w) as [[a|e|] w1]; simpl in *; [done|apply Hh|done].
Qed.

(** The steps of a proof that a computation built from [bind],
    [try_catch] and case distinctions respects a relation or ends;
    [known] closes the goals about the functions it is built from. *)
Ltac framed known :=
  repeat first
    [ known
    | apply respects_after_throw; relation_law
    | apply respects_bind; [relation_law| |intros ?]
    | apply respects_try_catch; [relation_law| |intros ?]
    | apply respects_ret; relation_law
    | apply respects_throw; relation_law
    | apply respects_out_of_fuel; relation_law
    | apply respects_lift; relation_law
    | apply respects_read; relation_law
    | apply respects_detached
    | apply ends_bind; [|intros ?]
    | apply ends_try_catch; [|intros ?]
    | apply ends_ret
    | apply ends_throw
    | apply ends_lift
    | apply ends_now
    | apply ends_emit
    | apply ends_read
    | apply ends_write
    | apply ends_insert_row
    | match goal with
      | |- respects _ (match ?x with _ => _ end) => destruct x
      | |- respects _ (if ?x then _ else _) => destruct x
      | |- ends (match ?x with _ => _ end) => destruct x
      | |- ends (if ?x then _ else _) => destruct x
      end ].

(** ** Reading the Source and writing the checkpoint *)

(** The calls made to the Source: everything but a push and a row. *)
Definition asks (e : event) : bool :=
  match e with
  | EPush _ _ | EInsert _ => false
  | _ => true
  end.

Section source_side.
Context (R : World -> World -> Prop).
Hypothesis R_refl : forall w, R w w.
Hypothesis R_trans : forall w1 w2 w3, R w1 w2 -> R w2 w3 -> R w1 w3.
Hypothesis R_clock :
  forall w t, (tick w <= t)%nat ->
    R w {| tick := t; sync_file := sync_file w; ledger := ledger w; trace := trace w |}.
Hypothesis R_write :
  forall w d,
    R w {| tick := tick w; sync_file := Some d; ledger := ledger w; trace := trace w |}.
Hypothesis R_ask :
  forall w e, asks e = true ->
    R w {| tick := tick w; sync_file := sync_file w; ledger := ledger w;
           trace := push (trace w) e |}.

Lemma respects_now E : respects R (now E).
Proof. intros w. apply R_clock. lia. Qed.

Lemma respects_write d : respects R (write_sync_file d).
Proof. intros w. apply R_write. Qed.

Lemma respects_ask e : asks e = true -> respects R (emit e).
Proof. intros He w. by apply R_ask. Qed.

Ltac basic :=
  first [ apply respects_now | apply respects_write | apply respects_ask; reflexivity ].

Lemma respects_loadSyncData E : respects R (SyncTracker.loadSyncData E).
Proof. unfold SyncTracker.loadSyncData. framed basic. Qed.

Lemma respects_saveSyncData d : respects R (SyncTracker.saveSyncData d).
Proof. apply respects_write. Qed.

Lemma respects_getSyncRecord E identifier :
  respects R (SyncTracker.getSyncRecord E identifier).
Proof.
  unfold SyncTracker.getSyncRecord. framed ltac:(apply respects_loadSyncData).
Qed.

Lemma respects_updateSyncRecord E identifier updateData :
  respects R (SyncTracker.updateSyncRecord E identifier updateData).
Proof.
  unfold SyncTracker.updateSyncRecord.
  framed ltac:(first [apply respects_loadSyncData | apply respects_saveSyncData | basic]).
Qed.

Lemma respects_sugarCRMPost E config : respects R (SugarCRM.sugarCRMPost E config).
Proof. unfold SugarCRM.sugarCRMPost. framed basic. Qed.

Lemma respects_fetchLoop fuel E config onPage offset acc total :
  respects R (SugarCRM.fetchLoop fuel E config onPage offset acc total).
Proof.
  revert offset acc total. induction fuel as [|fuel IH]; intros offset acc total; simpl;
    [framed basic|].
  apply respects_bind; [done| |].
  - framed ltac:(first [apply respects_sugarCRMPost | basic]).
  - intros [[[continue o] a] t]. destruct continue; [apply IH|framed basic].
Qed.

Lemma respects_fetchAllRecords fuel E config onPage :
  respects R (SugarCRM.fetchAllRecords fuel E config onPage).
Proof.
  unfold SugarCRM.fetchAllRecords. framed ltac:(first [apply respects_fetchLoop | basic]).
Qed.

Lemma applyComputed_clock clock st entry :
  (st.2 <= (Transformer.applyComputed clock st entry).2)%nat.
Proof.
  destruct st as [record t]. unfold Transformer.applyComputed. simpl.
  destruct (String.eqb _ "timestamp"); simpl; [lia|].
  destruct (String.eqb _ "copy_from_name"); simpl.
  - destruct (get record "name"); simpl; lia.
  - destruct (String.eqb _ "current_date"); simpl; lia.
Qed.

Lemma applyComputedFields_clock clock computed st :
  (st.2 <= (Transformer.applyComputedFields clock computed st).2)%nat.
Proof.
  unfold Transformer.applyComputedFields. destruct computed as [l|]; [|lia].
  revert st. induction l as [|e l IH]; intros st; simpl; [lia|].
  etrans; [apply (applyComputed_clock clock st e)|apply IH].
Qed.

Lemma transformSugarcrmToPortal_clock config clock t record mappingType :
  (t <= (Transformer.transformSugarcrmToPortal config clock t record mappingType).2)%nat.
Proof.
  unfold Transformer.transformSugarcrmToPortal, Transformer.transformWith.
  destruct (Transformer.loadFieldMappings config mappingType) as [m|e]; simpl; [|lia].
  destruct (Transformer.applyFieldMappings record _) as [mapped errors1].
  pose proof (applyComputedFields_clock clock (Transformer.computed_fields m)
                (Transformer.applyDefaults (Transformer.default_values m) mapped, t)) as H.
  destruct (Transformer.applyComputedFields _ _ _) as [rec t']. simpl in H.
  destruct (Transformer.validation_rules m) as [rules|]; [|done].
  by destruct (Transformer.validateTransformedRecord _ _ _) as [[? ?]|?].
Qed.

Lemma respects_transform E record mappingType :
  respects R (Tasks.transform E record mappingType).
Proof.
  intros w. unfold Tasks.transform.
  pose proof (transformSugarcrmToPortal_clock (config E) (clock E) (tick w) record
                mappingType) as H.
  destruct (Transformer.transformSugarcrmToPortal _ _ _ _ _) as [[r|e] t];
    simpl in *; by apply R_clock.
Qed.

Lemma respects_processRecords E mappingType shape fallback records acc :
  respects R (Tasks.processRecords E mappingType shape fallback records acc).
Proof.
  revert acc. induction records as [|r l IH]; intros acc; simpl;
    framed ltac:(first [apply respects_transform | apply IH]).
Qed.

End source_side.

(** ** Writing the ledger and pushing to the Destination *)

Section ledger_side.
Context (R : World -> World -> Prop).
Hypothesis R_refl : forall w, R w w.
Hypothesis R_trans : forall w1 w2 w3, R w1 w2 -> R w2 w3 -> R w1 w3.
Hypothesis R_insert :
  forall w params,
    R w {| tick := tick w; sync_file := sync_file w; ledger := ledger w;
           trace := push (trace w) (EInsert params) |}.
Hypothesis R_row :
  forall w params,
    R w {| tick := tick w; sync_file := sync_file w; ledger := push (ledger w) params;
           trace := trace w |}.

Lemma respects_insert params : respects R (emit (EInsert params)).
Proof. intros w. apply R_insert. Qed.

Lemma respects_insert_row params : respects R (insert_row params).
Proof. intros w. apply R_row. Qed.

Ltac basic := first [ apply respects_insert | apply respects_insert_row ].

Lemma respects_query E params : respects R (IntegrationLogger.query E params).
Proof. unfold IntegrationLogger.query. framed basic. Qed.

Lemma respects_logIntegration E logData :
  respects R (IntegrationLogger.logIntegration E logData).
Proof.
  unfold IntegrationLogger.logIntegration.
  destruct (_ || _); [framed basic|].
  apply respects_try_catch; [done| |intros ?; framed basic].
  apply respects_bind; [done|apply respects_query|]. intros result.
  destruct (IntegrationLogger.query_success result), (IntegrationLogger.rows result);
    framed basic.
Qed.

Lemma respects_logResults E results : respects R (PortalAPI.logResults E results).
Proof.
  induction results as [|r l IH]; simpl;
    framed ltac:(first [apply respects_logIntegration | apply IH]).
Qed.

Hypothesis R_push :
  forall w url batch,
    R w {| tick := tick w; sync_file := sync_file w; ledger := ledger w;
           trace := push (trace w) (EPush url batch) |}.

Lemma respects_push url batch : respects R (emit (EPush url batch)).
Proof. intros w. apply R_push. Qed.

Lemma respects_callPortalAPI E portalUrl data moduleName :
  respects R (PortalAPI.callPortalAPI E portalUrl data moduleName).
Proof.
  unfold PortalAPI.callPortalAPI.
  framed ltac:(first [ apply respects_logIntegration | apply respects_logResults
                     | apply respects_push ]).
Qed.

Lemma respects_syncToPortal E endpoint moduleName batch :
  respects R (Tasks.syncToPortalWithPrefix E endpoint moduleName batch)
  /\ respects R (Tasks.syncToPortalPlain E endpoint moduleName batch).
Proof.
  unfold Tasks.syncToPortalWithPrefix, Tasks.syncToPortalPlain,
    PortalAPI.callPortalAPIWithEnv.
  split; framed ltac:(apply respects_callPortalAPI).
Qed.

End ledger_side.

(** ** What ends *)

Lemma loadSyncData_ends E : ends (SyncTracker.loadSyncData E).
Proof. unfold SyncTracker.loadSyncData. framed fail. Qed.

Lemma store_ends E :
  (forall identifier, ends (SyncTracker.getSyncRecord E identifier))
  /\ (forall identifier updateData,
        ends (SyncTracker.updateSyncRecord E identifier updateData))
  /\ (forall recordData, ends (SyncTracker.createSyncRecord E recordData))
  /\ ends (SyncTracker.getAllSyncRecords E)
  /\ (forall status, ends (SyncTracker.getSyncRecordsByStatus E status))
  /\ (forall direction, ends (SyncTracker.getSyncRecordsByDirection E direction))
  /\ (forall identifier, ends (SyncTracker.deleteSyncRecord E identifier))
  /\ (forall getTime, ends (SyncTracker.getSyncStatistics E getTime))
  /\ ends (SyncTracker.resetAllSyncRecords E).
Proof.
  unfold SyncTracker.getSyncRecord, SyncTracker.updateSyncRecord,
    SyncTracker.createSyncRecord, SyncTracker.getAllSyncRecords,
    SyncTracker.getSyncRecordsByStatus, SyncTracker.getSyncRecordsByDirection,
    SyncTracker.deleteSyncRecord, SyncTracker.getSyncStatistics,
    SyncTracker.resetAllSyncRecords, SyncTracker.saveSyncData.
  repeat apply conj; intros; framed ltac:(apply loadSyncData_ends).
Qed.

(** ** The checkpoint store *)

Lemma silent_clock w t :
  silent w {| tick := t; sync_file := sync_file w; ledger := ledger w; trace := trace w |}.
Proof. done. Qed.

Lemma silent_write w d :
  silent w {| tick := tick w; sync_file := Some d; ledger := ledger w; trace := trace w |}.
Proof. done. Qed.

Lemma loadSyncData_silent E : respects silent (SyncTracker.loadSyncData E).
Proof.
  unfold SyncTracker.loadSyncData.
  framed ltac:(intros w; apply silent_clock).
Qed.

Lemma saveSyncData_silent d : respects silent (SyncTracker.saveSyncData d).
Proof. intros w. apply silent_write. Qed.

Lemma now_silent E : respects silent (now E).
Proof. done. Qed.

(** Every function of the checkpoint store writes nothing to the ledger
    and calls nothing. *)
Lemma store_silent E :
  (forall identifier, respects silent (SyncTracker.getSyncRecord E identifier))
  /\ (forall identifier updateData,
        respects silent (SyncTracker.updateSyncRecord E identifier updateData))
  /\ (forall recordData, respects silent (SyncTracker.createSyncRecord E recordData))
  /\ respects silent (SyncTracker.getAllSyncRecords E)
  /\ (forall status, respects silent (SyncTracker.getSyncRecordsByStatus E status))
  /\ (forall direction, respects silent (SyncTracker.getSyncRecordsByDirection E direction))
  /\ (forall identifier, respects silent (SyncTracker.deleteSyncRecord E identifier))
  /\ (forall getTime, respects silent (SyncTracker.getSyncStatistics E getTime))
  /\ respects silent (SyncTracker.resetAllSyncRecords E).
Proof.
  repeat apply conj; intros;
    unfold SyncTracker.getSyncRecord, SyncTracker.updateSyncRecord,
      SyncTracker.createSyncRecord, SyncTracker.getAllSyncRecords,
      SyncTracker.getSyncRecordsByStatus, SyncTracker.getSyncRecordsByDirection,
      SyncTracker.deleteSyncRecord, SyncTracker.getSyncStatistics,
      SyncTracker.resetAllSyncRecords;
    framed ltac:(first [ apply loadSyncData_silent | apply saveSyncData_silent
                       | apply now_silent ]).
Qed.

Lemma loadSyncData_same_file E : respects same_file (SyncTracker.loadSyncData E).
Proof.
  unfold SyncTracker.loadSyncData. framed ltac:(apply keeps_now).
Qed.

(** The functions that only read leave the checkpoint file as it was. *)
Lemma store_reads E :
  (forall identifier, respects same_file (SyncTracker.getSyncRecord E identifier))
  /\ respects same_file (SyncTracker.getAllSyncRecords E)
  /\ (forall status, respects same_file (SyncTracker.getSyncRecordsByStatus E status))
  /\ (forall direction,
        respects same_file (SyncTracker.getSyncRecordsByDirection E direction))
  /\ (forall getTime, respects same_file (SyncTracker.getSyncStatistics E getTime)).
Proof.
  unfold SyncTracker.getSyncRecord, SyncTracker.getAllSyncRecords,
    SyncTracker.getSyncRecordsByStatus, SyncTracker.getSyncRecordsByDirection,
    SyncTracker.getSyncStatistics.
  repeat apply conj; intros; framed ltac:(apply loadSyncData_same_file).
Qed.

End FrameSpec.

(* ===================================================================== *)
(** * Properties of the command line of the checkpoint store             *)
(* ===================================================================== *)

Module ManageSyncSpec.
Import Js Runtime ManageSync SyncTrackerSpec TasksSpec FrameSpec CheckpointStoreSpec.
Local Open Scope run_scope.

(** ** The dispatcher *)

(** The commands that can change the checkpoint file: [reset], and
    [create] and [delete] once their arguments pass the checks. *)
Definition given (o : option string) : bool :=
  match o with
  | Some _ => true
  | None => false
  end.

Definition may_write (args : list string) : bool :=
  match args !! 0%nat with
  | Some command =>
      String.eqb command "reset"
      || (String.eqb command "delete" && given (arg args 1))
      || (String.eqb command "create"
          && given (arg args 1) && given (arg args 2)
          && one_of ["inbound"; "outbound"] (arg args 3))
  | None => false
  end.

Lemma swallowed {A : Type} (m : M A) (a : A) w :
  ends m -> (forall x : A, x = a) ->
  try_catch m (λ _, ret a) w = (Ok a, (m w).2).
Proof.
  intros He Ha. unfold try_catch. specialize (He w).
  destruct (m w) as [[x|e|] w1]; simpl in *; [by rewrite (Ha x)|done|done].
Qed.

Ltac store_known E :=
  first [ apply (store_silent E) | apply (store_ends E) | apply (store_reads E) ].

Lemma handlers_silent E getTime args :
  respects silent (handleListCommand E args)
  /\ respects silent (handleStatsCommand E getTime)
  /\ respects silent (handleShowCommand E args)
  /\ respects silent (handleResetCommand E args)
  /\ respects silent (handleCreateCommand E args)
  /\ respects silent (handleDeleteCommand E args).
Proof.
  unfold handleListCommand, handleStatsCommand, handleShowCommand, handleResetCommand,
    handleCreateCommand, handleDeleteCommand.
  repeat apply conj; framed ltac:(store_known E).
Qed.

Lemma handlers_end E getTime args :
  ends (handleListCommand E args)
  /\ ends (handleStatsCommand E getTime)
  /\ ends (handleShowCommand E args)
  /\ ends (handleResetCommand E args)
  /\ ends (handleCreateCommand E args)
  /\ ends (handleDeleteCommand E args).
Proof.
  unfold handleListCommand, handleStatsCommand, handleShowCommand, handleResetCommand,
    handleCreateCommand, handleDeleteCommand.
  repeat apply conj; framed ltac:(store_known E).
Qed.

Lemma readers_same_file E getTime args :
  respects same_file (handleListCommand E args)
  /\ respects same_file (handleStatsCommand E getTime)
  /\ respects same_file (handleShowCommand E args).
Proof.
  unfold handleListCommand, handleStatsCommand, handleShowCommand.
  repeat apply conj; framed ltac:(store_known E).
Qed.

(** The body of the [try]. *)
Definition dispatch (E : Env) (getTime : value -> SyncTracker.number) (args : list string)
  : M unit :=
  match args !! 0%nat with
  | None => handleListCommand E args
  | Some command =>
      if String.eqb command "list" then handleListCommand E args
      else if String.eqb command "stats" then handleStatsCommand E getTime
      else if String.eqb command "show" then handleShowCommand E args
      else if String.eqb command "reset" then handleResetCommand E args
      else if String.eqb command "create" then handleCreateCommand E args
      else if String.eqb command "delete" then handleDeleteCommand E args
      else ret tt
  end.

Lemma manageSync_dispatch E getTime args w :
  manageSync E getTime args w = (Ok tt, (dispatch E getTime args w).2).
Proof.
  unfold manageSync. fold (dispatch E getTime args).
  apply swallowed; [|by intros []].
  destruct (handlers_end E getTime args) as (? & ? & ? & ? & ? & ?).
  unfold dispatch. framed assumption.
Qed.

Lemma dispatch_silent E getTime args : respects silent (dispatch E getTime args).
Proof.
  destruct (handlers_silent E getTime args) as (? & ? & ? & ? & ? & ?).
  unfold dispatch. framed assumption.
Qed.

Lemma dispatch_same_file E getTime args :
  may_write args = false -> respects same_file (dispatch E getTime args).
Proof.
  destruct (readers_same_file E getTime args) as (? & ? & ?).
  unfold may_write, dispatch. destruct (args !! 0%nat) as [command|]; [|done].
  destruct (String.eqb command "list"); [done|].
  destruct (String.eqb command "stats"); [done|].
  destruct (String.eqb command "show"); [done|].
  destruct (String.eqb command "reset"); [done|]. simpl.
  destruct (String.eqb command "create"); simpl.
  - unfold handleCreateCommand.
    destruct (arg args 1) as [m|]; [|intros _ w; done].
    destruct (arg args 2) as [i|]; [|intros _ w; done].
    destruct (arg args 3) as [d|]; [|intros _ w; done]. simpl.
    destruct (String.eqb d "inbound"), (String.eqb d "outbound"); simpl;
      rewrite ?orb_true_r; try done; intros _ w; done.
  - destruct (String.eqb command "delete"); simpl; [|intros _ w; done].
    unfold handleDeleteCommand. destruct (arg args 1); [done|]. intros _ w; done.
Qed.

(** X14: whatever the command and whatever happens, [manageSync]
    returns: the error of a handler is printed and not thrown.  It
    writes nothing to the ledger and calls neither remote system, and
    only [reset], and [create] and [delete] once their arguments pass
    the checks, can change the checkpoint file. *)
Theorem manageSync_never_throws
    (E : Env) (getTime : value -> SyncTracker.number) (args : list string) (w : World) :
  exists w',
    manageSync E getTime args w = (Ok tt, w')
    /\ ledger w' = ledger w
    /\ trace w' = trace w
    /\ (may_write args = false -> sync_file w' = sync_file w).
Proof.
  eexists. split; [apply manageSync_dispatch|].
  destruct (dispatch_silent E getTime args w) as [Hl Ht].
  repeat apply conj; try done.
  intros Hr. by apply dispatch_same_file.
Qed.

Lemma existsb_same {A : Type} (f g : A -> bool) (l : list A) :
  (forall x, f x = g x) -> existsb f l = existsb g l.
Proof. intros H. induction l as [|x l IH]; simpl; [done|]. by rewrite H, IH. Qed.

(** X15: a [create] whose arguments pass the checks returns whether or
    not the record could be created: when a stored record has the same
    module name or the same integration name the file is as it was,
    otherwise the record is appended to it. *)
Theorem manageSync_create_appends_or_keeps
    (E : Env) (getTime : value -> SyncTracker.number)
    (moduleName integrationName direction : string) (rest : list string) (w : World) :
  moduleName <> "" -> integrationName <> "" ->
  direction = "inbound" \/ direction = "outbound" ->
  exists w',
    manageSync E getTime ("create" :: moduleName :: integrationName :: direction :: rest) w
    = (Ok tt, w')
    /\ if existsb (λ record, is_str (get record "module_name") moduleName
                             || is_str (get record "integration_name") integrationName)
            (stored_records w)
       then sync_file w' = sync_file w
       else exists record,
              stored_records w' = (stored_records w ++ [record])%list
              /\ get record "module_name" = VStr moduleName
              /\ get record "integration_name" = VStr integrationName
              /\ get record "direction" = VStr direction
              /\ get record "status" = VStr "pending"
              /\ get record "last_sync_at" = VNull.
Proof.
  intros Hm Hi Hd. eexists. split; [apply manageSync_dispatch|].
  unfold dispatch, handleCreateCommand, arg. simpl.
  destruct (String.eqb_spec moduleName "") as [?|_]; [done|].
  destruct (String.eqb_spec integrationName "") as [?|_]; [done|].
  destruct (String.eqb_spec direction "") as [?|_]; [by destruct Hd; subst|].
  assert (negb (String.eqb direction "inbound") && negb (String.eqb direction "outbound")
          = false) as ->.
  { by destruct Hd as [-> | ->]. }
  set (recordData := (<["module_name" := VStr moduleName]> _ : obj)).
  destruct (createSyncRecord_run E recordData w) as (w1 & Hrun & Hst & _).
  assert (forall record, SyncTracker.collides recordData record
            = is_str (get record "module_name") moduleName
              || is_str (get record "integration_name") integrationName) as Hcol.
  { intros record. unfold SyncTracker.collides.
    change (get recordData "module_name") with (VStr moduleName).
    assert (get recordData "integration_name" = VStr integrationName) as ->.
    { unfold recordData, get. rewrite lookup_insert_ne by done.
      by rewrite lookup_insert_eq. }
    by rewrite !strict_eq_str. }
  rewrite (existsb_same _ _ _ Hcol) in Hrun, Hst.
  unfold bind. rewrite Hrun.
  destruct (existsb _ (stored_records w)); simpl; [done|].
  eexists. split; [exact Hst|].
  rewrite !get_jsonify_obj.
  destruct (newRecord_get recordData
              (clock E match sync_file w with Some _ => tick w | None => S (tick w) end))
    as (-> & -> & -> & -> & _ & ->).
  assert (get recordData "integration_name" = VStr integrationName) as ->.
  { unfold recordData, get. rewrite lookup_insert_ne by done. by rewrite lookup_insert_eq. }
  assert (get recordData "direction" = VStr direction) as ->.
  { unfold recordData, get. rewrite !lookup_insert_ne by done. by rewrite lookup_insert_eq. }
  assert (get recordData "status" = VUndef) as ->.
  { unfold recordData, get. rewrite !lookup_insert_ne by done. by rewrite lookup_singleton_ne. }
  by repeat apply conj.
Qed.

Lemma manageSync_create_appends_or_keeps_witness :
  exists w',
    manageSync quiet (λ _, SyncTracker.NaN)
      ["create"; "Cases"; "sugarcrm_cases"; "inbound"] one_checkpoint = (Ok tt, w')
    /\ length (stored_records w') = 2%nat.
Proof.
  destruct (manageSync_create_appends_or_keeps quiet (λ _, SyncTracker.NaN)
              "Cases" "sugarcrm_cases" "inbound" [] one_checkpoint)
    as (w' & Hrun & Hst); [discriminate|discriminate|by left|].
  exists w'. split; [exact Hrun|].
  assert (existsb (λ record, is_str (get record "module_name") "Cases"
                             || is_str (get record "integration_name") "sugarcrm_cases")
            (stored_records one_checkpoint) = false) as Hn by reflexivity.
  rewrite Hn in Hst. destruct Hst as (record & -> & _). reflexivity.
Defined.

(** X16: [reset], [delete] and [show] of an identifier that no stored
    record answers to return like a successful command and leave the
    file as it was. *)
Theorem manageSync_unknown_identifier
    (E : Env) (getTime : value -> SyncTracker.number)
    (command identifier : string) (rest : list string) (w : World) :
  In command ["reset"; "delete"; "show"] ->
  identifier <> "" ->
  SyncTracker.findIndex identifier (stored_records w) = None ->
  exists w',
    manageSync E getTime (command :: identifier :: rest) w = (Ok tt, w')
    /\ sync_file w' = sync_file w.
Proof.
  intros Hc Hid Hnone. eexists. split; [apply manageSync_dispatch|].
  unfold dispatch. simpl in Hc.
  destruct Hc as [<-|[<-|[<-|[]]]]; simpl.
  - unfold handleResetCommand. simpl.
    destruct (String.eqb_spec identifier "") as [?|_]; [done|].
    destruct (updateSyncRecord_missing E identifier
                (<["last_sync_at" := VNull]> {["status" := VStr "pending"]}) w Hnone)
      as (w1 & Hrun & Hf & _).
    unfold bind. by rewrite Hrun.
  - unfold handleDeleteCommand, arg. simpl.
    destruct (String.eqb_spec identifier "") as [?|_]; [done|].
    destruct (deleteSyncRecord_run E identifier w) as (w1 & Hrun & Hst & _).
    rewrite Hnone in Hrun, Hst. by rewrite Hrun.
  - destruct (readers_same_file E getTime (("show" : string) :: identifier :: rest))
      as (_ & _ & Hshow).
    apply Hshow.
Qed.

Lemma manageSync_unknown_identifier_witness :
  exists w',
    manageSync quiet (λ _, SyncTracker.NaN) ["delete"; "Cases"] one_checkpoint = (Ok tt, w')
    /\ sync_file w' = sync_file one_checkpoint.
Proof.
  apply (manageSync_unknown_identifier quiet (λ _, SyncTracker.NaN) "delete" "Cases" []
           one_checkpoint).
  - simpl. auto.
  - discriminate.
  - reflexivity.
Defined.

End ManageSyncSpec.

(* ===================================================================== *)
(** * Properties of the calls to the Destination                         *)
(* ===================================================================== *)

Module PortalSpec.
Import Js Runtime IntegrationLogger PortalAPI IntegrationLoggerSpec TasksSpec FrameSpec.

(** ** What a call writes and sends *)

Definition pool_up (E : Env) : bool :=
  match pool E with
  | Returns _ => true
  | Throws _ => false
  end.

Definition db_returns (E : Env) (params : list value) : bool :=
  match db E params with
  | Returns _ => true
  | Throws _ => false
  end.

(** The rows the database is asked to insert for [entries]: those of
    the complete entries, if the pool can be created at all. *)
Definition asked (E : Env) (entries : list obj) : list (list value) :=
  if pool_up E
  then params_of <$> List.filter (λ logData, negb (incomplete logData)) entries
  else [].

(** The entries a call logs: one for each element of a response that is
    an array, one for a failure. *)
Definition failure_entry (moduleName message : string) : obj :=
  list_to_map
    [ ("log_type", VStr "Error");
      ("module_name", VStr moduleName);
      ("http_status", VNum 0);
      ("internal_status", VStr "Failed");
      ("message", VStr ("Portal API call failed: " ++ message)) ].

(** The elements of a response before the first one that is [null],
    and that one, if there is one. *)
Fixpoint readable (results : list value) : list value :=
  match results with
  | [] => []
  | result :: rest => if nullish result then [] else result :: readable rest
  end.

Definition unreadable (responseData : value) : option value :=
  match responseData with
  | VArr results => List.find nullish results
  | _ => None
  end.

(** The error of a call: that of the request, or the [TypeError] of the
    first element of the response that cannot be read. *)
Definition failure (E : Env) (portalUrl : string) (data : list obj) : option string :=
  match portal_http E portalUrl data with
  | Returns responseData =>
      (λ result, cannot_read result "validationErrors") <$> unreadable responseData
  | Throws message => Some message
  end.

Definition logged (E : Env) (portalUrl : string) (data : list obj) (moduleName : string)
  : list obj :=
  (match portal_http E portalUrl data with
   | Returns (VArr results) => (λ result, entry_of (properties result)) <$> readable results
   | _ => []
   end
   ++ match failure E portalUrl data with
      | Some message => [failure_entry moduleName message]
      | None => []
      end)%list.

Definition after_rows (E : Env) (w : World) (events : list event)
    (rows : list (list value)) : World :=
  {| tick := tick w; sync_file := sync_file w;
     ledger := (ledger w ++ List.filter (db_returns E) rows)%list;
     trace := (trace w ++ events ++ (EInsert <$> rows))%list |}.

Lemma after_rows_nil E w : after_rows E w [] [] = w.
Proof. destruct w. unfold after_rows. simpl. by rewrite !app_nil_r. Qed.

Lemma after_rows_app E w events rows1 rows2 :
  after_rows E (after_rows E w events rows1) [] rows2
  = after_rows E w events (rows1 ++ rows2).
Proof.
  unfold after_rows. simpl. f_equal.
  - by rewrite List.filter_app, app_assoc.
  - by rewrite fmap_app, !app_assoc.
Qed.

Lemma logIntegration_effect E logData w :
  exists r,
    logIntegration E logData w = (Ok r, after_rows E w [] (asked E [logData])).
Proof.
  unfold logIntegration, asked. fold (incomplete logData). simpl.
  destruct (incomplete logData) eqn:Hinc; simpl.
  - exists (LogFailed missing_fields). destruct (pool_up E); by rewrite after_rows_nil.
  - unfold try_catch, bind, query, lift, emit, insert_row, ret, throw, pool_up,
      after_rows, db_returns, push.
    destruct (pool E) as [[]|e]; simpl.
    + destruct (db E (params_of logData)) as [[|row rest]|e]; simpl;
        eexists; rewrite ?app_nil_r; reflexivity.
    + eexists. destruct w; simpl. rewrite !app_nil_r. reflexivity.
Qed.

Lemma asked_cons E logData entries :
  asked E (logData :: entries) = (asked E [logData] ++ asked E entries)%list.
Proof.
  unfold asked. destruct (pool_up E); [|done]. simpl.
  by destruct (negb (incomplete logData)).
Qed.

Lemma asked_app E entries1 entries2 :
  asked E (entries1 ++ entries2) = (asked E entries1 ++ asked E entries2)%list.
Proof.
  unfold asked. destruct (pool_up E); [|done]. by rewrite List.filter_app, fmap_app.
Qed.

Lemma asked_nil E : asked E [] = [].
Proof. unfold asked. by destruct (pool_up E). Qed.

(** The loop logs the elements it can read and stops at the first one
    it cannot. *)
Lemma logResults_effect E results w :
  logResults E results w
  = (match List.find nullish results with
     | Some result => Throw (cannot_read result "validationErrors")
     | None => Ok tt
     end,
     after_rows E w [] (asked E ((λ result, entry_of (properties result))
                                   <$> readable results))).
Proof.
  revert w. induction results as [|r l IH]; intros w; simpl.
  - by rewrite asked_nil, after_rows_nil.
  - destruct (nullish r) eqn:Hr; simpl.
    + by rewrite asked_nil, after_rows_nil.
    + destruct (logIntegration_effect E (entry_of (properties r)) w) as [x Hx].
      unfold bind. rewrite Hx, IH, after_rows_app.
      do 2 f_equal. symmetry. apply asked_cons.
Qed.

(** The whole effect of a call. *)
Lemma callPortalAPI_run
    (E : Env) (portalUrl : string) (data : list obj) (moduleName : string) (w : World) :
  exists reply,
    callPortalAPI E portalUrl data moduleName w
    = (Ok reply,
       after_rows E w [EPush portalUrl data]
         (asked E (logged E portalUrl data moduleName)))
    /\ match failure E portalUrl data with
       | None =>
           reply_success reply = true
           /\ portal_http E portalUrl data = Returns (reply_data reply)
       | Some message =>
           reply_success reply = false /\ reply_data reply = VUndef
           /\ reply_error reply = message
       end.
Proof.
  unfold callPortalAPI, logged, failure. fold (failure_entry moduleName).
  unfold try_catch at 1, bind at 1, emit at 1. simpl.
  set (w1 := {| tick := tick w; sync_file := sync_file w; ledger := ledger w;
                trace := push (trace w) (EPush portalUrl data) |}).
  assert (forall rows, after_rows E w1 [] rows = after_rows E w [EPush portalUrl data] rows)
    as Hw1.
  { intros rows. unfold after_rows, w1, push. simpl. by rewrite <- !app_assoc. }
  unfold bind at 1, lift.
  destruct (portal_http E portalUrl data) as [responseData|message]; simpl.
  - assert (forall w2, match responseData with
                       | VArr _ => False
                       | _ => True
                       end ->
              exists reply,
                (Ok {| reply_success := true; reply_data := responseData;
                       reply_error := "" |}, w2)
                = (Ok reply, after_rows E w2 [] (asked E ([] ++ [])))
                /\ reply_success reply = true
                /\ Returns (A := value) responseData = Returns (reply_data reply)) as Hother.
    { intros w2 _. eexists. rewrite asked_nil, after_rows_nil. eauto. }
    destruct responseData as [| | | | |results|];
      try (unfold bind, ret; simpl; rewrite <- Hw1;
           destruct (Hother w1 I) as (reply & -> & ? & ?); by exists reply).
    unfold bind at 1. rewrite logResults_effect. simpl.
    destruct (List.find nullish results) as [result|] eqn:Hfind; simpl.
    + destruct (logIntegration_effect E
                  (failure_entry moduleName (cannot_read result "validationErrors"))
                  (after_rows E w1 []
                     (asked E ((λ result, entry_of (properties result))
                                 <$> readable results)))) as [x Hx].
      unfold failure_entry in Hx at 1. simpl in Hx. unfold bind. rewrite Hx. simpl.
      rewrite after_rows_app, Hw1, <- asked_app. eauto.
    + unfold ret. rewrite Hw1, app_nil_r. eauto.
  - destruct (logIntegration_effect E (failure_entry moduleName message) w1) as [x Hx].
    rewrite Hw1 in Hx. unfold failure_entry in Hx at 1. simpl in Hx.
    unfold bind. rewrite Hx. simpl. eauto.
Qed.

(** X17: [callPortalAPI] never throws.  It sends the batch once.  What
    the Destination answers is returned with [success], unless it is an
    array with an element that is [null]; a failure of the request, or
    the error of reading that element, is returned as the error of a
    reply without [success] and without [data].  It asks the database
    for one row for each complete entry it logs (one entry for each
    element of a response that is an array, up to a first one that is
    [null], and one for a failure), leaves the checkpoint file alone
    and reads no time. *)
Theorem callPortalAPI_reports_and_never_throws
    (E : Env) (portalUrl : string) (data : list obj) (moduleName : string) (w : World) :
  exists reply,
    callPortalAPI E portalUrl data moduleName w
    = (Ok reply,
       after_rows E w [EPush portalUrl data]
         (asked E (logged E portalUrl data moduleName)))
    /\ match portal_http E portalUrl data with
       | Returns answer =>
           match unreadable answer with
           | None => reply_success reply = true /\ reply_data reply = answer
           | Some result =>
               reply_success reply = false /\ reply_data reply = VUndef
               /\ reply_error reply = cannot_read result "validationErrors"
           end
       | Throws message =>
           reply_success reply = false /\ reply_data reply = VUndef
           /\ reply_error reply = message
       end.
Proof.
  destruct (callPortalAPI_run E portalUrl data moduleName w) as (reply & Hrun & Hreply).
  exists reply. split; [exact Hrun|]. unfold failure in Hreply.
  destruct (portal_http E portalUrl data) as [answer|message]; [|exact Hreply].
  destruct (unreadable answer) as [result|]; simpl in Hreply; [exact Hreply|].
  destruct Hreply as [? [= ->]]. done.
Qed.

(** ** The shape of a response *)

(** An element that can be searched with [in]. *)
Definition searchable (record : value) : bool :=
  match record with
  | VObj _ | VArr _ => true
  | _ => false
  end.

(** An element that has the six fields. *)
Definition well_formed (record : value) : bool :=
  match record with
  | VObj fs => forallb (λ field, existsb (String.eqb field) fs.*1) requiredFields
  | _ => false
  end.

Lemma missingFields_nil record :
  missingFields record = Returns [] <-> well_formed record = true.
Proof.
  destruct record as [| | | | | |fs]; simpl; try (split; done).
  unfold requiredFields. simpl.
  repeat match goal with |- context [existsb ?f ?l] => destruct (existsb f l) end;
    simpl; split; done.
Qed.

Lemma missingFields_returns record :
  searchable record = true -> exists missing, missingFields record = Returns missing.
Proof. destruct record; simpl; try done; eauto. Qed.

Lemma invalidRecords_spec records :
  forallb searchable records = true ->
  forall index,
    exists found,
      invalidRecords index records = Returns found
      /\ found.*1
         = ((λ i, (index + i)%nat) <$>
              List.filter (λ i, negb (well_formed (default VNull (records !! i))))
                (seq 0 (length records))).
Proof.
  induction records as [|r l IH]; intros Hs index; simpl; [eauto|].
  simpl in Hs. apply andb_prop in Hs as [Hr Hl].
  destruct (missingFields_returns r Hr) as [missing Hm]. rewrite Hm.
  destruct (IH Hl (S index)) as (found & -> & Hfound).
  eexists. split; [reflexivity|].
  assert ((λ i, (index + i)%nat) <$>
            List.filter (λ i, negb (well_formed (default VNull ((r :: l) !! i))))
              (seq 1 (length l))
          = found.*1) as Hrest.
  { rewrite Hfound, <- seq_shift, List.filter_map_swap.
    rewrite <- list_fmap_compose. apply list_fmap_ext. intros _ i _. simpl. lia. }
  pose proof (missingFields_nil r) as Hnil. rewrite Hm in Hnil.
  destruct missing as [|f missing].
  - rewrite (proj1 Hnil eq_refl). simpl. by rewrite Hrest.
  - assert (well_formed r = false) as ->.
    { destruct (well_formed r); [|done]. by pose proof (proj2 Hnil eq_refl). }
    transitivity (index :: found.*1); [done|]. rewrite <- Hrest. cbn [negb].
    rewrite fmap_cons. by rewrite Nat.add_0_r.
Qed.

(** X18: a response that is not an array is invalid; an array with an
    element that is not an object makes the validation throw; an array
    of objects is valid exactly when every element has the six fields,
    and otherwise the records reported are those that lack one, by
    their positions in increasing order. *)
Theorem validatePortalResponse_reports_the_malformed_records (responseData : value) :
  match responseData with
  | VArr records =>
      if forallb searchable records then
        exists answer,
          validatePortalResponse responseData = Returns answer
          /\ match answer with
             | Valid recordCount =>
                 recordCount = length records /\ forallb well_formed records = true
             | Invalid _ reported =>
                 exists found,
                   reported = Some found
                   /\ found <> []
                   /\ found.*1
                      = List.filter
                          (λ i, negb (well_formed (default VNull (records !! i))))
                          (seq 0 (length records))
             end
      else exists e, validatePortalResponse responseData = Throws e
  | _ =>
      validatePortalResponse responseData
      = Returns (Invalid "Response data is not an array" None)
  end.
Proof.
  destruct responseData as [| | | | |records|]; try reflexivity.
  destruct (forallb searchable records) eqn:Hs.
  - destruct (invalidRecords_spec records Hs 0) as (found & Hrun & Hfound).
    rewrite list_fmap_id in Hfound.
    unfold validatePortalResponse. rewrite Hrun.
    destruct found as [|x found].
    + eexists. split; [reflexivity|]. split; [done|].
      symmetry in Hfound. simpl in Hfound.
      apply forallb_forall. intros record Hin.
      apply list_elem_of_In, list_elem_of_lookup in Hin as [i Hi].
      destruct (well_formed record) eqn:Hw; [done|].
      assert (In i (List.filter
                      (λ i, negb (well_formed (default VNull (records !! i))))
                      (seq 0 (length records)))) as Hbad.
      { apply filter_In. split.
        - apply in_seq. split; [lia|]. simpl. by apply lookup_lt_Some in Hi.
        - rewrite Hi. simpl. by rewrite Hw. }
      by rewrite Hfound in Hbad.
    + eexists. split; [reflexivity|]. exists (x :: found). by repeat apply conj.
  - unfold validatePortalResponse.
    assert (forall index, exists e, invalidRecords index records = Throws e) as Hthrow.
    { induction records as [|r l IH]; intros index; [done|]. simpl in Hs |- *.
      destruct (searchable r) eqn:Hr; simpl in Hs.
      - destruct (missingFields_returns r Hr) as [missing ->].
        destruct (IH Hs (S index)) as [e ->]. eauto.
      - destruct r; simpl in Hr |- *; try done; eauto. }
    destruct (Hthrow 0%nat) as [e ->]. eauto.
Qed.

End PortalSpec.

(* ===================================================================== *)
(** * More properties of the sync tasks                                  *)
(* ===================================================================== *)

Module RunSpec.
Import Js Runtime Tasks SyncTrackerSpec TasksSpec FrameSpec.
Local Open Scope run_scope.

(** ** The relations of a run *)

Lemma pushes_other events e :
  match e with EPush _ _ => False | _ => True end ->
  pushes (push events e) = pushes events.
Proof.
  intros He. unfold push. rewrite pushes_app. destruct e; simpl in *; try done;
    by rewrite app_nil_r.
Qed.

Lemma pushes_ask events e : asks e = true -> pushes (push events e) = pushes events.
Proof. intros He. apply pushes_other. by destruct e. Qed.

Lemma undelivered_clock w t :
  (tick w <= t)%nat ->
  undelivered w {| tick := t; sync_file := sync_file w; ledger := ledger w;
                   trace := trace w |}.
Proof. done. Qed.

Lemma undelivered_write w d :
  undelivered w {| tick := tick w; sync_file := Some d; ledger := ledger w;
                   trace := trace w |}.
Proof. done. Qed.

Lemma undelivered_ask w e :
  asks e = true ->
  undelivered w {| tick := tick w; sync_file := sync_file w; ledger := ledger w;
                   trace := push (trace w) e |}.
Proof. intros He. split; [by apply pushes_ask|done]. Qed.

Lemma same_pushes_clock w t :
  (tick w <= t)%nat ->
  same_pushes w {| tick := t; sync_file := sync_file w; ledger := ledger w;
                   trace := trace w |}.
Proof. done. Qed.

Lemma same_pushes_write w d :
  same_pushes w {| tick := tick w; sync_file := Some d; ledger := ledger w;
                   trace := trace w |}.
Proof. done. Qed.

Lemma same_pushes_ask w e :
  asks e = true ->
  same_pushes w {| tick := tick w; sync_file := sync_file w; ledger := ledger w;
                   trace := push (trace w) e |}.
Proof. intros He. by apply pushes_ask. Qed.

Lemma same_pushes_insert w params :
  same_pushes w {| tick := tick w; sync_file := sync_file w; ledger := ledger w;
                   trace := push (trace w) (EInsert params) |}.
Proof. by apply pushes_other. Qed.

Lemma same_pushes_row w params :
  same_pushes w {| tick := tick w; sync_file := sync_file w;
                   ledger := push (ledger w) params; trace := trace w |}.
Proof. done. Qed.

Lemma later_clock w t :
  (tick w <= t)%nat ->
  later w {| tick := t; sync_file := sync_file w; ledger := ledger w; trace := trace w |}.
Proof. done. Qed.

Lemma later_write w d :
  later w {| tick := tick w; sync_file := Some d; ledger := ledger w; trace := trace w |}.
Proof. unfold later. simpl. lia. Qed.

Lemma later_ask w e :
  asks e = true ->
  later w {| tick := tick w; sync_file := sync_file w; ledger := ledger w;
             trace := push (trace w) e |}.
Proof. intros _. unfold later. simpl. lia. Qed.

Lemma later_emit w e :
  later w {| tick := tick w; sync_file := sync_file w; ledger := ledger w;
             trace := push (trace w) e |}.
Proof. unfold later. simpl. lia. Qed.

Lemma later_insert w params :
  later w {| tick := tick w; sync_file := sync_file w; ledger := ledger w;
             trace := push (trace w) (EInsert params) |}.
Proof. unfold later. simpl. lia. Qed.

Lemma later_push w url batch :
  later w {| tick := tick w; sync_file := sync_file w; ledger := ledger w;
             trace := push (trace w) (EPush url batch) |}.
Proof. unfold later. simpl. lia. Qed.

Lemma later_row w params :
  later w {| tick := tick w; sync_file := sync_file w; ledger := push (ledger w) params;
             trace := trace w |}.
Proof. unfold later. simpl. lia. Qed.

Ltac law :=
  first [ relation_law
        | exact undelivered_clock | exact undelivered_write | exact undelivered_ask
        | exact same_pushes_clock | exact same_pushes_write | exact same_pushes_ask
        | exact same_pushes_insert | exact same_pushes_row
        | exact later_clock | exact later_write | exact later_ask
        | exact later_insert | exact later_push | exact later_row ].

(** The functions a task is built from. *)
Ltac parts :=
  first [ apply respects_now; law
        | apply respects_getSyncRecord; law
        | apply respects_updateSyncRecord; law
        | apply respects_fetchAllRecords; law
        | apply respects_processRecords; law
        | apply respects_logIntegration; law
        | apply respects_syncToPortal; law ].

(** ** The members task *)

Lemma members_undelivered fuel E :
  respects undelivered (SugarCRMAccountToPortalMember fuel E).
Proof.
  unfold SugarCRMAccountToPortalMember, members_try, members_catch,
    processRecordsForPortalMembers.
  framed parts.
Qed.

(** X19: a run of the members task pushes nothing to the Destination
    and writes nothing to the ledger, whatever the Source returns and
    however the run ends.  (A run that has fetched records processes
    them and then stops at a name that is declared nowhere, before the
    push.) *)
Theorem members_task_delivers_nothing (fuel : nat) (E : Env) (w : World) :
  pushes (trace (sync MembersEntity fuel E w).2) = pushes (trace w)
  /\ ledger (sync MembersEntity fuel E w).2 = ledger w.
Proof. apply (members_undelivered fuel E w). Qed.

(** ** A task without its checkpoint *)

Lemma find_None_findIndex identifier l :
  List.find (SyncTracker.resolves identifier) l = None ->
  SyncTracker.findIndex identifier l = None.
Proof.
  induction l as [|r l IH]; simpl; [done|].
  destruct (SyncTracker.resolves identifier r); [done|]. intros H. by rewrite IH.
Qed.

Lemma find_Some_findIndex identifier l record :
  List.find (SyncTracker.resolves identifier) l = Some record ->
  exists i, SyncTracker.findIndex identifier l = Some i /\ l !! i = Some record.
Proof.
  induction l as [|r l IH]; simpl; [done|].
  destruct (SyncTracker.resolves identifier r).
  - intros [= ->]. by exists 0%nat.
  - intros H. destruct (IH H) as (i & -> & Hi). by exists (S i).
Qed.

(** Started where no stored record answers to [name], [m] does not
    return and leaves the file as it was. *)
Definition fails_without (name : string) {A : Type} (m : M A) : Prop :=
  forall w,
    SyncTracker.findIndex name (stored_records w) = None ->
    sync_file (m w).2 = sync_file w /\ forall a, (m w).1 <> Ok a.

Lemma fails_first name {A B : Type} (m : M A) (k : A -> M B) :
  fails_without name m -> fails_without name (bind m k).
Proof.
  intros Hm w Hnone. destruct (Hm w Hnone) as [Hf Hno]. unfold bind.
  destruct (m w) as [[a|e|] w1]; simpl in *; [by destruct (Hno a)|done|done].
Qed.

Lemma fails_then name {A B : Type} (m : M A) (k : A -> M B) :
  keeps_file m -> (forall a, fails_without name (k a)) -> fails_without name (bind m k).
Proof.
  intros Hm Hk w Hnone. specialize (Hm w). unfold bind.
  destruct (m w) as [[a|e|] w1]; simpl in *; [|done|done].
  rewrite <- (stored_records_same _ _ Hm) in Hnone.
  destruct (Hk a w1 Hnone) as [Hf Hno]. split; [congruence|done].
Qed.

Lemma fails_update E name updateData :
  fails_without name (SyncTracker.updateSyncRecord E name updateData).
Proof.
  intros w Hnone.
  destruct (updateSyncRecord_missing E name updateData w Hnone) as (w' & -> & ? & _).
  done.
Qed.

Definition not_found (name : string) : string :=
  "Sync record not found for identifier: " ++ name.

Lemma import_try_fails T fuel E :
  (forall records, keeps_file (processRecordsForPortal T E records)) ->
  (forall batch, keeps_file (syncToPortal T E batch)) ->
  fails_without (moduleName T) (import_try T fuel E).
Proof.
  intros Hp Hs. unfold import_try.
  apply fails_then; [apply keeps_getSyncRecord|intros sr].
  apply fails_then; [apply keeps_lift|intros fields].
  apply fails_then; [apply keeps_fetchAllRecords|intros fr].
  apply fails_then.
  { destruct (SugarCRM.fetched_records fr); [apply keeps_ret|].
    apply keeps_bind; [apply Hp|intros ?].
    apply keeps_bind; [apply Hs|intros ?]. apply keeps_lift. }
  intros _. apply fails_then; [apply keeps_now|intros ts].
  apply fails_first, fails_update.
Qed.

Lemma import_catch_not_found T E message w :
  SyncTracker.findIndex (moduleName T) (stored_records w) = None ->
  (import_catch T E message w).1 = Throw (not_found (moduleName T))
  /\ sync_file (import_catch T E message w).2 = sync_file w.
Proof.
  intros Hnone. unfold import_catch.
  rewrite (bind_eq _ _ _ _ _ (now_eq E w)).
  set (w1 := {| tick := S (tick w); sync_file := sync_file w;
                ledger := ledger w; trace := trace w |}).
  destruct (updateSyncRecord_missing E (moduleName T)
              (list_to_map
                 [ ("status", VStr "failed");
                   ("last_sync_at", VStr (clock E (tick w)));
                   ("metadata",
                    VObj [ ("error_message", VStr message);
                           ("failed_at", VStr (clock E (tick w)));
                           ("sugarcrm_module", VStr (sugarCRMModule T)) ]) ])
              w1 Hnone) as (w2 & Hrun & Hf & _).
  unfold bind. rewrite Hrun. done.
Qed.

Lemma import_without_checkpoint T fuel E w :
  (forall records, keeps_file (processRecordsForPortal T E records)) ->
  (forall batch, keeps_file (syncToPortal T E batch)) ->
  SyncTracker.findIndex (moduleName T) (stored_records w) = None ->
  sync_file (runImport T fuel E w).2 = sync_file w
  /\ ((runImport T fuel E w).1 = OutOfFuel
      \/ (runImport T fuel E w).1 = Throw (not_found (moduleName T))).
Proof.
  intros Hp Hs Hnone.
  destruct (import_try_fails T fuel E Hp Hs w Hnone) as [Hf Hno].
  unfold runImport, try_catch.
  destruct (import_try T fuel E w) as [[a|e|] w1]; simpl in *.
  - by destruct (Hno a).
  - rewrite <- (stored_records_same _ _ Hf) in Hnone.
    destruct (import_catch_not_found T E e w1 Hnone) as [-> ->]. split; [done|by right].
  - split; [done|by left].
Qed.

Lemma members_try_fails fuel E currentTimestamp :
  fails_without "Members" (members_try fuel E currentTimestamp).
Proof.
  unfold members_try.
  apply fails_then; [apply keeps_getSyncRecord|intros sr].
  apply fails_then; [apply keeps_lift|intros fields].
  apply fails_then; [apply keeps_fetchAllRecords|intros fr].
  apply fails_then.
  { destruct (SugarCRM.fetched_records fr); [apply keeps_ret|].
    apply keeps_bind; [apply keeps_processRecordsForPortalMembers|intros ?].
    intros w. done. }
  intros _. apply fails_first, fails_update.
Qed.

Lemma members_catch_without E message w :
  SyncTracker.findIndex "Members" (stored_records w) = None ->
  (members_catch E message w).1 = Throw message
  /\ sync_file (members_catch E message w).2 = sync_file w.
Proof.
  intros Hnone.
  set (w1 := {| tick := S (tick w); sync_file := sync_file w;
                ledger := ledger w; trace := trace w |}).
  destruct (updateSyncRecord_missing E "Members"
              (list_to_map
                 [ ("status", VStr "failed");
                   ("metadata",
                    VObj [ ("error_message", VStr message);
                           ("failed_at", VStr (clock E (tick w)));
                           ("sugarcrm_module", VStr "Accounts") ]) ])
              w1 Hnone) as (w2 & Hrun & Hf & _).
  assert (members_catch E message w = (Throw message, w2)) as ->; [|done].
  unfold members_catch. unfold bind at 1, try_catch.
  rewrite (bind_eq _ _ _ _ _ (now_eq E w)). fold w1.
  unfold bind. by rewrite Hrun.
Qed.

Lemma members_without_checkpoint fuel E w :
  SyncTracker.findIndex "Members" (stored_records w) = None ->
  sync_file (SugarCRMAccountToPortalMember fuel E w).2 = sync_file w
  /\ forall a, (SugarCRMAccountToPortalMember fuel E w).1 <> Ok a.
Proof.
  intros Hnone. unfold SugarCRMAccountToPortalMember.
  rewrite (bind_eq _ _ _ _ _ (now_eq E w)).
  set (w0 := {| tick := S (tick w); sync_file := sync_file w;
                ledger := ledger w; trace := trace w |}).
  destruct (members_try_fails fuel E (clock E (tick w)) w0 Hnone) as [Hf Hno].
  unfold try_catch.
  destruct (members_try fuel E (clock E (tick w)) w0) as [[a|e|] w1]; simpl in *.
  - by destruct (Hno a).
  - assert (SyncTracker.findIndex "Members" (stored_records w1) = None) as Hnone1.
    { by rewrite (stored_records_same w0 w1 Hf). }
    destruct (members_catch_without E e w1 Hnone1) as [-> ->]. done.
  - done.
Qed.

Definition no_auditors_checkpoint : string :=
  "No sync record found for Auditors module. Please create one first.".

Lemma auditors_without_checkpoint fuel E w :
  List.find (SyncTracker.resolves "Auditors") (stored_records w) = None ->
  (sugarAuditorToPortalAuditor fuel E w).1 = Throw no_auditors_checkpoint
  /\ sync_file (sugarAuditorToPortalAuditor fuel E w).2 = sync_file w
  /\ trace (sugarAuditorToPortalAuditor fuel E w).2 = trace w.
Proof.
  intros Hnone. unfold sugarAuditorToPortalAuditor, try_catch.
  destruct (getSyncRecord_stored E "Auditors" w) as (w1 & Hget & Hf & _ & Ht & _).
  unfold bind. rewrite Hget, Hnone. done.
Qed.

(** X20: no task returns when its checkpoint is missing, and none
    creates it.  The auditors task says so before it asks the Source
    for anything.  The cases and the compliance-officers tasks, unless
    they run out of steps, end with the error of the update that finds
    no record, whatever else made the run fail. *)
Theorem no_task_returns_without_its_checkpoint
    (e : EntityType) (fuel : nat) (E : Env) (w : World) :
  checkpoint e w = None ->
  sync_file (sync e fuel E w).2 = sync_file w
  /\ (sync e fuel E w).1 <> Ok tt
  /\ match e with
     | MembersEntity => True
     | AuditorsEntity =>
         (sync e fuel E w).1 = Throw no_auditors_checkpoint
         /\ trace (sync e fuel E w).2 = trace w
     | _ =>
         (sync e fuel E w).1 = OutOfFuel
         \/ (sync e fuel E w).1 = Throw (not_found (checkpoint_of e))
     end.
Proof.
  unfold checkpoint. intros Hnone. pose proof (find_None_findIndex _ _ Hnone) as Hi.
  destruct e; unfold sync, SugarImportCasesToPortalCases, SugarCRMCoToPortalUsers;
    simpl checkpoint_of in *.
  - destruct (members_without_checkpoint fuel E w Hi) as [? ?]. done.
  - destruct (import_without_checkpoint Cases fuel E w
                (keeps_processRecordsForPortalCases E)
                (keeps_syncToPortalWithPrefix E _ _) Hi) as [? Hr].
    repeat apply conj; try done. destruct Hr as [-> | ->]; done.
  - destruct (import_without_checkpoint ComplianceOfficers fuel E w
                (keeps_processRecordsForPortalUsers E)
                (keeps_syncToPortalWithPrefix E _ _) Hi) as [? Hr].
    repeat apply conj; try done. destruct Hr as [-> | ->]; done.
  - destruct (auditors_without_checkpoint fuel E w Hnone) as (Hr & ? & ?).
    repeat apply conj; try done. by rewrite Hr.
Qed.

(** A file without a checkpoint for the cases. *)
Definition no_cases : World :=
  {| tick := 0;
     sync_file := Some {| sync_records := [ checkpoint_record "Members" september ];
                          metadata := VObj [("version", VStr "1.0.0")] |};
     ledger := []; trace := [] |}.

(** The cases task has pushed the five records when it fails. *)
Lemma no_task_returns_without_its_checkpoint_witness :
  (sync CasesEntity 3 accepted no_cases).1
  = Throw "Sync record not found for identifier: Cases"
  /\ length (pushes (trace (sync CasesEntity 3 accepted no_cases).2)) = 1%nat
  /\ sync_file (sync CasesEntity 3 accepted no_cases).2 = sync_file no_cases.
Proof.
  assert (checkpoint CasesEntity no_cases = None) as Hnone by reflexivity.
  destruct (no_task_returns_without_its_checkpoint CasesEntity 3 accepted no_cases Hnone)
    as (Hfile & _ & [H|H]).
  - exfalso. revert H. vm_compute. discriminate.
  - repeat apply conj; [exact H|reflexivity|exact Hfile].
Defined.

(** ** A run that fails *)

Lemma import_try_later T fuel E :
  (forall records, respects later (processRecordsForPortal T E records)) ->
  (forall batch, respects later (syncToPortal T E batch)) ->
  respects later (import_try T fuel E).
Proof.
  intros Hp Hs. unfold import_try.
  framed ltac:(first [ apply Hp | apply Hs | parts ]).
Qed.

Lemma import_catch_later T E message w :
  (S (tick w) <= tick (import_catch T E message w).2)%nat.
Proof.
  unfold import_catch. rewrite (bind_eq _ _ _ _ _ (now_eq E w)).
  set (w1 := {| tick := S (tick w); sync_file := sync_file w;
                ledger := ledger w; trace := trace w |}).
  change (S (tick w)) with (tick w1).
  match goal with |- (_ <= tick (?m w1).2)%nat => assert (respects later m) as H end.
  { framed parts. }
  apply H.
Qed.

Lemma failed_import T fuel E w record message w' :
  (forall t, clock E t <> "") ->
  (forall records, keeps_file (processRecordsForPortal T E records)) ->
  (forall batch, keeps_file (syncToPortal T E batch)) ->
  (forall records, respects later (processRecordsForPortal T E records)) ->
  (forall batch, respects later (syncToPortal T E batch)) ->
  List.find (SyncTracker.resolves (moduleName T)) (stored_records w) = Some record ->
  runImport T fuel E w = (Throw message, w') ->
  exists record' k,
    List.find (SyncTracker.resolves (moduleName T)) (stored_records w') = Some record'
    /\ get record' "status" = VStr "failed"
    /\ (tick w <= k < tick w')%nat
    /\ get record' "last_sync_at" = VStr (clock E k).
Proof.
  intros Hclock Hp Hs Hpl Hsl Hfind Hrun.
  destruct (find_Some_findIndex _ _ _ Hfind) as (i & Hi & Hrec).
  pose proof (import_try_later T fuel E Hpl Hsl w) as Hlater.
  unfold runImport, try_catch in Hrun.
  destruct (import_try T fuel E w) as [[[]|e|] w1] eqn:Htry; simpl in Hlater; [done| |done].
  pose proof (import_catch_later T E e w1) as Hcatch. rewrite Hrun in Hcatch.
  destruct (import_failure_stamps_checkpoint T fuel E w i record e w1 Hclock Hp Hs Hi Hrec
              Htry) as (w2 & record' & Hrun2 & Hfind' & Hst & Hl).
  unfold runImport, try_catch in Hrun2. rewrite Htry, Hrun in Hrun2.
  injection Hrun2 as _ <-.
  exists record', (tick w1). by repeat apply conj.
Qed.

Lemma processRecords_later E mappingType shape fallback records :
  respects later (processRecords E mappingType shape fallback records []).
Proof. parts. Qed.

Lemma syncToPortalWithPrefix_later E endpoint moduleName batch :
  respects later (syncToPortalWithPrefix E endpoint moduleName batch).
Proof. apply respects_syncToPortal; law. Qed.

(** X21: when a run of the cases or of the compliance-officers task
    throws, for whatever reason and with its checkpoint in place, the
    checkpoint is marked [failed] and its [last_sync_at] becomes a time
    read during the failed run, whatever it was before. *)
Theorem failed_import_moves_last_sync_at
    (e : EntityType) (fuel : nat) (E : Env) (w w' : World) (message : string) :
  e = CasesEntity \/ e = ComplianceOfficersEntity ->
  (forall t, clock E t <> "") ->
  is_Some (checkpoint e w) ->
  sync e fuel E w = (Throw message, w') ->
  status_of e w' = VStr "failed"
  /\ exists k, (tick w <= k < tick w')%nat /\ last_sync_at_of e w' = VStr (clock E k).
Proof.
  intros He Hclock [record Hfind] Hrun. unfold status_of, last_sync_at_of, checkpoint in *.
  destruct He as [-> | ->]; unfold sync in Hrun; simpl checkpoint_of in *.
  - destruct (failed_import Cases fuel E w record message w' Hclock
                (keeps_processRecordsForPortalCases E)
                (keeps_syncToPortalWithPrefix E _ _)
                (processRecords_later E _ _ _)
                (syncToPortalWithPrefix_later E _ _) Hfind Hrun)
      as (record' & k & Hfind' & ? & ? & ?).
    simpl moduleName in Hfind'. rewrite Hfind'. eauto.
  - destruct (failed_import ComplianceOfficers fuel E w record message w' Hclock
                (keeps_processRecordsForPortalUsers E)
                (keeps_syncToPortalWithPrefix E _ _)
                (processRecords_later E _ _ _)
                (syncToPortalWithPrefix_later E _ _) Hfind Hrun)
      as (record' & k & Hfind' & ? & ? & ?).
    simpl moduleName in Hfind'. rewrite Hfind'. eauto.
Qed.

(** X22: when a run of the members task throws, for whatever reason and
    with its checkpoint in place, the checkpoint is marked [failed] and
    keeps the [last_sync_at] it had. *)
Theorem failed_members_run_keeps_last_sync_at
    (fuel : nat) (E : Env) (w w' : World) (message : string) :
  is_Some (checkpoint MembersEntity w) ->
  sync MembersEntity fuel E w = (Throw message, w') ->
  status_of MembersEntity w' = VStr "failed"
  /\ last_sync_at_of MembersEntity w' = last_sync_at_of MembersEntity w.
Proof.
  intros [record Hfind] Hrun. unfold sync in Hrun.
  assert (last_sync_at_of MembersEntity w = get record "last_sync_at") as ->.
  { unfold last_sync_at_of. by rewrite Hfind. }
  unfold checkpoint in Hfind. simpl in Hfind.
  destruct (find_Some_findIndex _ _ _ Hfind) as (i & Hi & Hrec).
  pose proof Hrun as Hrun0.
  unfold SugarCRMAccountToPortalMember in Hrun.
  rewrite (bind_eq _ _ _ _ _ (now_eq E w)) in Hrun. unfold try_catch in Hrun.
  destruct (members_try fuel E (clock E (tick w)) _) as [[[]|e|] w1] eqn:Htry;
    [done| |done].
  destruct (members_failure_keeps_checkpoint fuel E w i record e w1 Hi Hrec Htry)
    as (w2 & Hrun2 & ? & ?).
  rewrite Hrun0 in Hrun2. by injection Hrun2 as _ <-.
Qed.

Lemma clock2_not_empty t : clock2 t <> "".
Proof. unfold clock2. simpl. discriminate. Qed.

Lemma failed_import_moves_last_sync_at_witness :
  status_of CasesEntity failed_cases_run.2 = VStr "failed"
  /\ exists k, (tick start <= k < tick failed_cases_run.2)%nat
               /\ last_sync_at_of CasesEntity failed_cases_run.2 = VStr (clock2 k).
Proof.
  apply (failed_import_moves_last_sync_at CasesEntity 3 unavailable start failed_cases_run.2
           "Portal API call failed: HTTP 503: Service Unavailable - upstream down").
  - by left.
  - exact clock2_not_empty.
  - exists (SyncTracker.jsonify_obj (checkpoint_record "Cases" september)). reflexivity.
  - apply pair_of_fst. reflexivity.
Defined.

Lemma failed_members_run_keeps_last_sync_at_witness :
  status_of MembersEntity failed_members_run.2 = VStr "failed"
  /\ last_sync_at_of MembersEntity failed_members_run.2 = last_sync_at_of MembersEntity start.
Proof.
  apply (failed_members_run_keeps_last_sync_at 3 unavailable start failed_members_run.2
           "accountsWithOfficers is not defined").
  - exists (SyncTracker.jsonify_obj (checkpoint_record "Members" september)). reflexivity.
  - apply pair_of_fst. reflexivity.
Defined.

(** ** The push of a run *)

(** At most one batch has been pushed, and it was not empty. *)
Definition one_more (w w' : World) : Prop :=
  pushes (trace w') = pushes (trace w)
  \/ exists url batch,
       batch <> [] /\ pushes (trace w') = (pushes (trace w) ++ [EPush url batch])%list.

Lemma same_one_more w w' : same_pushes w w' -> one_more w w'.
Proof. by left. Qed.




Lemma pushes_after_rows E w url batch rows :
  pushes (trace (PortalSpec.after_rows E w [EPush url batch] rows))
  = (pushes (trace w) ++ [EPush url batch])%list.
Proof.
  unfold PortalSpec.after_rows. simpl. rewrite !pushes_app. simpl.
  assert (pushes (EInsert <$> rows) = []) as ->; [|done].
  induction rows as [|r l IH]; simpl; done.
Qed.

Lemma callPortalAPIWithEnv_pushes E endpoint batch moduleName w :
  exists url,
    pushes (trace (PortalAPI.callPortalAPIWithEnv E endpoint batch moduleName w).2)
    = (pushes (trace w) ++ [EPush url batch])%list.
Proof.
  unfold PortalAPI.callPortalAPIWithEnv. eexists.
  destruct (PortalSpec.callPortalAPI_run E
              (portal_base_url E
               ++ (if PortalAPI.starts_with_slash endpoint then EmptyString else "/")
               ++ endpoint) batch moduleName w) as (reply & -> & _).
  apply pushes_after_rows.
Qed.

Lemma syncToPortal_pushes E endpoint moduleName r batch w :
  exists url,
    pushes (trace (syncToPortalWithPrefix E endpoint moduleName (r :: batch) w).2)
    = (pushes (trace w) ++ [EPush url (r :: batch)])%list
    /\ pushes (trace (syncToPortalPlain E endpoint moduleName (r :: batch) w).2)
       = (pushes (trace w) ++ [EPush url (r :: batch)])%list.
Proof.
  destruct (callPortalAPIWithEnv_pushes E endpoint (r :: batch) moduleName w) as [url Hp].
  exists url. unfold syncToPortalWithPrefix, syncToPortalPlain, try_catch, bind.
  destruct (PortalAPI.callPortalAPIWithEnv E endpoint (r :: batch) moduleName w)
    as [[reply|e|] w1]; simpl in *; try destruct (PortalAPI.reply_success reply); done.
Qed.


Lemma bind_stops {A B : Type} (m : M A) (k : A -> M B) w e w1 :
  m w = (Throw e, w1) -> bind m k w = (Throw e, w1).
Proof. unfold bind. by intros ->. Qed.

Lemma bind_out_of_fuel {A B : Type} (m : M A) (k : A -> M B) w w1 :
  m w = (OutOfFuel, w1) -> bind m k w = (OutOfFuel, w1).
Proof. unfold bind. by intros ->. Qed.





(** ** The checkpoint of the auditors *)

(** Neither the checkpoint file nor the pushes have changed. *)
Definition untouched (w w' : World) : Prop := same_file w w' /\ same_pushes w w'.

Lemma untouched_refl w : untouched w w.
Proof. done. Qed.

Lemma untouched_trans w1 w2 w3 : untouched w1 w2 -> untouched w2 w3 -> untouched w1 w3.
Proof.
  intros [? ?] [? ?]. split; [by eapply same_file_trans|by eapply same_pushes_trans].
Qed.

Lemma untouched_clock w t :
  (tick w <= t)%nat ->
  untouched w {| tick := t; sync_file := sync_file w; ledger := ledger w;
                 trace := trace w |}.
Proof. done. Qed.

Lemma untouched_ask w e :
  asks e = true ->
  untouched w {| tick := tick w; sync_file := sync_file w; ledger := ledger w;
                 trace := push (trace w) e |}.
Proof. intros He. split; [done|by apply pushes_ask]. Qed.

Ltac untouched_parts :=
  let law := first [ exact untouched_refl | exact untouched_trans | exact untouched_clock
                   | exact untouched_ask ] in
  first [ apply respects_getSyncRecord; law
        | apply respects_fetchAllRecords; law
        | apply respects_processRecords; law
        | apply respects_lift; law
        | apply respects_ret; law
        | apply respects_throw; law ].

Lemma processRecords_returns E mappingType shape fallback records acc w :
  exists out,
    (processRecords E mappingType shape fallback records acc w).1 = Ok out
    /\ length out = (length acc + length records)%nat.
Proof.
  revert acc w. induction records as [|r l IH]; intros acc w; simpl.
  - exists acc. split; [done|lia].
  - destruct (ProcessingSpec.process_one E mappingType shape fallback r w)
      as (processed & w1 & Hrun & _).
    unfold bind at 1. rewrite Hrun.
    destruct (IH (push acc processed) w1) as (out & Hout & Hlen).
    exists out. split; [done|]. rewrite Hlen. unfold push. rewrite length_app. simpl. lia.
Qed.

(** The file is as it was, or [m] has returned after one push. *)
Definition pays_first {A : Type} (m : M A) : Prop :=
  forall w,
    sync_file (m w).2 = sync_file w
    \/ ((exists a, (m w).1 = Ok a)
        /\ exists url batch,
             batch <> []
             /\ pushes (trace (m w).2) = (pushes (trace w) ++ [EPush url batch])%list).

Lemma pays_first_then {A B : Type} (m : M A) (k : A -> M B) :
  respects untouched m -> (forall a, pays_first (k a)) -> pays_first (bind m k).
Proof.
  intros Hm Hk w. unfold bind. destruct (Hm w) as [Hf Hp].
  unfold same_file, same_pushes in *.
  destruct (m w) as [[a|e|] w1]; simpl in *; [|by left|by left].
  destruct (Hk a w1) as [H|[Hok (url & batch & Hne & H)]].
  - left. congruence.
  - right. split; [done|]. exists url, batch. split; [done|]. by rewrite <- Hp.
Qed.

Lemma pays_first_untouched {A : Type} (m : M A) : respects untouched m -> pays_first m.
Proof. intros Hm w. left. apply Hm. Qed.

Lemma auditors_commit E (r : obj) (batch : list obj) :
  pays_first
    (bind (syncToPortalAuditors E (r :: batch))
       (λ portalResponse,
          bind (lift (summariseAuditors portalResponse))
            (λ _, bind (now E)
                    (λ currentTime,
                       detached
                         (SyncTracker.updateSyncRecord E "Auditors"
                            (list_to_map
                               [ ("last_sync_at", VStr currentTime);
                                 ("updated_at", VStr currentTime);
                                 ("status", VStr "completed") ])))))).
Proof.
  intros w.
  pose proof (keeps_syncToPortalPlain E "api/integration/SugarAuditorToPortalAuditor"
                "Auditors" (r :: batch) w) as Hfile.
  destruct (syncToPortal_pushes E "api/integration/SugarAuditorToPortalAuditor"
              "Auditors" r batch w) as (url & _ & Hpush).
  fold (syncToPortalAuditors E (r :: batch)) in Hfile, Hpush.
  destruct (syncToPortalAuditors E (r :: batch) w) as [[a|e|] w1] eqn:Hrun;
    simpl in Hfile, Hpush.
  - rewrite (bind_eq _ _ _ _ _ Hrun).
    destruct (summariseAuditors a) as [[]|e] eqn:Hsum; simpl;
      [|left; unfold bind, throw; by simpl].
    right. rewrite (bind_eq _ _ _ _ _ (eq_refl : ret tt w1 = (Ok tt, w1))).
    rewrite (bind_eq _ _ _ _ _ (now_eq E w1)).
    set (w2 := {| tick := S (tick w1); sync_file := sync_file w1;
                  ledger := ledger w1; trace := trace w1 |}).
    set (update := SyncTracker.updateSyncRecord E "Auditors" _).
    assert (respects same_pushes update) as Hup by (unfold update; parts).
    assert (ends update) as Hend by apply (store_ends E).
    specialize (Hup w2). specialize (Hend w2). unfold detached.
    unfold same_pushes in Hup. simpl in Hup.
    destruct (update w2) as [[u|e|] w3]; simpl in *; [| |done].
    + split; [eauto|]. exists url, (r :: batch). split; [done|]. by rewrite Hup.
    + split; [eauto|]. exists url, (r :: batch). split; [done|]. by rewrite Hup.
  - left. by rewrite (bind_stops _ _ _ _ _ Hrun).
  - left. by rewrite (bind_out_of_fuel _ _ _ _ Hrun).
Qed.

Lemma try_catch_again {A : Type} (m : M A) w : try_catch m (λ e, throw e) w = m w.
Proof. unfold try_catch, throw. by destruct (m w) as [[]]. Qed.

Lemma auditors_pays_first fuel E : pays_first (sugarAuditorToPortalAuditor fuel E).
Proof.
  intros w. unfold sugarAuditorToPortalAuditor. rewrite try_catch_again. revert w.
  apply pays_first_then; [untouched_parts|intros [r|]];
    [|apply pays_first_untouched; untouched_parts].
  apply pays_first_then; [untouched_parts|intros fields].
  apply pays_first_then; [untouched_parts|intros fetched].
  destruct (SugarCRM.fetched_records fetched) as [|record rest];
    [apply pays_first_untouched; untouched_parts|].
  intros w.
  assert (respects untouched (processRecordsForPortalAuditors E (record :: rest))) as Hp
    by (unfold processRecordsForPortalAuditors; untouched_parts).
  destruct (Hp w) as [Hf Hs]. unfold same_file, same_pushes in Hf, Hs.
  destruct (processRecords_returns E "sugarcrm_to_portal_auditors" auditor_shape
              auditor_fallback (record :: rest) [] w) as (out & Hout & Hlen).
  fold (processRecordsForPortalAuditors E (record :: rest)) in Hout.
  destruct (processRecordsForPortalAuditors E (record :: rest) w) as [o w1] eqn:Hrun.
  simpl in Hout, Hf, Hs. subst o.
  destruct out as [|p out]; [simpl in Hlen; lia|].
  rewrite (bind_eq _ _ _ _ _ Hrun).
  destruct (auditors_commit E p out w1) as [H|[Hok (url & batch & Hne & H)]].
  - left. congruence.
  - right. split; [done|]. exists url, batch. split; [done|]. by rewrite <- Hs.
Qed.

(** X24: the auditors task writes its checkpoint only in a run that
    returns after it has pushed a batch: from a run that throws, that
    fetches nothing or that runs out of steps the file comes back as it
    was, not even marked as failed. *)
Theorem auditors_checkpoint_is_written_after_a_push
    (fuel : nat) (E : Env) (w : World) :
  sync_file (sync AuditorsEntity fuel E w).2 = sync_file w
  \/ ((sync AuditorsEntity fuel E w).1 = Ok tt
      /\ exists url batch,
           batch <> []
           /\ pushes (trace (sync AuditorsEntity fuel E w).2)
              = (pushes (trace w) ++ [EPush url batch])%list).
Proof.
  destruct (auditors_pays_first fuel E w) as [H|[[[] Hok] H]]; [by left|by right].
Qed.

End RunSpec.

(* ===================================================================== *)
(** * More properties of the fetch                                       *)
(* ===================================================================== *)

Module FetchSpec.
Import Js Runtime SugarCRM SugarCRMSpec.
Local Open Scope run_scope.

(** ** The number of records of a fetch *)

Lemma fetchLoop_counts E config onPage fuel offset acc total w result w' :
  total = Z.of_nat (length acc) ->
  fetchLoop fuel E config onPage offset acc total w = (Ok result, w') ->
  result.2 = Z.of_nat (length result.1).
Proof.
  revert offset acc total w. induction fuel as [|fuel IH]; intros offset acc total w Ht;
    [done|].
  simpl fetchLoop. unfold bind at 1. rewrite try_catch_rethrow. unfold bind at 1.
  destruct (sugarCRMPost E (with_offset config offset) w) as [[response|e|] w1];
    [|done|done].
  set (page := records (response_data response)).
  assert (total + Z.of_nat (length page) = Z.of_nat (length (acc ++ page))) as Hnext.
  { rewrite length_app, Nat2Z.inj_add. lia. }
  unfold bind at 1.
  destruct (match onPage with
            | Some callback => _
            | None => ret tt
            end w1) as [[[]|e|] w2]; [|done|done].
  destruct (10000 <? total + Z.of_nat (length page)).
  - unfold bind, emit, ret. simpl. by intros [= <- _].
  - unfold ret. simpl.
    destruct (has_more (response_data response)).
    + by apply IH.
    + by intros [= <- _].
Qed.

(** X25: whenever a fetch returns, [total_fetched] is the number of the
    records it returns, and the module is the one asked for. *)
Theorem fetchAllRecords_counts_its_records
    (fuel : nat) (E : Env) (config : QueryConfig) (onPage : option page_callback)
    (w w' : World) (r : FetchResult) :
  fetchAllRecords fuel E config onPage w = (Ok r, w') ->
  total_fetched r = Z.of_nat (length (fetched_records r))
  /\ fetched_module r = module config.
Proof.
  unfold fetchAllRecords, bind at 1.
  destruct (fetchLoop fuel E config onPage 0 [] 0 w) as [[loop|e|] w1] eqn:Hloop;
    [|done|done].
  unfold bind, now, ret. intros [= <- _]. simpl. split; [|done].
  by apply (fetchLoop_counts E config onPage fuel 0 [] 0 w loop w1).
Qed.

Lemma fetchAllRecords_counts_its_records_witness :
  exists r w',
    fetchAllRecords 5 two_pages (accounts_query "Accounts") None fresh = (Ok r, w')
    /\ total_fetched r = 3.
Proof.
  destruct (fetchAllRecords 5 two_pages (accounts_query "Accounts") None fresh)
    as [o w'] eqn:Hrun.
  assert (o = Ok {| fetched_records := [account "a"; account "b"; account "c"];
                    total_fetched := 3; fetched_module := "Accounts";
                    fetched_timestamp := "2025-10-03T10:00:02.000Z" |}) as ->.
  { change o with (o, w').1. rewrite <- Hrun. reflexivity. }
  eexists _, w'. split; [reflexivity|].
  by destruct (fetchAllRecords_counts_its_records _ _ _ _ _ _ _ Hrun) as [-> _].
Defined.

(** ** A fetch that does not end *)

Lemma fetchLoop_empty_pages E config onPage :
  module config <> "" ->
  (forall cb recs resp, onPage = Some cb -> cb recs resp = Returns tt) ->
  (forall body, exists p,
      sugar_http E (module config) body = Returns p
      /\ records p = [] /\ has_more p = true) ->
  forall fuel offset acc total w,
    total <= 10000 ->
    (fetchLoop fuel E config onPage offset acc total w).1 = OutOfFuel.
Proof.
  intros Hm Hcb Hsrc. induction fuel as [|fuel IH]; intros offset acc total w Ht; [done|].
  destruct (Hsrc (requestBody (with_offset config offset))) as (p & Hp & Hrec & Hmore).
  rewrite (fetchLoop_page E config onPage fuel offset acc total p w Hm Hcb Hp).
  rewrite Hrec, Hmore. simpl length. rewrite Z.add_0_r.
  assert ((10000 <? total) = false) as -> by (apply Z.ltb_ge; lia). simpl.
  by apply IH.
Qed.

(** X26: the bound of 10,000 records does not bound the number of
    requests: against a Source that answers every request with an empty
    page and announces more, a fetch never returns, however many steps
    it is given. *)
Theorem fetchAllRecords_can_run_forever
    (E : Env) (config : QueryConfig) (onPage : option page_callback) :
  module config <> "" ->
  (forall cb recs resp, onPage = Some cb -> cb recs resp = Returns tt) ->
  (forall body, exists p,
      sugar_http E (module config) body = Returns p
      /\ records p = [] /\ has_more p = true) ->
  forall fuel w, (fetchAllRecords fuel E config onPage w).1 = OutOfFuel.
Proof.
  intros Hm Hcb Hsrc fuel w. unfold fetchAllRecords, bind.
  pose proof (fetchLoop_empty_pages E config onPage Hm Hcb Hsrc fuel 0 [] 0 w
                ltac:(lia)) as H.
  destruct (fetchLoop fuel E config onPage 0 [] 0 w) as [[loop|e|] w1]; done.
Qed.

(** A Source that has nothing and always announces more. *)
Definition teasing : Env :=
  {| clock := clock two_pages;
     config := Throws "ENOENT";
     sugar_http := λ _ body,
       Returns {| records := []; has_more := true; next_offset := rb_offset body;
                  total_count := VNum 0 |};
     portal_base_url := "http://localhost:3001";
     portal_http := λ _ _, Throws "offline";
     pool := Returns tt;
     db := λ _, Returns [] |}.

Lemma fetchAllRecords_can_run_forever_witness :
  (fetchAllRecords 1000 teasing (accounts_query "Accounts") None fresh).1 = OutOfFuel.
Proof.
  apply (fetchAllRecords_can_run_forever teasing (accounts_query "Accounts") None).
  - discriminate.
  - discriminate.
  - intros body. eexists. split; [reflexivity|]. split; reflexivity.
Defined.

(** ** A fetch that fails *)

(** The pages that leave the loop running. *)
Fixpoint goes_on (E : Env) (config : QueryConfig) (offset total : Z) (pages : list Page)
  : Prop :=
  match pages with
  | [] => True
  | p :: rest =>
      sugar_http E (module config) (requestBody (with_offset config offset)) = Returns p
      /\ has_more p = true
      /\ total + Z.of_nat (length (records p)) <= 10000
      /\ goes_on E config (next_offset p) (total + Z.of_nat (length (records p))) rest
  end.

(** The offset and the total after [pages]. *)
Fixpoint reached (offset total : Z) (pages : list Page) : Z * Z :=
  match pages with
  | [] => (offset, total)
  | p :: rest => reached (next_offset p) (total + Z.of_nat (length (records p))) rest
  end.

Definition api_failure (module message : string) : string :=
  "SugarCRM API call failed for module '" ++ module ++ "': " ++ message.

Lemma fetchLoop_fails E config onPage pages e :
  module config <> "" ->
  (forall cb recs resp, onPage = Some cb -> cb recs resp = Returns tt) ->
  forall fuel offset acc total w,
    goes_on E config offset total pages ->
    sugar_http E (module config)
      (requestBody (with_offset config (reached offset total pages).1)) = Throws e ->
    (length pages < fuel)%nat ->
    fetchLoop fuel E config onPage offset acc total w
    = (Throw (api_failure (module config) e),
       after w (length pages)
         (events_of config (bool_decide (is_Some onPage)) offset total pages
          ++ [EQuery (module config)
                (requestBody (with_offset config (reached offset total pages).1))])).
Proof.
  intros Hm Hcb. induction pages as [|p rest IH]; intros fuel offset acc total w Hgo He Hfuel.
  - destruct fuel as [|fuel]; [simpl in Hfuel; lia|]. simpl in He |- *.
    unfold bind at 1. rewrite try_catch_rethrow. unfold bind at 1.
    by rewrite (sugarCRMPost_throws E (with_offset config offset) e w Hm He).
  - destruct fuel as [|fuel]; [simpl in Hfuel; lia|].
    destruct Hgo as (Hp & Hmore & Hsmall & Hrest).
    rewrite (fetchLoop_page E config onPage fuel offset acc total p w Hm Hcb Hp).
    rewrite Hmore. apply Z.ltb_ge in Hsmall. rewrite Hsmall. simpl orb. cbv iota.
    rewrite (IH fuel _ _ _ _ Hrest He) by (simpl in Hfuel; lia).
    rewrite after_after. simpl reached. do 2 f_equal.
    rewrite app_assoc. f_equal. rewrite (events_of_cons config _ offset total p rest).
    reflexivity.
Qed.

(** X27: a request that fails ends the fetch, after however many pages:
    the fetch throws the error under the name of the module and returns
    none of the records of the pages it had been served. *)
Theorem fetchAllRecords_fails_with_its_page
    (E : Env) (config : QueryConfig) (onPage : option page_callback)
    (pages : list Page) (e : string) (fuel : nat) (w : World) :
  module config <> "" ->
  (forall cb recs resp, onPage = Some cb -> cb recs resp = Returns tt) ->
  goes_on E config 0 0 pages ->
  sugar_http E (module config)
    (requestBody (with_offset config (reached 0 0 pages).1)) = Throws e ->
  (length pages < fuel)%nat ->
  exists w',
    fetchAllRecords fuel E config onPage w
    = (Throw ("SugarCRM API call failed for module '" ++ module config ++ "': " ++ e), w')
    /\ length (trace w') = (length (trace w)
                            + length (events_of config (bool_decide (is_Some onPage))
                                        0 0 pages) + 1)%nat
    /\ sync_file w' = sync_file w.
Proof.
  intros Hm Hcb Hgo He Hfuel. unfold fetchAllRecords, bind.
  rewrite (fetchLoop_fails E config onPage pages e Hm Hcb fuel 0 [] 0 w Hgo He Hfuel).
  eexists. split; [reflexivity|]. simpl. rewrite !length_app. simpl. split; [lia|done].
Qed.

(** A Source that serves [first_page] and then fails. *)
Definition flaky : Env :=
  {| clock := clock two_pages;
     config := Throws "ENOENT";
     sugar_http := λ _ body,
       if rb_offset body =? 0 then Returns first_page else Throws "HTTP 500";
     portal_base_url := "http://localhost:3001";
     portal_http := λ _ _, Throws "offline";
     pool := Returns tt;
     db := λ _, Returns [] |}.

Lemma fetchAllRecords_fails_with_its_page_witness :
  exists w',
    fetchAllRecords 5 flaky (accounts_query "Accounts") None fresh
    = (Throw "SugarCRM API call failed for module 'Accounts': HTTP 500", w')
    /\ length (trace w') = 2%nat.
Proof.
  destruct (fetchAllRecords_fails_with_its_page flaky (accounts_query "Accounts") None
              [first_page] "HTTP 500" 5 fresh)
    as (w' & Hrun & Hlen & _).
  - discriminate.
  - discriminate.
  - simpl. repeat apply conj; try reflexivity. lia.
  - reflexivity.
  - simpl. lia.
  - exists w'. split; [exact Hrun|exact Hlen].
Defined.

(** ** Relationship records *)

Lemma fetchRelationshipData_ends E http module recordId linkName options w :
  (fetchRelationshipData E http module recordId linkName options w).1 <> OutOfFuel.
Proof.
  unfold fetchRelationshipData. rewrite try_catch_rethrow.
  destruct (_ || _); [done|]. unfold bind, lift, now, ret.
  by destruct (http _) as [data|e].
Qed.

(** One iteration of the loop: it throws, stops, or goes on with a
    total that has grown by [maxResults]. *)
Lemma linkLoop_step E http module recordId linkName options maxResults onPage fuel
    offset acc total w :
  (exists e w', linkLoop (S fuel) E http module recordId linkName options maxResults
                  onPage offset acc total w = (Throw e, w'))
  \/ (exists records w',
        linkLoop (S fuel) E http module recordId linkName options maxResults onPage
          offset acc total w
        = (Ok ((acc ++ records)%list, total + Z.of_nat (length records)), w'))
  \/ (exists records w',
        Z.of_nat (length records) = maxResults
        /\ total + maxResults <= 10000
        /\ linkLoop (S fuel) E http module recordId linkName options maxResults onPage
             offset acc total w
           = linkLoop fuel E http module recordId linkName options maxResults onPage
               (offset + maxResults) (acc ++ records)%list (total + maxResults) w').
Proof.
  remember (linkLoop (S fuel) E http module recordId linkName options maxResults onPage
              offset acc total w) as run eqn:Hrun.
  simpl linkLoop in Hrun. unfold bind at 1 in Hrun. rewrite try_catch_rethrow in Hrun.
  unfold bind at 1 in Hrun.
  pose proof (fetchRelationshipData_ends E http module recordId linkName
                (link_page options maxResults offset) w) as Hends.
  destruct (fetchRelationshipData E http module recordId linkName
              (link_page options maxResults offset) w) as [[response|e|] w1];
    [|left; subst run; eauto|done].
  set (records := default [] (link_records response)) in Hrun.
  unfold bind at 1 in Hrun.
  assert (exists o w2, match onPage with
                       | Some callback => lift (callback records response)
                       | None => ret tt
                       end w1 = (o, w2) /\ o <> OutOfFuel) as (o & w2 & Hcb & Ho).
  { destruct onPage as [callback|]; [|by eexists _, _].
    unfold lift. destruct (callback records response); by eexists _, _. }
  rewrite Hcb in Hrun.
  destruct o as [[]|e|]; [|left; subst run; eauto|done].
  destruct (10000 <? total + Z.of_nat (length records)) eqn:Hbig.
  - right. left. exists records. unfold bind, emit, ret in Hrun. simpl in Hrun.
    subst run. eauto.
  - unfold ret in Hrun. simpl in Hrun.
    destruct (Z.of_nat (length records) =? maxResults) eqn:Hfull.
    + right. right. apply Z.eqb_eq in Hfull. apply Z.ltb_ge in Hbig.
      exists records, w2. rewrite Hfull in Hrun, Hbig. subst run. by repeat apply conj.
    + right. left. exists records. subst run. eauto.
Qed.

Lemma linkLoop_ends E http module recordId linkName options maxResults onPage :
  maxResults <> 0 ->
  forall fuel offset acc total w,
    total = Z.of_nat (length acc) ->
    total <= 10000 ->
    10000 - total < Z.of_nat fuel * Z.max 1 maxResults ->
    match (linkLoop fuel E http module recordId linkName options maxResults onPage
             offset acc total w).1 with
    | Ok result => result.2 = Z.of_nat (length result.1)
    | Throw _ => True
    | OutOfFuel => False
    end.
Proof.
  intros Hsize. induction fuel as [|fuel IH]; intros offset acc total w Hlen Hsmall Hfuel.
  - simpl in Hfuel. lia.
  - destruct (linkLoop_step E http module recordId linkName options maxResults onPage fuel
                offset acc total w)
      as [(e & w' & ->)|[(records & w' & ->)|(records & w' & Hfull & Hnext & ->)]].
    + done.
    + simpl. rewrite length_app, Nat2Z.inj_add. lia.
    + apply IH.
      * rewrite length_app, Nat2Z.inj_add. lia.
      * done.
      * lia.
Qed.

(** X28: the relationship fetch always ends.  A page that holds another
    number of records than the page size is the last one, and the page
    size is never zero, so the loop stops at the latest with the page
    that takes the total over 10,000: after 501 pages of the default
    size of 20.  When it returns, its total is the number of the
    records it returns. *)
Theorem fetchAllRelationshipRecords_ends
    (fuel : nat) (E : Env) (http : link_http) (module recordId linkName : string)
    (options : LinkOptions) (onPage : option link_callback) (w : World) :
  10000 < Z.of_nat fuel * Z.max 1 (page_size options) ->
  match (fetchAllRelationshipRecords fuel E http module recordId linkName options
           onPage w).1 with
  | Ok r => linked_total_fetched r = Z.of_nat (length (linked_records r))
  | Throw _ => True
  | OutOfFuel => False
  end.
Proof.
  intros Hfuel. unfold fetchAllRelationshipRecords, bind at 1.
  assert (page_size options <> 0) as Hsize.
  { unfold page_size. destruct (link_maxResults options) as [n|]; [|done].
    destruct (Z.eqb_spec n 0); [done|done]. }
  pose proof (linkLoop_ends E http module recordId linkName options (page_size options)
                onPage Hsize fuel 0 [] 0 w eq_refl ltac:(lia) ltac:(lia)) as H.
  destruct (linkLoop fuel E http module recordId linkName options (page_size options)
              onPage 0 [] 0 w) as [[loop|e|] w1]; simpl in *; done.
Qed.

(** A relationship whose every page is full. *)
Definition full_pages : link_http :=
  λ request, Returns (Some (replicate 20 (account "x"))).

Lemma fetchAllRelationshipRecords_ends_witness :
  match (fetchAllRelationshipRecords 501 two_pages full_pages "Accounts" "a1" "officers"
           {| link_fields := None; link_filters := None; link_maxResults := None;
              link_offset := None; link_orderBy := None; link_orderDirection := None |}
           None fresh).1 with
  | Ok r => linked_total_fetched r = Z.of_nat (length (linked_records r))
  | Throw _ => True
  | OutOfFuel => False
  end.
Proof.
  apply (fetchAllRelationshipRecords_ends 501 two_pages full_pages "Accounts" "a1"
           "officers").
  reflexivity.
Defined.

End FetchSpec.

(* ===================================================================== *)
(** * Properties of the token cache                                      *)
(* ===================================================================== *)

Module PortalAuthSpec.
Import Js Runtime PortalAuth.

(** X29: a call that does not find a valid token in the cache logs in:
    a login that fails or brings no token is thrown and leaves the
    cache as it was; a token that is returned is the cached one, it
    expires one hour after the login that brought it, and until then
    every call returns it without logging in, whatever base URL it is
    made for. *)
Theorem cached_token_is_served_until_it_expires
    (post : login) (E : Env) (baseUrl : option string) (checked stored : Z)
    (c : TokenCache) :
  match getPortalToken post E baseUrl checked stored c with
  | (Returns token, c') =>
      truthy token = true
      /\ cachedToken c' = token
      /\ (truthy (hasValidToken checked c) = true -> c' = c)
      /\ (truthy (hasValidToken checked c) = false ->
          tokenExpiry c' = Some (stored + 3600000))
      /\ exists expiry,
           tokenExpiry c' = Some expiry
           /\ forall post' baseUrl' checked' stored',
                (checked' < expiry ->
                 getPortalToken post' E baseUrl' checked' stored' c' = (Returns token, c'))
                /\ (expiry <= checked' ->
                    (getPortalToken post' E baseUrl' checked' stored' c').1
                    = (getPortalToken post' E baseUrl' checked' stored' empty_cache).1)
  | (Throws _, c') => c' = c /\ truthy (hasValidToken checked c) = false
  end.
Proof.
  assert (forall token expiry post' baseUrl' checked' stored',
            truthy token = true ->
            (checked' < expiry ->
             getPortalToken post' E baseUrl' checked' stored'
               {| cachedToken := token; tokenExpiry := Some expiry |}
             = (Returns token, {| cachedToken := token; tokenExpiry := Some expiry |}))
            /\ (expiry <= checked' ->
                (getPortalToken post' E baseUrl' checked' stored'
                   {| cachedToken := token; tokenExpiry := Some expiry |}).1
                = (getPortalToken post' E baseUrl' checked' stored' empty_cache).1))
    as Hserve.
  { intros token expiry post' baseUrl' checked' stored' Ht.
    unfold getPortalToken, hasValidToken, falsy. simpl. rewrite Ht. simpl. split; intros H.
    - by rewrite (proj2 (Z.ltb_lt _ _) H).
    - rewrite (proj2 (Z.ltb_ge _ _) H).
      destruct (post' _) as [t|e]; [|done]. by destruct (truthy t). }
  destruct (getPortalToken post E baseUrl checked stored c) as [[token|e] c'] eqn:Hrun;
    unfold getPortalToken in Hrun;
    destruct (truthy (hasValidToken checked c)) eqn:Hvalid.
  - injection Hrun as <- <-.
    assert (truthy (cachedToken c) = true /\ exists expiry, tokenExpiry c = Some expiry)
      as [Ht [expiry Hexp]].
    { unfold hasValidToken, falsy in Hvalid.
      destruct (truthy (cachedToken c)) eqn:Ht; simpl in Hvalid; [|congruence].
      destruct (tokenExpiry c) as [expiry|]; [eauto|done]. }
    repeat apply conj; try done. exists expiry. split; [done|].
    intros post' baseUrl' checked' stored'.
    destruct c as [token expiry']. simpl in *. subst expiry'. by apply Hserve.
  - destruct (post _) as [t|e]; [|done].
    unfold falsy in Hrun. destruct (truthy t) eqn:Ht; simpl in Hrun; [|done].
    injection Hrun as <- <-. simpl.
    repeat apply conj; try done. eexists. split; [reflexivity|].
    intros post' baseUrl' checked' stored'. by apply Hserve.
  - done.
  - destruct (post _) as [t|e'].
    + unfold falsy in Hrun. destruct (truthy t); simpl in Hrun; [done|].
      by injection Hrun as _ <-.
    + by injection Hrun as _ <-.
Qed.

(** After [clearPortalToken] the next call logs in. *)
Lemma cleared_cache_logs_in (post : login) (E : Env) (baseUrl : option string)
    (checked stored : Z) (c : TokenCache) :
  (getPortalToken post E baseUrl checked stored (clearPortalToken c)).1
  = match post (portalBaseUrl E baseUrl ++ "/api/auth/admin/login") with
    | Returns token =>
        if truthy token then Returns token
        else Throws "No token received from portal login"
    | Throws e => Throws e
    end.
Proof.
  unfold getPortalToken, clearPortalToken. simpl.
  destruct (post _) as [token|e]; [|done]. unfold falsy. by destruct (truthy token).
Qed.

End PortalAuthSpec.

(* ===================================================================== *)
(** * Properties of the file logger                                      *)
(* ===================================================================== *)

Module LoggerSpec.
Import Js Logger.

Lemma LOG_LEVELS_known level rank :
  LOG_LEVELS level = Some rank ->
  In (level, rank) [("debug", 0%nat); ("info", 1%nat); ("warn", 2%nat); ("error", 3%nat)].
Proof.
  unfold LOG_LEVELS.
  destruct (String.eqb_spec level "debug") as [->|_]; [intros [= <-]; simpl; auto|].
  destruct (String.eqb_spec level "info") as [->|_]; [intros [= <-]; simpl; auto|].
  destruct (String.eqb_spec level "warn") as [->|_]; [intros [= <-]; simpl; auto|].
  destruct (String.eqb_spec level "error") as [->|_]; [intros [= <-]; simpl; auto 6|].
  done.
Qed.

(** X30: the four level methods write exactly when logging is enabled
    and their level is at or above a configured level that is one of
    the four known names; a configured level that is none of them (the
    names are lower case) silences all four, errors included.  The task,
    API and data methods write whenever logging is enabled, whatever
    the configured level. *)
Theorem the_configured_level_gates_the_level_methods (cfg : Config) (m : Method) :
  (In m [debug; info; warn; error] ->
   writes cfg m = true <->
   LOG_ENABLED cfg = true
   /\ exists rank configured,
        LOG_LEVELS (level_of m) = Some rank
        /\ LOG_LEVELS (LOG_LEVEL cfg) = Some configured
        /\ (configured <= rank)%nat)
  /\ (LOG_LEVELS (LOG_LEVEL cfg) = None ->
      forall m', In m' [debug; info; warn; error] -> writes cfg m' = false)
  /\ (~ In m [debug; info; warn; error] -> writes cfg m = LOG_ENABLED cfg)
  /\ (LOG_LEVELS (LOG_LEVEL cfg) <> None -> writes cfg error = LOG_ENABLED cfg).
Proof.
  repeat apply conj.
  - intros Hm.
    assert (writes cfg m = shouldLog cfg (level_of m) && LOG_ENABLED cfg) as ->.
    { simpl in Hm. by destruct Hm as [<-|[<-|[<-|[<-|[]]]]]. }
    unfold shouldLog. rewrite andb_true_iff.
    destruct (LOG_LEVELS (level_of m)) as [rank|];
      destruct (LOG_LEVELS (LOG_LEVEL cfg)) as [configured|]; split.
    + intros [H ?]. apply Nat.leb_le in H. eauto 6.
    + intros [? (r & c' & [= <-] & [= <-] & H)]. by apply Nat.leb_le in H.
    + by intros [? ?].
    + by intros [? (r & c' & _ & ? & _)].
    + by intros [? ?].
    + by intros [? (r & c' & ? & _)].
    + by intros [? ?].
    + by intros [? (r & c' & ? & _)].
  - intros Hnone m' Hm'. simpl in Hm'.
    destruct Hm' as [<-|[<-|[<-|[<-|[]]]]]; unfold writes, shouldLog; rewrite Hnone;
      simpl; done.
  - intros Hm. destruct m; simpl in *; try done; exfalso; apply Hm; auto.
  - intros Hsome. unfold writes, shouldLog. simpl.
    destruct (LOG_LEVELS (LOG_LEVEL cfg)) as [configured|] eqn:Hc; [|done].
    apply LOG_LEVELS_known in Hc. simpl in Hc.
    destruct Hc as [[= _ <-]|[[= _ <-]|[[= _ <-]|[[= _ <-]|[]]]]]; done.
Qed.

End LoggerSpec.
